(** * sissa_ratingviewer: the rating scraper of [scraper.py]

    A shallow embedding of [scraper.py] and the properties of its
    reconciliation logic: the federation snapshot parser
    ([download_and_parse_fide_xml]), the period URL derivation
    ([get_previous_period_url]) and the per-player enrichment loop of
    [scrape_ratings].

    Conventions of the embedding.
    - A Python [str] is a [string]; a character is a code point below 256
      (the Latin-1 range), and Python's character classes are tabulated on
      that range.
    - A Python [int] is a [Z].  The interpreter's configurable limit on the
      length of decimal conversions is not modelled.
    - A [dict] with string keys is a [gmap string _].
    - Exceptions are values of [exn]; code that can raise lives in [result]
      or, where it also changes the player dictionary or binds a local
      variable of [scrape_ratings], in [M].
    - What the browser, the HTTP client, the archive reader and the XML
      reader deliver is data handed to the functions ([profile_page],
      [response], [zip_archive], [element]); [print] is not modelled. *)

From Stdlib Require Import ZArith String Ascii List Lia Bool.
From stdpp Require Import base option list strings gmap fin_maps pretty.

Local Open Scope Z_scope.

(** ** Characters and text *)

Module Char.

Definition code (c : ascii) : N := N_of_ascii c.

(** [\d] of the [re] module on [str] patterns: the decimal digits. *)
Definition is_decimal (c : ascii) : bool :=
  ((48 <=? code c) && (code c <=? 57))%N.

(** [str.isdigit] on one character: the decimal digits and the
    superscripts two, three and one. *)
Definition isdigit (c : ascii) : bool :=
  is_decimal c || (code c =? 178)%N || (code c =? 179)%N || (code c =? 185)%N.

(** [str.isspace] on one character, which is also [\s]. *)
Definition isspace (c : ascii) : bool :=
  (((9 <=? code c) && (code c <=? 13)) || ((28 <=? code c) && (code c <=? 32))
   || (code c =? 133) || (code c =? 160))%N.

(** [str.lower] on one character. *)
Definition lower (c : ascii) : ascii :=
  if (((65 <=? code c) && (code c <=? 90))
      || ((192 <=? code c) && (code c <=? 222) && negb (code c =? 215)))%N
  then ascii_of_N (code c + 32) else c.

Definition digit_value (c : ascii) : Z := Z.of_N (code c) - 48.

Definition newline : ascii := "010"%char.
Definition plus : ascii := "+"%char.
Definition minus : ascii := "-"%char.
Definition equals : ascii := "="%char.

End Char.

Module Text.

Fixpoint all (f : ascii → bool) (s : string) : bool :=
  match s with
  | "" => true
  | String c s' => f c && all f s'
  end.

(** [c in s] for a one-character needle. *)
Fixpoint contains (c : ascii) (s : string) : bool :=
  match s with
  | "" => false
  | String d s' => Ascii.eqb d c || contains c s'
  end.

(** The longest prefix of [s] whose characters satisfy [f], and the rest. *)
Fixpoint span (f : ascii → bool) (s : string) : string * string :=
  match s with
  | "" => ("", "")
  | String c s' =>
      if f c then let '(a, b) := span f s' in (String c a, b) else ("", s)
  end.

Fixpoint lstrip (s : string) : string :=
  match s with
  | "" => ""
  | String c s' => if Char.isspace c then lstrip s' else s
  end.

Fixpoint rstrip (s : string) : string :=
  match s with
  | "" => ""
  | String c s' =>
      match rstrip s' with
      | "" => if Char.isspace c then "" else String c ""
      | r => String c r
      end
  end.

(** [s.strip()] *)
Definition strip (s : string) : string := lstrip (rstrip s).

(** [s.split(sep)] for a one-character separator. *)
Fixpoint split (sep : ascii) (s : string) : list string :=
  match s with
  | "" => [""]
  | String c s' =>
      if Ascii.eqb c sep then "" :: split sep s'
      else match split sep s' with
           | [] => [String c ""]
           | w :: ws => String c w :: ws
           end
  end.

(** [s.isdigit()]: non-empty and every character a digit. *)
Definition isdigit (s : string) : bool :=
  match s with "" => false | _ => all Char.isdigit s end.

(** [s.lower()] *)
Fixpoint lower (s : string) : string :=
  match s with
  | "" => ""
  | String c s' => String (Char.lower c) (lower s')
  end.

(** Value of a decimal numeral, most significant digit first. *)
Fixpoint decimal_value (acc : Z) (s : string) : Z :=
  match s with
  | "" => acc
  | String c s' => decimal_value (10 * acc + Char.digit_value c) s'
  end.

(** [s.endswith(suffix)] *)
Definition endswith (suffix s : string) : bool :=
  let n := String.length s in
  let k := String.length suffix in
  (k <=? n)%nat && String.eqb (String.substring (n - k) k s) suffix.

(** [s] without the prefix [p], when it starts with it. *)
Fixpoint drop_prefix (p s : string) : option string :=
  match p, s with
  | "", _ => Some s
  | String a p', String b s' => if Ascii.eqb a b then drop_prefix p' s' else None
  | String _ _, "" => None
  end.

(** Truth value of a [str]: non-empty. *)
Definition truthy (s : string) : bool :=
  match s with "" => false | _ => true end.

(** A non-empty run of decimal digits. *)
Definition is_numeral (s : string) : bool :=
  match s with "" => false | _ => all Char.is_decimal s end.

End Text.

(** ** Exceptions *)

Inductive exn : Type :=
| AttributeError | ValueError | KeyError (key : string) | IndexError
| OverflowError | RequestException | BadZipFile | ParseError
| PlaywrightError | UnboundLocalError.

Inductive result (A : Type) : Type :=
| Ok (a : A)
| Raise (e : exn).
Arguments Ok {A} a.
Arguments Raise {A} e.

#[global] Instance result_ret : MRet result := λ A a, Ok a.
#[global] Instance result_bind : MBind result := λ A B f r,
  match r with Ok a => f a | Raise e => Raise e end.

(** [try: body / except Exception: handler] *)
Definition try_except {A} (body : result A) (handler : exn → result A) : result A :=
  match body with Ok a => Ok a | Raise e => handler e end.

(** [str(n)] for an [int]. *)
Definition str (n : Z) : string := pretty n.

(** [int(s)], on the strings it is applied to here: strings that passed
    [isdigit].  The conversion accepts decimal digits only; a superscript
    digit raises [ValueError]. *)
Definition int (s : string) : result Z :=
  if Text.is_numeral s then Ok (Text.decimal_value 0 s) else Raise ValueError.

(** [l[-1]] *)
Definition last_item {A} (l : list A) : result A :=
  match last l with Some x => Ok x | None => Raise IndexError end.

(** [l[0]] *)
Definition first_item {A} (l : list A) : result A :=
  match l with x :: _ => Ok x | [] => Raise IndexError end.

(** ** The [re] patterns of the scraper *)

Module Re.

(** [$]: the end of the string, or just before a newline that ends it. *)
Definition at_end (s : string) : bool :=
  match s with
  | "" => true
  | String c "" => Ascii.eqb c Char.newline
  | _ => false
  end.

(** [(\d+)$] matched at the head of [s].  The run of digits is the longest
    one: a shorter run is followed by a digit, where [$] cannot match. *)
Definition digits_to_end (s : string) : option string :=
  let '(val, rest) := Text.span Char.is_decimal s in
  if Text.truthy val && at_end rest then Some val else None.

(** [([+-])\s?(\d+)$] matched at the head of [s]: groups 1 and 2.  The
    optional [\s] is tried first, then skipped. *)
Definition match_change (s : string) : option (string * string) :=
  match s with
  | "" => None
  | String c s' =>
      if Ascii.eqb c Char.plus || Ascii.eqb c Char.minus then
        let spaced :=
          match s' with
          | String w s'' => if Char.isspace w then digits_to_end s'' else None
          | "" => None
          end in
        match spaced with
        | Some val => Some (String c "", val)
        | None =>
            match digits_to_end s' with
            | Some val => Some (String c "", val)
            | None => None
            end
        end
      else None
  end.

(** [re.search(r'([+-])\s?(\d+)$', s)]: the leftmost position with a match. *)
Fixpoint search_change (s : string) : option (string * string) :=
  match match_change s with
  | Some g => Some g
  | None =>
      match s with
      | "" => None
      | String _ s' => search_change s'
      end
  end.

(** [profile/(\d+)] matched at the head of [s]: group 1. *)
Definition match_profile (s : string) : option string :=
  match Text.drop_prefix "profile/" s with
  | Some rest =>
      let '(digits, _) := Text.span Char.is_decimal rest in
      if Text.truthy digits then Some digits else None
  | None => None
  end.

(** [re.search(r'profile/(\d+)', s)] *)
Fixpoint search_profile (s : string) : option string :=
  match match_profile s with
  | Some g => Some g
  | None =>
      match s with
      | "" => None
      | String _ s' => search_profile s'
      end
  end.

End Re.

(** ** Dates: the part of [datetime] that the scraper uses

    [date - timedelta] goes through proleptic Gregorian ordinals (day 1 is
    0001-01-01), as the library does. *)

Module datetime.

Record date : Type := { year : Z; month : Z; day : Z }.

Definition MINYEAR : Z := 1.
Definition MAXYEAR : Z := 9999.
Definition _MAXORDINAL : Z := 3652059.

Definition _DAYS_IN_MONTH : list Z :=
  [-1; 31; 28; 31; 30; 31; 30; 31; 31; 30; 31; 30; 31].
Definition _DAYS_BEFORE_MONTH : list Z :=
  [-1; 0; 31; 59; 90; 120; 151; 181; 212; 243; 273; 304; 334].

Definition tbl (t : list Z) (i : Z) : Z := nth (Z.to_nat i) t (-1).

Definition _is_leap (y : Z) : bool :=
  (y mod 4 =? 0) && (negb (y mod 100 =? 0) || (y mod 400 =? 0)).

Definition _days_before_year (y : Z) : Z :=
  let y := y - 1 in y * 365 + y / 4 - y / 100 + y / 400.

Definition _days_in_month (y m : Z) : Z :=
  if (m =? 2) && _is_leap y then 29 else tbl _DAYS_IN_MONTH m.

Definition _days_before_month (y m : Z) : Z :=
  tbl _DAYS_BEFORE_MONTH m + (if (2 <? m) && _is_leap y then 1 else 0).

Definition _ymd2ord (y m d : Z) : Z :=
  _days_before_year y + _days_before_month y m + d.

Definition _DI400Y : Z := 146097.
Definition _DI100Y : Z := 36524.
Definition _DI4Y : Z := 1461.

Definition _ord2ymd (n : Z) : Z * Z * Z :=
  let n := n - 1 in
  let n400 := n / _DI400Y in
  let n := n mod _DI400Y in
  let y := n400 * 400 + 1 in
  let n100 := n / _DI100Y in
  let n := n mod _DI100Y in
  let n4 := n / _DI4Y in
  let n := n mod _DI4Y in
  let n1 := n / 365 in
  let n := n mod 365 in
  let y := y + (n100 * 100 + n4 * 4 + n1) in
  if (n1 =? 4) || (n100 =? 4) then (y - 1, 12, 31)
  else
    let leapyear := (n1 =? 3) && (negb (n4 =? 24) || (n100 =? 3)) in
    let m := Z.shiftr (n + 50) 5 in
    let preceding :=
      tbl _DAYS_BEFORE_MONTH m + (if (2 <? m) && leapyear then 1 else 0) in
    if n <? preceding then
      let m := m - 1 in
      let preceding :=
        preceding
        - (tbl _DAYS_IN_MONTH m + (if (m =? 2) && leapyear then 1 else 0)) in
      (y, m, n - preceding + 1)
    else (y, m, n - preceding + 1).

Definition toordinal (d : date) : Z := _ymd2ord (year d) (month d) (day d).

Definition fromordinal (n : Z) : date :=
  let '(y, m, d) := _ord2ymd n in {| year := y; month := m; day := d |}.

(** The dates that a [date] object can hold. *)
Definition valid (d : date) : Prop :=
  MINYEAR ≤ year d ≤ MAXYEAR ∧ 1 ≤ month d ≤ 12
  ∧ 1 ≤ day d ≤ _days_in_month (year d) (month d).

(** [d.replace(day=n)] *)
Definition replace_day (d : date) (n : Z) : result date :=
  if (1 <=? n) && (n <=? _days_in_month (year d) (month d))
  then Ok {| year := year d; month := month d; day := n |}
  else Raise ValueError.

(** [d - datetime.timedelta(days=n)] *)
Definition sub_days (d : date) (n : Z) : result date :=
  let o := toordinal d + - n in
  if (0 <? o) && (o <=? _MAXORDINAL) then Ok (fromordinal o)
  else Raise OverflowError.

(** [d.strftime("%b")], in the C locale the interpreter starts in. *)
Definition strftime_b (d : date) : string :=
  nth (Z.to_nat (month d - 1))
    ["Jan"; "Feb"; "Mar"; "Apr"; "May"; "Jun";
     "Jul"; "Aug"; "Sep"; "Oct"; "Nov"; "Dec"] "".

Definition digit (n : Z) : ascii := ascii_of_N (Z.to_N (48 + n)).

(** [d.strftime("%y")]: the year within its century, on two digits. *)
Definition strftime_y (d : date) : string :=
  let yy := year d mod 100 in
  String (digit (yy / 10)) (String (digit (yy mod 10)) "").

End datetime.

(** ** [get_previous_period_url] *)

Definition CLUB_URL : string := "https://ratingviewer.nl/lists/latest/clubs/020027".
Definition FIDE_XML_URL : string :=
  "https://ratings.fide.com/download/standard_rating_list_xml.zip".

(** [today] stands for the value of [datetime.date.today()]. *)
Definition get_previous_period_url (today : datetime.date) : result string :=
  first_of_month ← datetime.replace_day today 1;
  prev_month_date ← datetime.sub_days first_of_month 1;
  let mon := Text.lower (datetime.strftime_b prev_month_date) in
  let yy := datetime.strftime_y prev_month_date in
  let url :=
    "https://ratings.fide.com/download/standard_" +:+ mon +:+ yy +:+ "frl_xml.zip" in
  Ok url.

(** ** [download_and_parse_fide_xml] *)

Module Fide.
(** The value stored per identifier:
    [{"rating": .., "games": .., "title": .., "country": .., "birthday": ..}] *)
Record record : Type :=
  { rating : Z; games : Z; title : string; country : string; birthday : string }.
End Fide.

Module ET.

(** An element of an XML tree: tag, text and child elements. *)
#[warnings="-register-all"]
Inductive element : Type :=
| Element (tag : string) (text : option string) (children : list element).

Definition tag (e : element) : string := let 'Element t _ _ := e in t.
Definition text (e : element) : option string := let 'Element _ x _ := e in x.
Definition children (e : element) : list element := let 'Element _ _ c := e in c.

(** [e.findall(t)]: the direct children with tag [t], in document order. *)
Definition findall (t : string) (e : element) : list element :=
  filter (λ c, tag c = t) (children e).

(** [e.find(t)]: the first of them, or [None]. *)
Definition find (t : string) (e : element) : option element :=
  head (findall t e).

(** [x.text] where [x] is the result of a [find]. *)
Definition text_of (x : option element) : result (option string) :=
  match x with
  | Some e => Ok (text e)
  | None => Raise AttributeError
  end.

End ET.

(** What [zipfile.ZipFile] gives for the downloaded bytes: the member names
    and, per member, what [ET.parse] makes of it (its root element). *)
Record zip_archive : Type :=
  { namelist : list string; parse_member : string → result ET.element }.

(** What [requests.get] gives: the status code and the content, the latter
    through [zipfile.ZipFile(io.BytesIO(..))]. *)
Record response : Type :=
  { status_code : Z; content : result zip_archive }.

(** [x if x else ""] *)
Definition or_empty (x : option string) : string :=
  match x with
  | Some s => if Text.truthy s then s else ""
  | None => ""
  end.

(** [int(x) if x and x.isdigit() else 0] *)
Definition int_if_digits (x : option string) : result Z :=
  match x with
  | Some s => if Text.truthy s && Text.isdigit s then int s else Ok 0
  | None => Ok 0
  end.

(** The body of the loop over [root.findall('player')]. *)
Definition parse_player (player : ET.element) (fide_data : gmap string Fide.record)
  : result (gmap string Fide.record) :=
  fide_id ← ET.text_of (ET.find "fideid" player);
  rating ← ET.text_of (ET.find "rating" player);
  games ← ET.text_of (ET.find "games" player);
  title ← ET.text_of (ET.find "title" player);
  country ← ET.text_of (ET.find "country" player);
  birthday ← ET.text_of (ET.find "birthday" player);
  match fide_id with
  | Some id =>
      if Text.truthy id then
        r ← int_if_digits rating;
        g ← int_if_digits games;
        Ok (<[id := {| Fide.rating := r; Fide.games := g;
                       Fide.title := or_empty title;
                       Fide.country := or_empty country;
                       Fide.birthday := or_empty birthday |}]> fide_data)
      else Ok fide_data
  | None => Ok fide_data
  end.

Fixpoint parse_players (players : list ET.element) (fide_data : gmap string Fide.record)
  : result (gmap string Fide.record) :=
  match players with
  | [] => Ok fide_data
  | player :: rest =>
      fide_data' ← parse_player player fide_data;
      parse_players rest fide_data'
  end.

(** [get] stands for [requests.get]. *)
Definition download_and_parse_fide_xml (get : string → result response) (url : string)
  : result (gmap string Fide.record) :=
  try_except
    (response ← get url;
     if negb (status_code response =? 200) then Ok ∅
     else
       z ← content response;
       xml_filename ← first_item (filter (λ name, Text.endswith ".xml" name = true) (namelist z));
       root ← parse_member z xml_filename;
       parse_players (ET.findall "player" root) ∅)
    (λ e, Ok ∅).

(** ** [scrape_ratings] *)

(** A roster row, as the query selectors see it: the link in the name
    column (its text and its [href]) and the text of the other columns,
    each possibly missing. *)
Record roster_row : Type :=
  { name_el : option (string * option string);
    rating_el : option string;
    title_el : option string;
    fed_el : option string;
    yob_el : option string;
    sex_el : option string }.

(** What the browser shows after [page.goto(url)]: each query either
    raises or gives the text of the element it found, if any. *)
Record profile_page : Type :=
  { goto : result unit;
    wait_for_table : result unit;
    games_cell : result (option string);
    calc_cell : result (option string);
    fide_link : result (option string) }.

(** Formatting of an optional [str] inside an f-string. *)
Definition fmt_opt (x : option string) : string :=
  match x with Some s => s | None => "None" end.

(** [(await el.inner_text()).strip() if el else ""] *)
Definition text_or_empty (el : option string) : string :=
  match el with Some t => Text.strip t | None => "" end.

(** The body of the loop over the rows: the dictionary appended to
    [players], when the row has a name link and a rating. *)
Definition roster_entry (row : roster_row) : option (gmap string string) :=
  match name_el row, rating_el row with
  | Some (name, profile_url), Some rating =>
      let current_rating := Text.strip rating in
      let title_val := text_or_empty (title_el row) in
      let fed_val := text_or_empty (fed_el row) in
      let yob_val := text_or_empty (yob_el row) in
      let sex_val := text_or_empty (sex_el row) in
      Some (<["name" := name]>
           (<["profile_url" := "https://ratingviewer.nl" +:+ fmt_opt profile_url]>
           (<["current_rating" := current_rating]>
           (<["rating_change" := "0"]>
           (<["games_played" := "0"]>
           (<["title" := title_val]>
           (<["country" := fed_val]>
           (<["birthday" := yob_val]>
           (<["gender" := sex_val]>
           (<["_full_profile_url" := "https://ratingviewer.nl" +:+ fmt_opt profile_url]>
            ∅))))))))))
  | _, _ => None
  end.

(** The local variables of [scrape_ratings] that the loop over [players]
    changes.  The [import re] of line 185 is a statement of the body of
    [scrape_ratings], so in that function the name [re] is a local
    variable, not the module of line 3: it is unbound when the function
    starts, and bound from the first time line 185 runs.  [player_of] is
    the dictionary that [player] refers to in the current iteration. *)
Record locals : Type :=
  Locals { re_bound : bool; player_of : gmap string string }.

(** Code that changes these variables and can raise: they are threaded
    through, and survive an exception. *)
Definition M (A : Type) : Type := locals → result A * locals.

#[global] Instance M_ret : MRet M := λ A a s, (Ok a, s).
#[global] Instance M_bind : MBind M := λ A B f m s,
  match m s with
  | (Ok a, s') => f a s'
  | (Raise e, s') => (Raise e, s')
  end.

Definition lift {A} (r : result A) : M A := λ s, (r, s).

(** [player[key]] *)
Definition getitem (key : string) : M string := λ s,
  (match player_of s !! key with Some v => Ok v | None => Raise (KeyError key) end, s).

(** [player[key] = v] *)
Definition setitem (key v : string) : M unit := λ s,
  (Ok (), Locals (re_bound s) (<[key := v]> (player_of s))).

(** [import re], inside the function: binds the local [re]. *)
Definition import_re : M unit := λ s, (Ok (), Locals true (player_of s)).

(** A read of the local [re], as in [re.search]. *)
Definition load_re : M unit := λ s,
  (if re_bound s then Ok () else Raise UnboundLocalError, s).

Definition pass : M unit := mret ().

(** [try: body / except Exception: handler] *)
Definition try_except_M {A} (body : M A) (handler : exn → M A) : M A := λ s,
  match body s with
  | (Ok a, s') => (Ok a, s')
  | (Raise e, s') => handler e s'
  end.

(** The games-played cell. *)
Definition games_block (games_cell : option string) : M unit :=
  match games_cell with
  | Some text =>
      if Text.contains Char.newline text then
        v ← lift (last_item (Text.split Char.newline text));
        setitem "games_played" (Text.strip v)
      else pass
  | None => pass
  end.

(** The calculation cell. *)
Definition calc_block (calc_cell : option string) : M unit :=
  match calc_cell with
  | Some text =>
      import_re;;
      load_re;;
      match Re.search_change (Text.strip text) with
      | Some (sign, val) =>
          if String.eqb sign "+" then
            setitem "rating_change" val;;
            setitem "rating_change" val
          else setitem "rating_change" ("-" +:+ val)
      | None => if Text.contains Char.equals text then pass else pass
      end
  | None => pass
  end.

(** Step 1 of the loop body, inside its own [try]. *)
Definition knsb_stats (pg : profile_page) : M unit :=
  lift (wait_for_table pg);;
  games_cell ← lift (games_cell pg);
  games_block games_cell;;
  calc_cell ← lift (calc_cell pg);
  calc_block calc_cell.

(** [if not player[key] and v: player[key] = v] *)
Definition backfill (key v : string) : M unit :=
  old ← getitem key;
  if negb (Text.truthy old) && Text.truthy v then setitem key v else pass.

(** The change of the federation rating. *)
Definition change_block (curr_rec : Fide.record) (prev_fide : gmap string Fide.record)
    (fide_id : string) : M unit :=
  match prev_fide !! fide_id with
  | Some prev_rec =>
      let prev_rating := Fide.rating prev_rec in
      if 0 <? prev_rating then
        let change := Fide.rating curr_rec - prev_rating in
        setitem "fide_change" (if 0 <? change then "+" +:+ str change else str change)
      else pass
  | None => setitem "fide_change" "0"
  end.

(** Steps 2 and 3 of the loop body.  [re.search] reads the local [re],
    which raises when line 185 has not run yet.  The last [getitem] is the
    read of [player['fide_change']] by the log line that closes the step. *)
Definition fide_match (current_fide prev_fide : gmap string Fide.record)
    (pg : profile_page) : M unit :=
  fide_link ← lift (fide_link pg);
  match fide_link with
  | Some fide_url =>
      load_re;;
      match Re.search_profile fide_url with
      | Some fide_id =>
          setitem "fide_id" fide_id;;
          match current_fide !! fide_id with
          | Some curr_rec =>
              setitem "fide_rating" (str (Fide.rating curr_rec));;
              setitem "fide_games" (str (Fide.games curr_rec));;
              change_block curr_rec prev_fide fide_id;;
              backfill "title" (Fide.title curr_rec);;
              backfill "country" (Fide.country curr_rec);;
              backfill "birthday" (Fide.birthday curr_rec);;
              _ ← getitem "fide_change";
              pass
          | None => pass
          end
      | None => pass
      end
  | None => pass
  end.

(** The body of the loop over [players].  The two reads of
    [player['name']] are those of the log lines. *)
Definition process_player (current_fide prev_fide : gmap string Fide.record)
    (pages : string → profile_page) : M unit :=
  _ ← getitem "name";
  try_except_M
    (url ← getitem "_full_profile_url";
     let pg := pages url in
     lift (goto pg);;
     try_except_M (knsb_stats pg) (λ e, pass);;
     fide_match current_fide prev_fide pg)
    (λ e, _ ← getitem "name"; pass).

(** The loop over [players]: each iteration runs the body on the next
    dictionary, with [re] as the iteration before left it. *)
Fixpoint process_players (current_fide prev_fide : gmap string Fide.record)
    (pages : string → profile_page) (players : list (gmap string string))
    (bound : bool) : result (list (gmap string string)) :=
  match players with
  | [] => Ok []
  | player :: rest =>
      match process_player current_fide prev_fide pages (Locals bound player) with
      | (Ok _, s) =>
          rest' ← process_players current_fide prev_fide pages rest (re_bound s);
          Ok (player_of s :: rest')
      | (Raise e, _) => Raise e
      end
  end.

(** [if "_full_profile_url" in p: del p["_full_profile_url"]] *)
Definition cleanup (p : gmap string string) : gmap string string :=
  delete "_full_profile_url" p.

(** The list that [scrape_ratings] hands to [json.dump] under ["players"].
    [today] is the value of [datetime.date.today()], [get] is
    [requests.get], [rows] are the table rows of the club page and [pages]
    is what the browser shows per profile URL.  The local [re] is unbound
    when the loop over [players] starts. *)
Definition scrape_ratings (today : datetime.date) (get : string → result response)
    (rows : list roster_row) (pages : string → profile_page)
  : result (list (gmap string string)) :=
  current_fide ← download_and_parse_fide_xml get FIDE_XML_URL;
  prev_url ← get_previous_period_url today;
  prev_fide ← download_and_parse_fide_xml get prev_url;
  let players : list (gmap string string) := omap roster_entry rows in
  players ← process_players current_fide prev_fide pages players false;
  Ok (map cleanup players).

(** * Vocabulary of the properties *)

Module Spec.
Import Text datetime.

(** ** Text and patterns *)

Definition first_char (s : string) : option ascii :=
  match s with "" => None | String c _ => Some c end.

Fixpoint last_char (s : string) : option ascii :=
  match s with
  | "" => None
  | String c "" => Some c
  | String _ s' => last_char s'
  end.

(** No whitespace at either end. *)
Definition trimmed (s : string) : Prop :=
  (∀ c, first_char s = Some c → Char.isspace c = false)
  ∧ (∀ c, last_char s = Some c → Char.isspace c = false).

(** [v] is [b] without the whitespace at its two ends: it has none at
    either end, and [b] is [v] between two runs of whitespace. *)
Definition trim_of (b v : string) : Prop :=
  trimmed v
  ∧ ∃ l r, b = l +:+ v +:+ r
           ∧ all Char.isspace l = true ∧ all Char.isspace r = true.

(** The two characters of [[+-]]. *)
Definition is_sign (c : ascii) : Prop := c = Char.plus ∨ c = Char.minus.

(** Nothing, or one whitespace character: what [\s?] can take. *)
Definition opt_space (sp : string) : Prop :=
  sp = "" ∨ ∃ w, sp = String w "" ∧ Char.isspace w = true.

(** What [$] accepts after the digits. *)
Definition tail_ok (tail : string) : Prop :=
  tail = "" ∨ tail = String Char.newline "".

(** Characters that can follow the sign inside a match. *)
Definition after_sign (c : ascii) : bool := Char.isspace c || Char.is_decimal c.

(** A line break. *)
Definition nl : string := String Char.newline "".

(** The text ends with a signed number: a sign, nothing or one whitespace
    character, and one or more decimal digits up to the end. *)
Definition ends_with_delta (t : string) (sg : ascii) (val : string) : Prop :=
  ∃ pre sp, t = pre +:+ String sg (sp +:+ val)
            ∧ opt_space sp ∧ is_numeral val = true.

(** ** The player dictionary *)

(** The dictionary after running [m] on [player], with [re] bound or not
    at the start. *)
Definition exec {A} (m : M A) (bound : bool) (player : gmap string string)
  : gmap string string :=
  player_of (m (Locals bound player)).2.

(** [m] writes no key outside [K]. *)
Definition modifies {A} (K : list string) (m : M A) : Prop :=
  ∀ bound player k, k ∉ K → exec m bound player !! k = player !! k.

(** The rendering of the change: ["+N"] when positive, [str] otherwise. *)
Definition fmt_change (change : Z) : string :=
  if 0 <? change then "+" +:+ str change else str change.

(** The dictionary after [backfill]. *)
Definition backfilled (key v : string) (p : gmap string string) : gmap string string :=
  match p !! key with
  | Some old => if negb (Text.truthy old) && Text.truthy v then <[key := v]> p else p
  | None => p
  end.

(** The dictionary after [change_block]. *)
Definition changed (curr_rec : Fide.record) (prev_fide : gmap string Fide.record)
    (fide_id : string) (p : gmap string string) : gmap string string :=
  match prev_fide !! fide_id with
  | Some prev_rec =>
      if 0 <? Fide.rating prev_rec
      then <["fide_change" := fmt_change (Fide.rating curr_rec - Fide.rating prev_rec)]> p
      else p
  | None => <["fide_change" := "0"]> p
  end.

(** The dictionary after a match in the current snapshot. *)
Definition reconciled (curr_rec : Fide.record) (prev_fide : gmap string Fide.record)
    (fide_id : string) (p : gmap string string) : gmap string string :=
  backfilled "birthday" (Fide.birthday curr_rec)
    (backfilled "country" (Fide.country curr_rec)
       (backfilled "title" (Fide.title curr_rec)
          (changed curr_rec prev_fide fide_id
             (<["fide_games" := str (Fide.games curr_rec)]>
                (<["fide_rating" := str (Fide.rating curr_rec)]>
                   (<["fide_id" := fide_id]> p)))))).

(** The keys that [fide_match] writes, and those of [knsb_stats]. *)
Definition fide_keys : list string :=
  ["fide_id"; "fide_rating"; "fide_games"; "fide_change";
   "title"; "country"; "birthday"].

Definition knsb_keys : list string := ["games_played"; "rating_change"].

(** The keys the roster extractor sets and the enrichment reads. *)
Definition has_roster_keys (p : gmap string string) : Prop :=
  is_Some (p !! "name") ∧ is_Some (p !! "_full_profile_url")
  ∧ is_Some (p !! "title") ∧ is_Some (p !! "country")
  ∧ is_Some (p !! "birthday").

(** The three ways [fide_match] can leave the dictionary. *)
Inductive matched (current_fide prev_fide : gmap string Fide.record)
    (p : gmap string string) : gmap string string → Prop :=
| no_identifier : matched current_fide prev_fide p p
| not_in_list fide_id :
    current_fide !! fide_id = None →
    matched current_fide prev_fide p (<["fide_id" := fide_id]> p)
| in_list fide_id curr_rec :
    current_fide !! fide_id = Some curr_rec →
    matched current_fide prev_fide p (reconciled curr_rec prev_fide fide_id p).

(** The federation's value for a backfilled key. *)
Definition fide_field (key : string) (r : Fide.record) : string :=
  if decide (key = "title") then Fide.title r
  else if decide (key = "country") then Fide.country r
  else Fide.birthday r.

(** The keys that are backfilled from the federation record. *)
Definition backfill_keys : list string := ["title"; "country"; "birthday"].

(** ** The federation feed *)

(** The six child elements that the loop body reads. *)
Definition field_tags : list string :=
  ["fideid"; "rating"; "games"; "title"; "country"; "birthday"].

(** A player element that has all six of them. *)
Definition complete (player : ET.element) : Prop :=
  ∀ t, t ∈ field_tags → is_Some (ET.find t player).

(** The text of a field, when the element is there and has text. *)
Definition field_text (t : string) (player : ET.element) : option string :=
  ET.find t player ≫= ET.text.

(** The identifier of a player element is absent or empty. *)
Definition unidentified (player : ET.element) : Prop :=
  field_text "fideid" player = None ∨ field_text "fideid" player = Some "".

(** The integer a rating or games text stands for: its value when it is a
    decimal numeral, and zero otherwise. *)
Definition coerce_int (x : option string) : Z :=
  match x with
  | Some s => if Text.is_numeral s then Text.decimal_value 0 s else 0
  | None => 0
  end.

(** A run of the character [0]. *)
Definition zeros (z : string) : bool := all (λ c, Ascii.eqb c "0") z.

(** The text [s] is a decimal numeral that denotes [n]: it is the
    rendering of [n], which is not negative, behind any number of zeros. *)
Definition denotes (s : string) (n : Z) : Prop :=
  0 ≤ n ∧ ∃ z, zeros z = true ∧ s = z +:+ str n.

(** What a rating or games text is stored as: the number it denotes, and
    zero when it denotes none or is absent. *)
Definition stored_as (x : option string) (n : Z) : Prop :=
  match x with
  | Some s => denotes s n ∨ (n = 0 ∧ ∀ m, ¬ denotes s m)
  | None => n = 0
  end.

(** The stored record of a player element. *)
Definition record_of (player : ET.element) : Fide.record :=
  {| Fide.rating := coerce_int (field_text "rating" player);
     Fide.games := coerce_int (field_text "games" player);
     Fide.title := default "" (field_text "title" player);
     Fide.country := default "" (field_text "country" player);
     Fide.birthday := default "" (field_text "birthday" player) |}.

(** ** Rating periods *)

(** The year and month before the month [m] of year [y]. *)
Definition previous_month (y m : Z) : Z * Z :=
  if m =? 1 then (y - 1, 12) else (y, m - 1).

(** The date [ymd] is the last day of the month [ym]. *)
Definition is_last_day_of (ym : Z * Z) (ymd : Z * Z * Z) : bool :=
  let '(y', m', d') := ymd in
  let '(py, pm) := ym in
  (y' =? py) && (m' =? pm) && (d' =? _days_in_month py pm).

(** The day before the first of month [m] of year [y], computed through
    ordinals, is the last day of the month before. *)
Definition last_day_before (y m : Z) : bool :=
  is_last_day_of (previous_month y m) (_ord2ymd (_ymd2ord y m 1 - 1)).

(** The month abbreviations of the URL. *)
Definition month_abbrev (m : Z) : string :=
  nth (Z.to_nat (m - 1))
    ["jan"; "feb"; "mar"; "apr"; "may"; "jun";
     "jul"; "aug"; "sep"; "oct"; "nov"; "dec"] "".

(** The year within its century, padded to two digits. *)
Definition two_digit_year (y : Z) : string :=
  let yy := y mod 100 in
  if yy <? 10 then "0" +:+ str yy else str yy.

(** ** The loop body, in closed form *)

(** A row that has both the name link and the rating. *)
Definition kept (row : roster_row) : bool :=
  match name_el row, rating_el row with
  | Some _, Some _ => true
  | _, _ => false
  end.

(** The keys of a roster entry that are emitted, and the federation keys
    that the enrichment may add. *)
Definition roster_keys : list string :=
  ["name"; "profile_url"; "current_rating"; "rating_change"; "games_played";
   "title"; "country"; "birthday"; "gender"].

Definition federation_keys : list string :=
  ["fide_id"; "fide_rating"; "fide_games"; "fide_change"].

(** The keys that the loop body may write. *)
Definition written_keys : list string := knsb_keys ++ fide_keys.

(** [m] removes no key. *)
Definition grows {A} (m : M A) : Prop :=
  ∀ bound player k, is_Some (player !! k) → is_Some (exec m bound player !! k).

(** Two dictionaries that agree outside [K]. *)
Definition agree (K : list string) (p p' : gmap string string) : Prop :=
  ∀ k, k ∉ K → p !! k = p' !! k.

(** What [m] returns, and what it leaves outside [K], depends on the
    dictionary outside [K] only; so does the binding of [re] it leaves. *)
Definition ignores {A} (K : list string) (m : M A) : Prop :=
  ∀ bound p p', agree K p p' →
    (m (Locals bound p)).1 = (m (Locals bound p')).1
    ∧ re_bound (m (Locals bound p)).2 = re_bound (m (Locals bound p')).2
    ∧ agree K (exec m bound p) (exec m bound p').

(** Step 1 on the page gets as far as line 185: the table is there, the
    query for the games cell returns, and the calculation cell is found
    and read. *)
Definition imports (pg : profile_page) : bool :=
  match wait_for_table pg, games_cell pg, calc_cell pg with
  | Ok _, Ok _, Ok (Some _) => true
  | _, _, _ => false
  end.

(** The loop body on the page binds [re]: the page opens, and step 1
    gets as far as line 185. *)
Definition binds (pg : profile_page) : bool :=
  match goto pg with Ok _ => imports pg | Raise _ => false end.

(** The page that the loop body opens for a dictionary binds [re]. *)
Definition entry_binds (pages : string → profile_page) (p : gmap string string)
  : bool :=
  match p !! "_full_profile_url" with
  | Some url => binds (pages url)
  | None => false
  end.

(** [re] is bound once the loop has run over [earlier]: it was bound
    before, or one of these pages bound it. *)
Definition bound_after (pages : string → profile_page) (bound : bool)
    (earlier : list (gmap string string)) : bool :=
  bound || existsb (entry_binds pages) earlier.

(** The dictionary after step 1 of the loop body, with its [try]. *)
Definition knsb_outcome (pg : profile_page) (p : gmap string string)
  : gmap string string :=
  exec (try_except_M (knsb_stats pg) (λ e, pass)) false p.

(** The dictionary after steps 2 and 3 of the loop body, with [re] bound
    or not when they start. *)
Definition fide_outcome (current_fide prev_fide : gmap string Fide.record)
    (pg : profile_page) (bound : bool) (p : gmap string string)
  : gmap string string :=
  match fide_link pg with
  | Ok (Some fide_url) =>
      if bound then
        match Re.search_profile fide_url with
        | Some fide_id =>
            match current_fide !! fide_id with
            | Some curr_rec => reconciled curr_rec prev_fide fide_id p
            | None => <["fide_id" := fide_id]> p
            end
        | None => p
        end
      else p
  | _ => p
  end.

(** The dictionary after the loop body, for the profile page [pg], with
    [re] bound or not when the body starts. *)
Definition body_outcome (current_fide prev_fide : gmap string Fide.record)
    (pg : profile_page) (bound : bool) (p : gmap string string)
  : gmap string string :=
  match goto pg with
  | Ok _ => fide_outcome current_fide prev_fide pg (bound || imports pg)
              (knsb_outcome pg p)
  | Raise _ => p
  end.

(** A decimal numeral, possibly behind a minus sign. *)
Definition signed_numeral (s : string) : Prop :=
  is_numeral s = true ∨ ∃ val, s = "-" +:+ val ∧ is_numeral val = true.

(** The text holds ["profile/"] followed by a decimal digit. *)
Definition has_profile_id (s : string) : Prop :=
  ∃ pre d rest, s = pre +:+ "profile/" +:+ String d rest ∧ Char.is_decimal d = true.

(** The dictionary after the loop body, for a roster entry. *)
Definition enriched (current_fide prev_fide : gmap string Fide.record)
    (pages : string → profile_page) (bound : bool) (p : gmap string string)
  : gmap string string :=
  match p !! "_full_profile_url" with
  | Some url => body_outcome current_fide prev_fide (pages url) bound p
  | None => p
  end.

(** The dictionaries after the loop over [players]. *)
Fixpoint enriched_all (current_fide prev_fide : gmap string Fide.record)
    (pages : string → profile_page) (bound : bool)
    (players : list (gmap string string)) : list (gmap string string) :=
  match players with
  | [] => []
  | p :: rest =>
      enriched current_fide prev_fide pages bound p
      :: enriched_all current_fide prev_fide pages (bound || entry_binds pages p) rest
  end.

(** [m] keeps the property [P] of the dictionary. *)
Definition preserves {A} (P : gmap string string → Prop) (m : M A) : Prop :=
  ∀ bound player, P player → P (exec m bound player).

(** The value under [key] satisfies [Q]. *)
Definition holds_at (key : string) (Q : string → Prop) (p : gmap string string) : Prop :=
  ∃ v, p !! key = Some v ∧ Q v.

(** A text without line break and without whitespace at its ends. *)
Definition one_trimmed_line (s : string) : Prop :=
  trimmed s ∧ contains Char.newline s = false.

(** The feed at [url] is obtained and decodes to the XML tree [root]. *)
Definition feed_of (get : string → result response) (url : string)
    (root : ET.element) : Prop :=
  ∃ response z xml_filename,
    get url = Ok response ∧ status_code response = 200
    ∧ content response = Ok z
    ∧ first_item (filter (λ name, Text.endswith ".xml" name = true) (namelist z))
      = Ok xml_filename
    ∧ parse_member z xml_filename = Ok root.

(** A text that passes [isdigit] without being a decimal numeral. *)
Definition digit_like (x : option string) : Prop :=
  ∃ s, x = Some s ∧ Text.isdigit s = true ∧ is_numeral s = false.

End Spec.

(** ** A sample run

    One club member, with federation identifier 123, and rating lists in
    which that identifier carries the given ratings; the run is in January
    2026, so the previous list is the one of December 2025. *)

Module Sample.
Import Spec.

Definition today : datetime.date :=
  {| datetime.year := 2026; datetime.month := 1; datetime.day := 15 |}.

Definition prev_url : string :=
  "https://ratings.fide.com/download/standard_dec25frl_xml.zip".

Definition field (tag : string) (text : option string) : ET.element :=
  ET.Element tag text [].

Definition xml_player (fideid rating games title : option string) : ET.element :=
  ET.Element "player" None
    [field "fideid" fideid; field "name" (Some "Doe, Jan");
     field "country" (Some "NED"); field "sex" (Some "M");
     field "title" title; field "rating" rating; field "games" games;
     field "birthday" (Some "1990")].

Definition xml_list (players : list ET.element) : response :=
  {| status_code := 200;
     content := Ok {| namelist := ["readme.txt"; "standard_rating_list.xml"];
                      parse_member := λ _, Ok (ET.Element "playerslist" None players) |} |}.

(** The feeds: the current list rates 123 at [curr]; the previous list
    holds the given player elements. *)
Definition get (curr : string) (prev : list ET.element) (url : string)
  : result response :=
  if decide (url = FIDE_XML_URL) then
    Ok (xml_list [xml_player (Some "123") (Some curr) (Some "3") (Some "IM")])
  else if decide (url = prev_url) then Ok (xml_list prev)
  else Raise RequestException.

Definition row (title : string) : roster_row :=
  {| name_el := Some ("Jan Doe", Some "/players/8000001");
     rating_el := Some " 1800 "; title_el := Some title; fed_el := None;
     yob_el := Some "1990"; sex_el := Some "M" |}.

Definition page (games calc : string) : profile_page :=
  {| goto := Ok (); wait_for_table := Ok ();
     games_cell := Ok (Some games); calc_cell := Ok (Some calc);
     fide_link := Ok (Some "https://ratings.fide.com/profile/123") |}.

Definition pages (url : string) : profile_page :=
  page ("#Gespeeld" +:+ nl +:+ "5") ("Berekening" +:+ nl +:+ nl +:+ "2702=2692 + 10").

(** Reading a result off a run. *)
Definition is_ok {A} (r : result A) : bool :=
  match r with Ok _ => true | Raise _ => false end.

Definition get_ok {A} (d : A) (r : result A) : A :=
  match r with Ok a => a | Raise _ => d end.

Definition first_record (l : list (gmap string string)) : gmap string string :=
  match l with rec :: _ => rec | [] => ∅ end.

(** The emitted record, when there is exactly one. *)
Definition emitted_record (r : result (list (gmap string string)))
  : option (list (string * string)) :=
  match r with
  | Ok [rec] => Some (map_to_list rec)
  | _ => None
  end.

End Sample.

(** * Properties *)

(** ** Text *)

Module TextFacts.
Import Spec.
Import Text.

#[local] Arguments String.append !_ _ / : simpl nomatch.

Lemma app_nil_r (s : string) : s +:+ "" = s.
Proof. induction s; simpl; congruence. Qed.

Lemma app_assoc (a b c : string) : (a +:+ b) +:+ c = a +:+ b +:+ c.
Proof. induction a; simpl; congruence. Qed.

Lemma all_app f a b : all f (a +:+ b) = all f a && all f b.
Proof. induction a as [|c a IH]; simpl; [done|]. by rewrite IH, andb_assoc. Qed.

Lemma contains_app c a b : contains c (a +:+ b) = contains c a || contains c b.
Proof. induction a as [|d a IH]; simpl; [done|]. by rewrite IH, orb_assoc. Qed.

Lemma split_not_nil sep s : split sep s ≠ [].
Proof.
  destruct s as [|c s]; simpl; [done|].
  destruct (Ascii.eqb c sep); [done|]. by destruct (split sep s).
Qed.

Lemma split_no_sep sep s : contains sep s = false → split sep s = [s].
Proof.
  induction s as [|c s IH]; simpl; [done|].
  intros [Hc Hs]%orb_false_elim. rewrite Hc, (IH Hs). done.
Qed.

Lemma last_cons_ne {A} (x : A) l : l ≠ [] → last (x :: l) = last l.
Proof. by destruct l. Qed.

(** The last piece of a split is what follows the last separator. *)
Lemma last_split sep a b :
  contains sep b = false → last (split sep (a +:+ String sep b)) = Some b.
Proof.
  intros Hb. induction a as [|c a IH]; simpl.
  - rewrite Ascii.eqb_refl, last_cons_ne by apply split_not_nil.
    by rewrite split_no_sep.
  - destruct (Ascii.eqb c sep).
    + rewrite last_cons_ne by apply split_not_nil. exact IH.
    + destruct (split sep (a +:+ String sep b)) as [|w ws] eqn:E.
      { by apply split_not_nil in E. }
      destruct ws as [|w' ws]; [|exact IH].
      exfalso. clear IH. revert w E.
      induction a as [|d a IH]; simpl; intros w E.
      * rewrite Ascii.eqb_refl in E. destruct (split sep b) eqn:E'; [|done].
        by apply split_not_nil in E'.
      * destruct (Ascii.eqb d sep).
        { destruct (split sep (a +:+ String sep b)) eqn:E'; [|done].
          by apply split_not_nil in E'. }
        destruct (split sep (a +:+ String sep b)) as [|v [|v' vs]] eqn:E';
          [by apply split_not_nil in E'|by eapply IH|done].
Qed.

Lemma contains_true_split c s :
  contains c s = true →
  ∃ a b, s = a +:+ String c b ∧ contains c b = false.
Proof.
  induction s as [|d s IH]; simpl; [done|].
  destruct (contains c s) eqn:Hs.
  - intros _. destruct (IH eq_refl) as (a & b & -> & Hb).
    by exists (String d a), b.
  - rewrite orb_false_r. intros ->%Ascii.eqb_eq. by exists "", s.
Qed.

Lemma rstrip_spaces r : all Char.isspace r = true → rstrip r = "".
Proof.
  induction r as [|c r IH]; simpl; [done|].
  intros [Hc Hr]%andb_prop. by rewrite (IH Hr), Hc.
Qed.

Lemma rstrip_app_spaces m r :
  all Char.isspace r = true → rstrip (m +:+ r) = rstrip m.
Proof.
  intros Hr. induction m as [|c m IH]; simpl.
  - by apply rstrip_spaces.
  - by rewrite IH.
Qed.

Lemma rstrip_id s c :
  last_char s = Some c → Char.isspace c = false → rstrip s = s.
Proof.
  induction s as [|d s IH]; [done|]. intros Hl Hc.
  destruct s as [|e s].
  - simpl in *. by simplify_eq; rewrite Hc.
  - change (rstrip (String d (String e s)))
      with (match rstrip (String e s) with
            | "" => if Char.isspace d then "" else String d ""
            | r => String d r end).
    by rewrite (IH Hl Hc).
Qed.

Lemma last_char_app l m : m ≠ "" → last_char (l +:+ m) = last_char m.
Proof.
  intros Hm. induction l as [|c l IH]; simpl; [done|].
  destruct (l +:+ m) eqn:E; [|done].
  destruct l; simpl in E; [done|discriminate].
Qed.

Lemma lstrip_app_spaces l m :
  all Char.isspace l = true → lstrip (l +:+ m) = lstrip m.
Proof.
  induction l as [|c l IH]; simpl; [done|].
  intros [Hc Hl]%andb_prop. rewrite Hc. auto.
Qed.

Lemma lstrip_id s :
  (∀ c, first_char s = Some c → Char.isspace c = false) → lstrip s = s.
Proof. destruct s as [|c s]; simpl; [done|]. intros H. by rewrite (H c). Qed.

(** [strip] removes the whitespace around a trimmed core. *)
Lemma strip_spec l m r :
  all Char.isspace l = true → all Char.isspace r = true → trimmed m →
  strip (l +:+ m +:+ r) = m.
Proof.
  intros Hl Hr [Hf Hb]. unfold strip.
  rewrite <- app_assoc, rstrip_app_spaces by done.
  destruct (last_char m) as [c|] eqn:Hm.
  - assert (m ≠ "") by (by intros ->).
    rewrite (rstrip_id _ c), lstrip_app_spaces, lstrip_id; auto.
    by rewrite last_char_app.
  - assert (m = "") as ->.
    { clear -Hm. induction m as [|c [|d m] IH]; [done|done|]. by apply IH in Hm. }
    rewrite app_nil_r, rstrip_spaces; done.
Qed.

Lemma strip_spaces s : all Char.isspace s = true → strip s = "".
Proof.
  intros Hs. rewrite <- (strip_spec s "" ""); [|done|done|by split].
  by rewrite app_nil_r.
Qed.

Lemma strip_trimmed s : trimmed s → strip s = s.
Proof.
  intros Hs. rewrite <- (strip_spec "" s "") at 2; [|done|done|done].
  simpl. by rewrite app_nil_r.
Qed.

Lemma rstrip_last s c :
  last_char (rstrip s) = Some c → Char.isspace c = false.
Proof.
  revert c. induction s as [|d s IH]; intros c; simpl; [done|].
  destruct (rstrip s) as [|e r] eqn:E.
  - destruct (Char.isspace d) eqn:Hd; simpl; [done|]. by intros [= <-].
  - intros H. apply IH. exact H.
Qed.

Lemma lstrip_first s c :
  first_char (lstrip s) = Some c → Char.isspace c = false.
Proof.
  induction s as [|d s IH]; simpl; [done|].
  destruct (Char.isspace d) eqn:Hd; [done|]. by intros [= <-].
Qed.

Lemma lstrip_last s c :
  last_char (lstrip s) = Some c → last_char s = Some c.
Proof.
  induction s as [|d s IH]; simpl; [done|].
  destruct (Char.isspace d) eqn:Hd; [|done].
  intros H. specialize (IH H). by destruct s.
Qed.

(** The result of [strip] has no whitespace at its ends. *)
Lemma rstrip_decompose s :
  ∃ r, s = rstrip s +:+ r ∧ all Char.isspace r = true.
Proof.
  induction s as [|c s (r & E & Hr)]; [by exists ""|]. simpl.
  destruct (rstrip s) as [|e r0] eqn:Hs.
  - simpl in E. subst s. destruct (Char.isspace c) eqn:Hc.
    + exists (String c r). simpl. by rewrite Hc, Hr.
    + by exists r.
  - exists r. simpl in *. by rewrite E at 1.
Qed.

Lemma lstrip_decompose s :
  ∃ l, s = l +:+ lstrip s ∧ all Char.isspace l = true.
Proof.
  induction s as [|c s (l & E & Hl)]; [by exists ""|]. simpl.
  destruct (Char.isspace c) eqn:Hc.
  - exists (String c l). simpl. by rewrite Hc, Hl, E at 1.
  - by exists "".
Qed.

(** [strip] takes whitespace off the two ends, and nothing else. *)
Lemma strip_decompose s :
  ∃ l r, s = l +:+ strip s +:+ r
         ∧ all Char.isspace l = true ∧ all Char.isspace r = true.
Proof.
  destruct (rstrip_decompose s) as (r & Er & Hr).
  destruct (lstrip_decompose (rstrip s)) as (l & El & Hl).
  exists l, r. split_and!; [|done..].
  unfold strip. by rewrite <- app_assoc, <- El.
Qed.

Lemma strip_is_trimmed s : trimmed (strip s).
Proof.
  split; intros c H.
  - by eapply lstrip_first.
  - eapply rstrip_last, lstrip_last, H.
Qed.

Lemma last_char_snoc s c : last_char (s +:+ String c "") = Some c.
Proof. by rewrite last_char_app. Qed.

End TextFacts.

Module ReFacts.
Import Spec.
Import Text TextFacts.

#[local] Arguments String.append !_ _ / : simpl nomatch.

Lemma decimal_not_space c : Char.is_decimal c && Char.isspace c = false.
Proof. by destruct c as [[] [] [] [] [] [] [] []]. Qed.

Lemma sign_not_decimal c : is_sign c → Char.is_decimal c = false.
Proof. by intros [-> | ->]. Qed.

Lemma sign_not_space c : is_sign c → Char.isspace c = false.
Proof. by intros [-> | ->]. Qed.

Lemma sign_eqb c :
  Ascii.eqb c Char.plus || Ascii.eqb c Char.minus = true ↔ is_sign c.
Proof.
  unfold is_sign. rewrite orb_true_iff, !Ascii.eqb_eq. tauto.
Qed.

Lemma all_elem f a c b : all f (a +:+ String c b) = true → f c = true.
Proof.
  rewrite all_app. simpl. intros [_ [? _]%andb_prop]%andb_prop. done.
Qed.

Lemma all_weaken (f g : ascii → bool) s :
  (∀ c, f c = true → g c = true) → all f s = true → all g s = true.
Proof.
  intros Hfg. induction s as [|c s IH]; simpl; [done|].
  intros [Hc Hs]%andb_prop. by rewrite (Hfg c Hc), IH.
Qed.

Lemma span_app f a b :
  all f a = true → (∀ c, first_char b = Some c → f c = false) →
  span f (a +:+ b) = (a, b).
Proof.
  intros Ha Hb. induction a as [|c a IH]; simpl.
  - destruct b as [|c b]; simpl; [done|]. by rewrite (Hb c).
  - simpl in Ha. apply andb_prop in Ha as [Hc Ha]. by rewrite Hc, IH.
Qed.

Lemma span_sound f s a b :
  span f s = (a, b) →
  s = a +:+ b ∧ all f a = true ∧ (∀ c, first_char b = Some c → f c = false).
Proof.
  revert a b. induction s as [|c s IH]; simpl; intros a b E.
  - by simplify_eq.
  - destruct (f c) eqn:Hc.
    + destruct (span f s) as [a' b'] eqn:E'. simplify_eq.
      destruct (IH _ _ eq_refl) as (-> & Ha & Hb). simpl. by rewrite Hc, Ha.
    + simplify_eq. simpl. split_and!; [done..|]. by intros ? [= <-].
Qed.

Lemma numeral_inv s :
  is_numeral s = true → truthy s = true ∧ all Char.is_decimal s = true.
Proof. by destruct s. Qed.

Lemma numeral_intro s :
  truthy s = true → all Char.is_decimal s = true → is_numeral s = true.
Proof. by destruct s. Qed.

Lemma tail_first tail c :
  tail_ok tail → first_char tail = Some c → Char.is_decimal c = false.
Proof. by intros [-> | ->] [= <-]. Qed.

Lemma at_end_iff tail : Re.at_end tail = true ↔ tail_ok tail.
Proof.
  unfold tail_ok. destruct tail as [|c [|d tail]]; simpl.
  - split; [by left|done].
  - rewrite Ascii.eqb_eq. split; [intros ->; by right|by intros [?|[= ->]]].
  - split; [done|by intros [?|?]].
Qed.

Lemma digits_to_end_complete val tail :
  is_numeral val = true → tail_ok tail →
  Re.digits_to_end (val +:+ tail) = Some val.
Proof.
  intros [Hne Hd]%numeral_inv Ht. unfold Re.digits_to_end.
  rewrite span_app by eauto using tail_first.
  apply at_end_iff in Ht. by rewrite Hne, Ht.
Qed.

Lemma digits_to_end_sound s val :
  Re.digits_to_end s = Some val →
  ∃ tail, s = val +:+ tail ∧ is_numeral val = true ∧ tail_ok tail.
Proof.
  unfold Re.digits_to_end. destruct (span Char.is_decimal s) as [a b] eqn:E.
  apply span_sound in E as (-> & Ha & _).
  destruct (truthy a) eqn:Hne; [|done]. destruct (Re.at_end b) eqn:Hb; [|done].
  intros [= <-]. exists b. split_and!; [done|by apply numeral_intro|by apply at_end_iff].
Qed.

Lemma digits_to_end_space w s :
  Char.isspace w = true → Re.digits_to_end (String w s) = None.
Proof.
  intros Hw. unfold Re.digits_to_end. simpl.
  pose proof (decimal_not_space w) as H. rewrite Hw, andb_true_r in H.
  by rewrite H.
Qed.

Lemma digits_to_end_empty : Re.digits_to_end "" = None.
Proof. done. Qed.

Lemma match_change_complete sg sp val tail :
  is_sign sg → opt_space sp → is_numeral val = true → tail_ok tail →
  Re.match_change (String sg (sp +:+ val +:+ tail)) = Some (String sg "", val).
Proof.
  intros Hsg Hsp Hval Ht. unfold Re.match_change.
  apply sign_eqb in Hsg as ->.
  destruct Hsp as [-> | (w & -> & Hw)]; simpl.
  - rewrite digits_to_end_complete by done.
    destruct val as [|d val]; [done|]. simpl.
    pose proof (decimal_not_space d) as Hd.
    apply numeral_inv in Hval as [_ [Hd' _]%andb_prop]. rewrite Hd' in Hd.
    simpl in Hd. by rewrite Hd.
  - by rewrite Hw, digits_to_end_complete.
Qed.

Lemma match_change_sound s g1 g2 :
  Re.match_change s = Some (g1, g2) →
  ∃ sg sp tail,
    s = String sg (sp +:+ g2 +:+ tail) ∧ g1 = String sg "" ∧ is_sign sg
    ∧ opt_space sp ∧ is_numeral g2 = true ∧ tail_ok tail.
Proof.
  unfold Re.match_change. destruct s as [|c s]; [done|].
  destruct (Ascii.eqb c Char.plus || Ascii.eqb c Char.minus) eqn:Hc; [|done].
  apply sign_eqb in Hc.
  destruct s as [|w s].
  - by rewrite digits_to_end_empty.
  - destruct (Char.isspace w) eqn:Hw.
    + rewrite (digits_to_end_space w s Hw).
      destruct (Re.digits_to_end s) as [val|] eqn:E; [|done].
      intros [= <- <-]. apply digits_to_end_sound in E as (tail & -> & ? & ?).
      exists c, (String w ""), tail. split_and!; try done. right. eauto.
    + destruct (Re.digits_to_end (String w s)) as [val|] eqn:E; [|done].
      intros [= <- <-]. apply digits_to_end_sound in E as (tail & -> & ? & ?).
      exists c, "", tail. split_and!; try done. by left.
Qed.

Lemma after_sign_all sp val tail :
  opt_space sp → is_numeral val = true → tail_ok tail →
  all after_sign (sp +:+ val +:+ tail) = true.
Proof.
  intros Hsp [_ Hval]%numeral_inv Ht. rewrite !all_app.
  apply andb_true_intro; split; [|apply andb_true_intro; split].
  - destruct Hsp as [-> | (w & -> & Hw)]; simpl; [done|].
    unfold after_sign. by rewrite Hw.
  - eapply all_weaken; [|done]. intros c Hc. unfold after_sign.
    by rewrite Hc, orb_true_r.
  - by destruct Ht as [-> | ->].
Qed.

(** A match never starts before the sign of another match: the search
    finds the only one. *)
Lemma search_change_complete pre sg sp val tail :
  is_sign sg → opt_space sp → is_numeral val = true → tail_ok tail →
  Re.search_change (pre +:+ String sg (sp +:+ val +:+ tail))
  = Some (String sg "", val).
Proof.
  intros Hsg Hsp Hval Ht. induction pre as [|c pre IH].
  - change ("" +:+ String sg (sp +:+ val +:+ tail))
      with (String sg (sp +:+ val +:+ tail)).
    cbn [Re.search_change]. by rewrite match_change_complete.
  - change (String c pre +:+ String sg (sp +:+ val +:+ tail))
      with (String c (pre +:+ String sg (sp +:+ val +:+ tail))).
    cbn [Re.search_change].
    destruct (Re.match_change _) as [[g1 g2]|] eqn:E; [|exact IH].
    exfalso. apply match_change_sound in E
      as (sg' & sp' & tail' & [= -> E] & _ & _ & Hsp' & Hval' & Ht').
    pose proof (after_sign_all _ _ _ Hsp' Hval' Ht') as Hall.
    rewrite <- E in Hall. apply all_elem in Hall. unfold after_sign in Hall.
    by rewrite (sign_not_space _ Hsg), (sign_not_decimal _ Hsg) in Hall.
Qed.

Lemma search_change_sound s g1 g2 :
  Re.search_change s = Some (g1, g2) →
  ∃ pre sg sp tail,
    s = pre +:+ String sg (sp +:+ g2 +:+ tail) ∧ g1 = String sg "" ∧ is_sign sg
    ∧ opt_space sp ∧ is_numeral g2 = true ∧ tail_ok tail.
Proof.
  induction s as [|c s IH]; cbn [Re.search_change].
  - done.
  - destruct (Re.match_change (String c s)) as [[h1 h2]|] eqn:E.
    + intros [= <- <-]. apply match_change_sound in E
        as (sg & sp & tail & -> & ? & ? & ? & ? & ?).
      by exists "", sg, sp, tail.
    + intros (pre & sg & sp & tail & -> & ?)%IH.
      by exists (String c pre), sg, sp, tail.
Qed.

End ReFacts.

(** ** The profile text parser *)

Module Profile.
Import Spec.
Import Text TextFacts ReFacts.

#[local] Arguments String.append !_ _ / : simpl nomatch.

Lemma roster_entry_defaults row player :
  roster_entry row = Some player →
  player !! "rating_change" = Some "0" ∧ player !! "games_played" = Some "0".
Proof.
  unfold roster_entry. destruct (name_el row) as [[name url]|]; [|done].
  destruct (rating_el row); [|done]. intros [= <-]. by simplify_map_eq.
Qed.

Lemma games_block_newline a b bound player :
  contains Char.newline b = false →
  games_block (Some (a +:+ String Char.newline b)) (Locals bound player)
  = (Ok (), Locals bound (<["games_played" := strip b]> player)).
Proof.
  intros Hb. unfold games_block.
  rewrite contains_app. cbn [contains]. rewrite Ascii.eqb_refl, orb_true_r.
  unfold mbind, M_bind, lift, last_item. by rewrite last_split.
Qed.

(** The calculation block after its first two lines: the import, and
    the read of [re] that follows it and finds it bound. *)
Lemma calc_block_import text bound player :
  calc_block (Some text) (Locals bound player)
  = match Re.search_change (Text.strip text) with
    | Some (sign, val) =>
        if String.eqb sign "+" then
          (setitem "rating_change" val;; setitem "rating_change" val)
            (Locals true player)
        else setitem "rating_change" ("-" +:+ val) (Locals true player)
    | None => (Ok (), Locals true player)
    end.
Proof.
  unfold calc_block, import_re, load_re, mbind, M_bind. simpl.
  destruct (Re.search_change (strip text)) as [[sign val]|].
  - by destruct (String.eqb sign "+").
  - by destruct (contains Char.equals text).
Qed.

Lemma calc_block_match text bound player sg val :
  is_sign sg → ends_with_delta (strip text) sg val →
  calc_block (Some text) (Locals bound player)
  = (Ok (), Locals true
              (<["rating_change" :=
                   if Ascii.eqb sg Char.plus then val else "-" +:+ val]> player)).
Proof.
  intros Hsg (pre & sp & E & Hsp & Hval). rewrite calc_block_import.
  rewrite E, <- (app_nil_r val), search_change_complete by (done || by left).
  rewrite app_nil_r. destruct Hsg as [-> | ->]; simpl.
  - unfold mbind, M_bind, setitem. simpl. by rewrite insert_insert_eq.
  - done.
Qed.

Lemma calc_block_no_match text bound player :
  (∀ sg val, is_sign sg → ¬ ends_with_delta (strip text) sg val) →
  calc_block (Some text) (Locals bound player) = (Ok (), Locals true player).
Proof.
  intros Hno. rewrite calc_block_import.
  destruct (Re.search_change (strip text)) as [[g1 g2]|] eqn:E.
  - exfalso. apply search_change_sound in E
      as (pre & sg & sp & tail & E & _ & Hsg & Hsp & Hval & Ht).
    destruct Ht as [-> | ->].
    + rewrite app_nil_r in E. apply (Hno sg g2 Hsg). by exists pre, sp.
    + destruct (strip_is_trimmed text) as [_ Hlast].
      specialize (Hlast Char.newline). rewrite E in Hlast.
      rewrite last_char_app in Hlast by done.
      change (String sg (sp +:+ g2 +:+ String Char.newline ""))
        with (String sg "" +:+ sp +:+ g2 +:+ String Char.newline "") in Hlast.
      rewrite <- !app_assoc, last_char_snoc in Hlast. by specialize (Hlast eq_refl).
  - done.
Qed.

End Profile.

(** ** Running the loop body *)

Module Run.
Import Spec.

Lemma modifies_ret {A} K (a : A) : modifies K (mret a).
Proof. by intros b p k _. Qed.

Lemma modifies_lift {A} K (r : result A) : modifies K (lift r).
Proof. by intros b p k _. Qed.

Lemma modifies_getitem K key : modifies K (getitem key).
Proof. by intros b p k _. Qed.

Lemma modifies_import K : modifies K import_re.
Proof. by intros b p k _. Qed.

Lemma modifies_load K : modifies K load_re.
Proof. by intros b p k _. Qed.

Lemma modifies_setitem K key v : key ∈ K → modifies K (setitem key v).
Proof.
  intros Hin b p k Hk. unfold exec, setitem. simpl.
  apply lookup_insert_ne. by intros ->.
Qed.

Lemma modifies_bind {A B} K (m : M A) (f : A → M B) :
  modifies K m → (∀ a, modifies K (f a)) → modifies K (m ≫= f).
Proof.
  intros Hm Hf b p k Hk. specialize (Hm b p k Hk).
  unfold exec, mbind, M_bind in *.
  destruct (m (Locals b p)) as [[a|e] [b' p']]; simpl in *.
  - rewrite <- Hm. by apply (Hf a b' p').
  - done.
Qed.

Lemma modifies_try {A} K (m : M A) (h : exn → M A) :
  modifies K m → (∀ e, modifies K (h e)) → modifies K (try_except_M m h).
Proof.
  intros Hm Hh b p k Hk. specialize (Hm b p k Hk).
  unfold exec, try_except_M in *.
  destruct (m (Locals b p)) as [[a|e] [b' p']]; simpl in *.
  - done.
  - rewrite <- Hm. by apply (Hh e b' p').
Qed.

Lemma modifies_pass K : modifies K pass.
Proof. apply modifies_ret. Qed.

Create HintDb modifies.
#[export] Hint Resolve modifies_ret modifies_lift modifies_getitem
  modifies_import modifies_load modifies_pass : modifies.

Ltac elem_of_list := repeat first [apply list_elem_of_here | apply list_elem_of_further].

(** Walks through a block: binds, branches and writes. *)
Ltac frame :=
  repeat first
    [ apply modifies_bind; [|intros ?]
    | apply modifies_try; [|intros ?]
    | apply modifies_setitem; elem_of_list
    | solve [auto with modifies]
    | case_match ].

Lemma modifies_games_block cell : modifies ["games_played"; "rating_change"] (games_block cell).
Proof. unfold games_block. frame. Qed.

Lemma modifies_calc_block cell : modifies ["games_played"; "rating_change"] (calc_block cell).
Proof. unfold calc_block. frame. Qed.

Lemma modifies_knsb_stats pg : modifies ["games_played"; "rating_change"] (knsb_stats pg).
Proof.
  unfold knsb_stats.
  pose proof modifies_games_block. pose proof modifies_calc_block. frame.
Qed.

Lemma modifies_change_block curr_rec prev_fide fide_id :
  modifies ["fide_change"] (change_block curr_rec prev_fide fide_id).
Proof. unfold change_block. frame. Qed.

Lemma modifies_backfill key v : modifies [key] (backfill key v).
Proof. unfold backfill. frame. Qed.

(** Running two steps in a row, when the first one returns. *)
Lemma bind_ok {A B} (m : M A) (f : A → M B) s a s' :
  m s = (Ok a, s') → (m ≫= f) s = f a s'.
Proof. intros E. unfold mbind, M_bind. by rewrite E. Qed.

Lemma bind_raise {A B} (m : M A) (f : A → M B) s e s' :
  m s = (Raise e, s') → (m ≫= f) s = (Raise e, s').
Proof. intros E. unfold mbind, M_bind. by rewrite E. Qed.

Lemma getitem_ok key s v : player_of s !! key = Some v → getitem key s = (Ok v, s).
Proof. intros E. unfold getitem. by rewrite E. Qed.

Lemma getitem_raise key s :
  player_of s !! key = None → getitem key s = (Raise (KeyError key), s).
Proof. intros E. unfold getitem. by rewrite E. Qed.

End Run.

(** ** Reconciliation with the federation snapshots *)

Module Reconcile.
Import Spec.
Import Run.

Lemma backfill_run key v b p old :
  p !! key = Some old →
  backfill key v (Locals b p) = (Ok (), Locals b (backfilled key v p)).
Proof.
  intros E. unfold backfill, backfilled.
  rewrite (bind_ok _ _ _ _ _ (getitem_ok key (Locals b p) old E)), E.
  by destruct (negb (Text.truthy old) && Text.truthy v).
Qed.

Lemma lookup_backfilled_ne key v p k :
  k ≠ key → backfilled key v p !! k = p !! k.
Proof.
  intros Hk. unfold backfilled. repeat case_match; try done.
  apply lookup_insert_ne. congruence.
Qed.

Lemma lookup_backfilled key v p old :
  p !! key = Some old →
  backfilled key v p !! key = Some (if Text.truthy old then old else v).
Proof.
  intros E. unfold backfilled. rewrite E.
  destruct old as [|c old]; simpl.
  - destruct v; simpl; [done|]. by rewrite lookup_insert_eq.
  - done.
Qed.

Lemma change_block_run curr_rec prev_fide fide_id b p :
  change_block curr_rec prev_fide fide_id (Locals b p)
  = (Ok (), Locals b (changed curr_rec prev_fide fide_id p)).
Proof.
  unfold change_block, changed, fmt_change, pass.
  destruct (prev_fide !! fide_id) as [prev_rec|]; [|done].
  by destruct (0 <? Fide.rating prev_rec).
Qed.

Lemma lookup_changed_ne curr_rec prev_fide fide_id p k :
  k ≠ "fide_change" → changed curr_rec prev_fide fide_id p !! k = p !! k.
Proof.
  intros Hk. unfold changed.
  repeat case_match; try done; apply lookup_insert_ne; congruence.
Qed.

Lemma lookup_changed curr_rec prev_fide fide_id p :
  changed curr_rec prev_fide fide_id p !! "fide_change"
  = match prev_fide !! fide_id with
    | Some prev_rec =>
        if 0 <? Fide.rating prev_rec
        then Some (fmt_change (Fide.rating curr_rec - Fide.rating prev_rec))
        else p !! "fide_change"
    | None => Some "0"
    end.
Proof. unfold changed. repeat case_match; try done; by apply lookup_insert_eq. Qed.

Lemma modifies_fide_match current_fide prev_fide pg :
  modifies fide_keys (fide_match current_fide prev_fide pg).
Proof.
  unfold fide_match, change_block, backfill, fide_keys. frame.
Qed.

(** Steps 2 and 3 in closed form: whatever they return, they leave the
    binding of [re] as it was and the dictionary as [fide_outcome] says. *)
Lemma fide_match_run current_fide prev_fide pg b p :
  is_Some (p !! "title") → is_Some (p !! "country") → is_Some (p !! "birthday") →
  ∃ r, fide_match current_fide prev_fide pg (Locals b p)
       = (r, Locals b (fide_outcome current_fide prev_fide pg b p)).
Proof.
  intros [t Ht] [c Hc] [bd Hb]. unfold fide_match, fide_outcome.
  destruct (fide_link pg) as [[fide_url|]|e] eqn:Hl;
    unfold mbind at 1, M_bind at 1, lift at 1; simpl; eauto.
  unfold mbind at 1, M_bind at 1, load_re at 1; simpl.
  destruct b; [|eauto].
  destruct (Re.search_profile fide_url) as [fide_id|]; [|eauto].
  unfold mbind at 1, M_bind at 1, setitem at 1; simpl.
  destruct (current_fide !! fide_id) as [curr_rec|] eqn:Hcur; [|eauto].
  unfold mbind at 1, M_bind at 1, setitem at 1; simpl.
  unfold mbind at 1, M_bind at 1, setitem at 1; simpl.
  erewrite bind_ok by apply change_block_run.
  set (p1 := changed _ _ _ _).
  assert (p1 !! "title" = Some t) as Ht1.
  { unfold p1. rewrite lookup_changed_ne by done. by simplify_map_eq. }
  erewrite bind_ok by (eapply backfill_run; exact Ht1).
  set (p2 := backfilled "title" _ _).
  assert (p2 !! "country" = Some c) as Hc2.
  { unfold p2, p1. rewrite lookup_backfilled_ne, lookup_changed_ne by done.
    by simplify_map_eq. }
  erewrite bind_ok by (eapply backfill_run; exact Hc2).
  set (p3 := backfilled "country" _ _).
  assert (p3 !! "birthday" = Some bd) as Hb3.
  { unfold p3, p2, p1.
    rewrite !lookup_backfilled_ne, lookup_changed_ne by done. by simplify_map_eq. }
  erewrite bind_ok by (eapply backfill_run; exact Hb3).
  set (p4 := backfilled "birthday" _ _).
  assert (p4 = reconciled curr_rec prev_fide fide_id p) as E by done.
  destruct (p4 !! "fide_change") as [v|] eqn:Hv.
  - erewrite bind_ok by (by apply getitem_ok). simpl. rewrite E. eauto.
  - erewrite bind_raise by (by apply getitem_raise). rewrite E. eauto.
Qed.

Lemma fide_outcome_matched current_fide prev_fide pg b p :
  matched current_fide prev_fide p (fide_outcome current_fide prev_fide pg b p).
Proof.
  unfold fide_outcome.
  destruct (fide_link pg) as [[fide_url|]|e]; try constructor.
  destruct b; [|constructor].
  destruct (Re.search_profile fide_url) as [fide_id|]; [|constructor].
  destruct (current_fide !! fide_id) as [curr_rec|] eqn:Hcur; by constructor.
Qed.

Lemma fide_match_matched current_fide prev_fide pg b p :
  is_Some (p !! "title") → is_Some (p !! "country") → is_Some (p !! "birthday") →
  matched current_fide prev_fide p (exec (fide_match current_fide prev_fide pg) b p).
Proof.
  intros Ht Hc Hb.
  destruct (fide_match_run current_fide prev_fide pg b p Ht Hc Hb) as [r E].
  unfold exec. rewrite E. apply fide_outcome_matched.
Qed.

(** Step 1 with its [try] returns, whatever the page does. *)
Lemma knsb_stats_returns pg b p :
  ∃ b' p1, try_except_M (knsb_stats pg) (λ _, pass) (Locals b p) = (Ok (), Locals b' p1)
           ∧ ∀ k, k ∉ knsb_keys → p1 !! k = p !! k.
Proof.
  pose proof (modifies_knsb_stats pg b p) as Hframe. unfold exec in Hframe.
  unfold try_except_M.
  destruct (knsb_stats pg (Locals b p)) as [[[]|e] [b' p1]]; by exists b', p1.
Qed.

(** The loop body never raises on a roster entry, and leaves the
    dictionary in one of the three states of [matched], after the profile
    text parser has touched at most [knsb_keys]. *)
Lemma process_player_run current_fide prev_fide pages b player :
  has_roster_keys player →
  ∃ p1 b' p',
    process_player current_fide prev_fide pages (Locals b player) = (Ok (), Locals b' p')
    ∧ (∀ k, k ∉ knsb_keys → p1 !! k = player !! k)
    ∧ matched current_fide prev_fide p1 p'.
Proof.
  intros ([n Hn] & [url Hurl] & Ht & Hc & Hb). unfold process_player.
  erewrite bind_ok by (by apply getitem_ok). unfold try_except_M at 1.
  erewrite bind_ok by (by apply getitem_ok).
  destruct (goto (pages url)) as [[]|e] eqn:Hgoto; unfold lift at 1.
  2:{ erewrite bind_raise by done. erewrite bind_ok by (by apply getitem_ok).
      exists player, b, player. split_and!; [done|done|constructor]. }
  erewrite bind_ok by done.
  destruct (knsb_stats_returns (pages url) b player) as (b1 & p1 & E1 & Hp1).
  erewrite bind_ok by exact E1.
  assert (∀ k, k ∉ knsb_keys → is_Some (player !! k) → is_Some (p1 !! k)) as Hsome.
  { intros k Hk. by rewrite Hp1. }
  destruct (fide_match_run current_fide prev_fide (pages url) b1 p1) as [r E2];
    [apply Hsome; [compute_done|done]..|].
  rewrite E2.
  pose proof (fide_outcome_matched current_fide prev_fide (pages url) b1 p1) as Hm.
  pose proof (modifies_fide_match current_fide prev_fide (pages url) b1 p1 "name") as Hname.
  unfold exec in Hname. rewrite E2 in Hname. simpl in Hname.
  destruct r as [[]|e].
  - by exists p1, b1, (fide_outcome current_fide prev_fide (pages url) b1 p1).
  - erewrite bind_ok; [by eexists p1, b1, _|].
    apply getitem_ok. simpl. rewrite Hname, Hp1; [done|compute_done..].
Qed.

Lemma roster_entry_keys row player :
  roster_entry row = Some player →
  has_roster_keys player
  ∧ player !! "fide_id" = None ∧ player !! "fide_rating" = None
  ∧ player !! "fide_games" = None ∧ player !! "fide_change" = None.
Proof.
  unfold roster_entry, has_roster_keys.
  destruct (name_el row) as [[name url]|]; [|done].
  destruct (rating_el row); [|done]. intros [= <-].
  split_and!; by simplify_map_eq.
Qed.

Section reconciled.
Context (curr_rec : Fide.record) (prev_fide : gmap string Fide.record).
Context (fide_id : string) (p : gmap string string).

Let p' := reconciled curr_rec prev_fide fide_id p.

Lemma lookup_reconciled_id : p' !! "fide_id" = Some fide_id.
Proof.
  unfold p', reconciled.
  rewrite !lookup_backfilled_ne, lookup_changed_ne by done. by simplify_map_eq.
Qed.

Lemma lookup_reconciled_rating :
  p' !! "fide_rating" = Some (str (Fide.rating curr_rec)).
Proof.
  unfold p', reconciled.
  rewrite !lookup_backfilled_ne, lookup_changed_ne by done. by simplify_map_eq.
Qed.

Lemma lookup_reconciled_games :
  p' !! "fide_games" = Some (str (Fide.games curr_rec)).
Proof.
  unfold p', reconciled.
  rewrite !lookup_backfilled_ne, lookup_changed_ne by done. by simplify_map_eq.
Qed.

Lemma lookup_reconciled_change :
  p' !! "fide_change"
  = match prev_fide !! fide_id with
    | Some prev_rec =>
        if 0 <? Fide.rating prev_rec
        then Some (fmt_change (Fide.rating curr_rec - Fide.rating prev_rec))
        else p !! "fide_change"
    | None => Some "0"
    end.
Proof.
  unfold p', reconciled.
  rewrite !lookup_backfilled_ne, lookup_changed by done.
  repeat case_match; try done. by simplify_map_eq.
Qed.

Lemma lookup_reconciled_backfill key old :
  key ∈ backfill_keys → p !! key = Some old →
  p' !! key = Some (if Text.truthy old then old else fide_field key curr_rec).
Proof.
  intros Hkey Hold. unfold p', reconciled, backfill_keys in *.
  set (p0 := changed _ _ _ _).
  assert (∀ k, k ∈ backfill_keys → p0 !! k = p !! k) as Hp0.
  { intros k Hk. unfold p0. rewrite lookup_changed_ne.
    - rewrite !lookup_insert_ne; [done|intros <-; revert Hk; compute_done..].
    - intros ->. revert Hk. compute_done. }
  apply elem_of_cons in Hkey as [-> | Hkey];
    [|apply elem_of_cons in Hkey as [-> | Hkey];
      [|apply elem_of_cons in Hkey as [-> | Hkey]; [|by apply elem_of_nil in Hkey]]].
  - rewrite !lookup_backfilled_ne by done.
    apply lookup_backfilled. rewrite Hp0; [done|compute_done].
  - rewrite lookup_backfilled_ne by done.
    apply lookup_backfilled. rewrite lookup_backfilled_ne by done.
    rewrite Hp0; [done|compute_done].
  - apply lookup_backfilled. rewrite !lookup_backfilled_ne by done.
    rewrite Hp0; [done|compute_done].
Qed.

End reconciled.

(** What the loop body leaves in the dictionary of a roster entry. *)
Lemma process_player_roster current_fide prev_fide pages row b player :
  roster_entry row = Some player →
  ∃ p1 b' p',
    process_player current_fide prev_fide pages (Locals b player) = (Ok (), Locals b' p')
    ∧ (∀ k, k ∉ knsb_keys → p1 !! k = player !! k)
    ∧ p1 !! "fide_id" = None ∧ p1 !! "fide_change" = None
    ∧ matched current_fide prev_fide p1 p'.
Proof.
  intros (Hkeys & Hid & _ & _ & Hch)%roster_entry_keys.
  destruct (process_player_run current_fide prev_fide pages b player Hkeys)
    as (p1 & b' & p' & E & Hp1 & Hm).
  exists p1, b', p'. split_and!; try done.
  - rewrite Hp1; [done|compute_done].
  - rewrite Hp1; [done|compute_done].
Qed.

(** The identifier a record carries, when found in the current
    snapshot, pins the state down. *)
Lemma matched_in_list current_fide prev_fide p1 p' fide_id curr_rec :
  matched current_fide prev_fide p1 p' → p1 !! "fide_id" = None →
  p' !! "fide_id" = Some fide_id → current_fide !! fide_id = Some curr_rec →
  p' = reconciled curr_rec prev_fide fide_id p1.
Proof.
  intros Hm Hnone Hid Hcur. destruct Hm as [|fid Hfid|fid rec Hfid].
  - congruence.
  - rewrite lookup_insert_eq in Hid. congruence.
  - rewrite lookup_reconciled_id in Hid. congruence.
Qed.

Lemma matched_frame_name current_fide prev_fide p1 p' :
  matched current_fide prev_fide p1 p' → p' !! "name" = p1 !! "name".
Proof.
  intros [|fid Hfid|fid rec Hfid].
  - done.
  - by rewrite lookup_insert_ne.
  - unfold reconciled.
    rewrite !lookup_backfilled_ne, lookup_changed_ne, !lookup_insert_ne by done. done.
Qed.

Lemma matched_change current_fide prev_fide p1 p' :
  matched current_fide prev_fide p1 p' →
  p1 !! "fide_id" = None → p1 !! "fide_change" = None →
  is_Some (p' !! "fide_change") →
  ∃ fide_id, p' !! "fide_id" = Some fide_id ∧ is_Some (current_fide !! fide_id).
Proof.
  intros Hm Hid Hch [v Hv]. destruct Hm as [|fid Hfid|fid rec Hfid].
  - congruence.
  - rewrite lookup_insert_ne in Hv by done. congruence.
  - exists fid. by rewrite lookup_reconciled_id, Hfid.
Qed.

End Reconcile.

(** ** The records that [scrape_ratings] emits *)

Module Emitted.
Import Spec.
Import Run Reconcile.

Lemma process_players_run current_fide prev_fide pages players b out :
  process_players current_fide prev_fide pages players b = Ok out →
  Forall2 (λ p p', ∃ b0 b1, process_player current_fide prev_fide pages (Locals b0 p)
                            = (Ok (), Locals b1 p'))
    players out.
Proof.
  revert b out. induction players as [|p players IH]; intros b out; simpl.
  - intros [= <-]. constructor.
  - destruct (process_player current_fide prev_fide pages (Locals b p))
      as [[[]|e] [b1 p']] eqn:E; [|done].
    simpl.
    destruct (process_players current_fide prev_fide pages players b1) as [rest|e] eqn:Hrest;
      simpl; [|done].
    intros [= <-]. constructor; [by exists b, b1|by apply (IH b1)].
Qed.

(** Every emitted record is the cleaned-up dictionary of a roster row
    after the loop body, run against the two downloaded snapshots. *)
Lemma scrape_ratings_emitted today get rows pages out rec :
  scrape_ratings today get rows pages = Ok out → rec ∈ out →
  ∃ current_fide prev_url prev_fide row player b b' p',
    download_and_parse_fide_xml get FIDE_XML_URL = Ok current_fide
    ∧ get_previous_period_url today = Ok prev_url
    ∧ download_and_parse_fide_xml get prev_url = Ok prev_fide
    ∧ row ∈ rows ∧ roster_entry row = Some player
    ∧ process_player current_fide prev_fide pages (Locals b player) = (Ok (), Locals b' p')
    ∧ rec = cleanup p'.
Proof.
  unfold scrape_ratings. intros E Hrec.
  destruct (download_and_parse_fide_xml get FIDE_XML_URL) as [cur|]; [|done].
  destruct (get_previous_period_url today) as [url|]; [|done].
  simpl in E.
  destruct (download_and_parse_fide_xml get url) as [prev|] eqn:Hprev; [|done].
  simpl in E.
  destruct (process_players cur prev pages (omap roster_entry rows) false)
    as [players|] eqn:Hrun; [|done].
  simpl in E. injection E as <-.
  apply list_elem_of_fmap in Hrec as (p' & -> & Hp').
  apply process_players_run in Hrun.
  apply list_elem_of_lookup in Hp' as [i Hi].
  destruct (Forall2_lookup_r _ _ _ _ _ Hrun Hi) as (player & Hplayer & b & b' & Hp).
  apply list_elem_of_lookup_2, list_elem_of_omap in Hplayer as (row & Hrow & Hentry).
  by exists cur, url, prev, row, player, b, b', p'.
Qed.

Lemma lookup_cleanup p k :
  k ≠ "_full_profile_url" → cleanup p !! k = p !! k.
Proof. intros Hk. unfold cleanup. apply lookup_delete_ne. congruence. Qed.

(** Reading a result off a run that returned. *)
Lemma get_ok_eq {A} (d : A) r :
  Sample.is_ok r = true → r = Ok (Sample.get_ok d r).
Proof. by destruct r. Qed.

Lemma first_record_elem l : (0 < length l)%nat → Sample.first_record l ∈ l.
Proof. destruct l; simpl; [lia|]. intros _. apply list_elem_of_here. Qed.

Lemma first_record_lookup l :
  (0 < length l)%nat → l !! 0%nat = Some (Sample.first_record l).
Proof. destruct l; simpl; [lia|done]. Qed.

End Emitted.

(** ** The federation snapshot parser *)

Module Snapshot.
Import Spec.

Lemma text_of_find t player :
  is_Some (ET.find t player) →
  ET.text_of (ET.find t player) = Ok (field_text t player).
Proof. unfold field_text. by intros [e ->]. Qed.

Lemma text_of_Ok t player x :
  ET.text_of (ET.find t player) = Ok x → x = field_text t player.
Proof. unfold field_text. destruct (ET.find t player); simpl; congruence. Qed.

Lemma or_empty_default x : or_empty x = default "" x.
Proof. by destruct x as [[|c s]|]. Qed.

Lemma all_digit_of_decimal s :
  Text.all Char.is_decimal s = true → Text.all Char.isdigit s = true.
Proof.
  induction s as [|c s IH]; simpl; [done|].
  intros [Hc Hs]%andb_prop. rewrite (IH Hs). unfold Char.isdigit. by rewrite Hc.
Qed.

Lemma numeral_isdigit s :
  Text.is_numeral s = true → Text.truthy s && Text.isdigit s = true.
Proof.
  destruct s as [|c s]; [done|]. unfold Text.is_numeral, Text.isdigit.
  intros H. apply all_digit_of_decimal in H. exact H.
Qed.

Lemma int_if_digits_Ok x n : int_if_digits x = Ok n → n = coerce_int x.
Proof.
  unfold int_if_digits, coerce_int, int. destruct x as [s|]; [|congruence].
  destruct (Text.is_numeral s) eqn:Hnum.
  - rewrite (numeral_isdigit _ Hnum). congruence.
  - destruct (Text.truthy s && Text.isdigit s); [done|congruence].
Qed.

Lemma decimal_value_nonneg s acc :
  Text.all Char.is_decimal s = true → 0 ≤ acc → 0 ≤ Text.decimal_value acc s.
Proof.
  revert acc. induction s as [|c s IH]; intros acc Hs Hacc; simpl; [done|].
  simpl in Hs. apply andb_prop in Hs as [Hc Hs]. apply IH; [done|].
  unfold Char.is_decimal in Hc. apply andb_prop in Hc as [?%N.leb_le _].
  unfold Char.digit_value. lia.
Qed.

Lemma coerce_int_nonneg x : 0 ≤ coerce_int x.
Proof.
  unfold coerce_int. destruct x as [s|]; [|done].
  destruct (Text.is_numeral s) eqn:Hnum; [|done].
  apply decimal_value_nonneg; [|done]. by destruct s.
Qed.

(** The loop body on a complete element: skip, store or raise. *)
Lemma parse_player_complete player fide_data :
  complete player →
  parse_player player fide_data
  = match field_text "fideid" player with
    | Some id =>
        if Text.truthy id then
          r ← int_if_digits (field_text "rating" player);
          g ← int_if_digits (field_text "games" player);
          Ok (<[id := {| Fide.rating := r; Fide.games := g;
                         Fide.title := default "" (field_text "title" player);
                         Fide.country := default "" (field_text "country" player);
                         Fide.birthday := default "" (field_text "birthday" player) |}]>
                fide_data)
        else Ok fide_data
    | None => Ok fide_data
    end.
Proof.
  intros Hc. unfold parse_player.
  rewrite !text_of_find by (apply Hc; compute_done). simpl.
  by rewrite !or_empty_default.
Qed.


(** What the loop body does when it returns. *)
Lemma parse_player_Ok player fide_data snap :
  parse_player player fide_data = Ok snap →
  complete player
  ∧ ((unidentified player ∧ snap = fide_data)
     ∨ (∃ id, field_text "fideid" player = Some id ∧ id ≠ ""
              ∧ snap = <[id := record_of player]> fide_data)).
Proof.
  intros E.
  assert (complete player) as Hc.
  { intros t Ht. unfold parse_player in E.
    destruct (ET.find "fideid" player) eqn:E1; [|done].
    destruct (ET.find "rating" player) eqn:E2; [|done].
    destruct (ET.find "games" player) eqn:E3; [|done].
    destruct (ET.find "title" player) eqn:E4; [|done].
    destruct (ET.find "country" player) eqn:E5; [|done].
    destruct (ET.find "birthday" player) eqn:E6; [|done].
    unfold field_tags in Ht.
    repeat (apply elem_of_cons in Ht as [-> | Ht]; [by eauto|]).
    by apply elem_of_nil in Ht. }
  split; [done|]. rewrite parse_player_complete in E by done.
  unfold unidentified. destruct (field_text "fideid" player) as [id|];
    [|left; split; [by left|by simplify_eq]].
  destruct id as [|c id]; simpl in E; [left; split; [by right|by simplify_eq]|].
  right. exists (String c id). split_and!; [done..|].
  destruct (int_if_digits (field_text "rating" player)) as [r|] eqn:Hr; [|done].
  destruct (int_if_digits (field_text "games" player)) as [g|] eqn:Hg; [|done].
  simpl in E. apply int_if_digits_Ok in Hr as ->. apply int_if_digits_Ok in Hg as ->.
  by simplify_eq.
Qed.

Lemma parse_players_app l1 l2 fide_data :
  parse_players (l1 ++ l2) fide_data
  = (parse_players l1 fide_data ≫= parse_players l2).
Proof.
  revert fide_data. induction l1 as [|p l1 IH]; intros fide_data; simpl; [done|].
  destruct (parse_player p fide_data); simpl; [apply IH|done].
Qed.

(** Identifiers already stored stay stored. *)
Lemma parse_players_mono l fide_data snap id :
  parse_players l fide_data = Ok snap →
  is_Some (fide_data !! id) → is_Some (snap !! id).
Proof.
  revert fide_data. induction l as [|p l IH]; intros fide_data; simpl.
  - by intros [= <-].
  - destruct (parse_player p fide_data) as [d|] eqn:E; [|done]. simpl.
    intros Hl Hid. apply (IH d Hl).
    apply parse_player_Ok in E as [_ [[_ ->]|(i & _ & _ & ->)]]; [done|].
    rewrite lookup_insert_is_Some. destruct (decide (i = id)); auto.
Qed.

(** Every identified element of the feed is in the snapshot. *)
Lemma parse_players_stores l fide_data snap q id :
  parse_players l fide_data = Ok snap → q ∈ l →
  field_text "fideid" q = Some id → id ≠ "" → is_Some (snap !! id).
Proof.
  revert fide_data. induction l as [|p l IH]; intros fide_data; simpl.
  - intros _ Hq. by apply elem_of_nil in Hq.
  - destruct (parse_player p fide_data) as [d|] eqn:E; [|done]. simpl.
    intros Hl [-> | Hq]%elem_of_cons Hid Hne; [|by eapply IH].
    apply (parse_players_mono _ _ _ _ Hl).
    apply parse_player_Ok in E as [_ [[[Hu | Hu] _]|(i & Hi & _ & ->)]].
    + congruence.
    + congruence.
    + rewrite Hid in Hi. simplify_eq. by rewrite lookup_insert_eq.
Qed.

(** Every entry of the snapshot was there before or is the record of an
    identified element of the feed. *)
Lemma parse_players_entries l fide_data snap id rec :
  parse_players l fide_data = Ok snap → snap !! id = Some rec →
  fide_data !! id = Some rec
  ∨ ∃ q, q ∈ l ∧ complete q ∧ field_text "fideid" q = Some id ∧ id ≠ ""
         ∧ rec = record_of q.
Proof.
  revert fide_data. induction l as [|p l IH]; intros fide_data; simpl.
  - intros [= <-]. by left.
  - destruct (parse_player p fide_data) as [d|] eqn:E; [|done]. simpl.
    intros Hl Hrec. destruct (IH d Hl Hrec) as [Hd | (q & Hq & ?)].
    + apply parse_player_Ok in E as [Hc [[_ ->]|(i & Hi & Hne & ->)]]; [by left|].
      destruct (decide (i = id)) as [-> | Hdiff].
      * rewrite lookup_insert_eq in Hd. simplify_eq. right. exists p.
        split_and!; [apply list_elem_of_here|done..].
      * rewrite lookup_insert_ne in Hd by done. by left.
    + right. exists q. split; [by apply list_elem_of_further|done].
Qed.

(** A player element that lacks one of the six child elements is not
    skipped: reading the [text] of the missing child raises. *)
Lemma parse_player_missing_child player fide_data t :
  t ∈ field_tags → ET.find t player = None →
  ∃ e, parse_player player fide_data = Raise e.
Proof.
  intros Ht Hnone. destruct (parse_player player fide_data) as [snap|e] eqn:E; [|eauto].
  apply parse_player_Ok in E as [Hc _]. destruct (Hc t Ht) as [x Hx]. congruence.
Qed.

(** A superscript digit passes [isdigit] and is refused by [int]. *)
Lemma int_if_digits_superscript :
  int_if_digits (Some (String (ascii_of_N 178) "")) = Raise ValueError.
Proof. reflexivity. Qed.

(** The only ways out of [download_and_parse_fide_xml]. *)
Lemma download_cases get url :
  download_and_parse_fide_xml get url = Ok ∅
  ∨ ∃ response z xml_filename root snap,
      get url = Ok response ∧ status_code response = 200
      ∧ content response = Ok z
      ∧ first_item (filter (λ name, Text.endswith ".xml" name = true) (namelist z))
        = Ok xml_filename
      ∧ parse_member z xml_filename = Ok root
      ∧ parse_players (ET.findall "player" root) ∅ = Ok snap
      ∧ download_and_parse_fide_xml get url = Ok snap.
Proof.
  unfold download_and_parse_fide_xml.
  destruct (get url) as [response|] eqn:Hget; simpl; [|by left].
  destruct (status_code response =? 200) eqn:Hst; simpl; [|by left].
  apply Z.eqb_eq in Hst.
  destruct (content response) as [z|] eqn:Hz; simpl; [|by left].
  destruct (first_item _) as [name|] eqn:Hname; simpl; [|by left].
  destruct (parse_member z name) as [root|] eqn:Hroot; simpl; [|by left].
  destruct (parse_players _ ∅) as [snap|] eqn:Hsnap; simpl; [|by left].
  right. by exists response, z, name, root, snap.
Qed.

Lemma download_returns get url :
  ∃ snap, download_and_parse_fide_xml get url = Ok snap.
Proof.
  destruct (download_cases get url) as [? | (? & ? & ? & ? & snap & ? & ? & ? & ? & ? & ? & ?)];
    eauto.
Qed.

(** The function on a feed that decodes: the loop over the players,
    inside the [try]. *)
Lemma download_feed get url root :
  feed_of get url root →
  download_and_parse_fide_xml get url
  = try_except (parse_players (ET.findall "player" root) ∅) (λ e, Ok ∅).
Proof.
  intros (response & z & name & Hget & Hst & Hz & Hname & Hroot).
  unfold download_and_parse_fide_xml. rewrite Hget. simpl.
  rewrite Hst. simpl. rewrite Hz. simpl. rewrite Hname. simpl. by rewrite Hroot.
Qed.

(** One element on which the loop body raises makes the loop raise. *)
Lemma parse_players_raises l fide_data q :
  q ∈ l → (∀ d, ∃ e, parse_player q d = Raise e) →
  ∃ e, parse_players l fide_data = Raise e.
Proof.
  intros Hq Hraise. revert fide_data.
  induction l as [|p l IH]; intros fide_data; [by apply elem_of_nil in Hq|].
  simpl. apply elem_of_cons in Hq as [<- | Hq].
  - destruct (Hraise fide_data) as [e ->]. simpl. eauto.
  - destruct (parse_player p fide_data); simpl; [by apply IH|eauto].
Qed.

Lemma int_if_digits_digit_like x :
  digit_like x → int_if_digits x = Raise ValueError.
Proof.
  intros (s & -> & Hd & Hn). unfold int_if_digits, int. rewrite Hd, Hn.
  by destruct s.
Qed.

Lemma parse_player_digit_like q fide_data id :
  complete q → field_text "fideid" q = Some id → id ≠ "" →
  digit_like (field_text "rating" q) ∨ digit_like (field_text "games" q) →
  parse_player q fide_data = Raise ValueError.
Proof.
  intros Hc Hid Hne Hbad. rewrite parse_player_complete by done. rewrite Hid.
  destruct id as [|c id]; [done|]. simpl.
  destruct (int_if_digits (field_text "rating" q)) as [r|e] eqn:Hr.
  - destruct Hbad as [Hbad | Hbad].
    + rewrite int_if_digits_digit_like in Hr by done. done.
    + simpl. by rewrite int_if_digits_digit_like.
  - simpl. destruct Hbad as [Hbad | Hbad].
    + rewrite int_if_digits_digit_like in Hr by done. congruence.
    + (* the rating raises first *)
      unfold int_if_digits, int in Hr.
      destruct (field_text "rating" q) as [s|]; [|done].
      destruct (Text.truthy s && Text.isdigit s); [|done].
      destruct (Text.is_numeral s); congruence.
Qed.

End Snapshot.

(** ** Dates *)

Module DateFacts.
Import Spec.
Import datetime.

(** A check on a range of integers holds at each of them. *)
Lemma range_check (P : Z → bool) lo n x :
  forallb P (seqZ lo n) = true → lo ≤ x < lo + n → P x = true.
Proof.
  intros Hall Hx. rewrite forallb_forall in Hall. apply Hall.
  apply list_elem_of_In, elem_of_seqZ. lia.
Qed.

(** The Gregorian calendar repeats every 400 years, that is 146097 days. *)
Lemma is_leap_shift y k : _is_leap (y + 400 * k) = _is_leap y.
Proof.
  unfold _is_leap.
  replace ((y + 400 * k) mod 4) with (y mod 4)
    by (replace (y + 400 * k) with (y + (100 * k) * 4) by lia;
        by rewrite Z_mod_plus_full).
  replace ((y + 400 * k) mod 100) with (y mod 100)
    by (replace (y + 400 * k) with (y + (4 * k) * 100) by lia;
        by rewrite Z_mod_plus_full).
  replace ((y + 400 * k) mod 400) with (y mod 400)
    by (replace (y + 400 * k) with (y + k * 400) by lia;
        by rewrite Z_mod_plus_full).
  done.
Qed.

Lemma days_before_year_shift y k :
  _days_before_year (y + 400 * k) = _days_before_year y + 146097 * k.
Proof.
  unfold _days_before_year.
  replace (y + 400 * k - 1) with (y - 1 + 400 * k) by lia.
  replace ((y - 1 + 400 * k) / 4) with ((y - 1) / 4 + 100 * k)
    by (replace (y - 1 + 400 * k) with (y - 1 + (100 * k) * 4) by lia;
        by rewrite Z.div_add).
  replace ((y - 1 + 400 * k) / 100) with ((y - 1) / 100 + 4 * k)
    by (replace (y - 1 + 400 * k) with (y - 1 + (4 * k) * 100) by lia;
        by rewrite Z.div_add).
  replace ((y - 1 + 400 * k) / 400) with ((y - 1) / 400 + k)
    by (replace (y - 1 + 400 * k) with (y - 1 + k * 400) by lia;
        by rewrite Z.div_add).
  lia.
Qed.

Lemma ymd2ord_shift y m d k :
  _ymd2ord (y + 400 * k) m d = _ymd2ord y m d + 146097 * k.
Proof.
  unfold _ymd2ord, _days_before_month.
  rewrite days_before_year_shift, is_leap_shift. lia.
Qed.

Lemma days_in_month_shift y m k :
  _days_in_month (y + 400 * k) m = _days_in_month y m.
Proof. unfold _days_in_month. by rewrite is_leap_shift. Qed.

Lemma ord2ymd_shift n k :
  _ord2ymd (n + 146097 * k)
  = let '(y, m, d) := _ord2ymd n in (y + 400 * k, m, d).
Proof.
  unfold _ord2ymd, _DI400Y.
  replace (n + 146097 * k - 1) with (n - 1 + k * 146097) by lia.
  rewrite Z.div_add, Z_mod_plus_full by done.
  repeat case_match; simplify_eq; f_equal; try f_equal; lia.
Qed.

Lemma is_last_day_of_true py pm ymd :
  is_last_day_of (py, pm) ymd = true → ymd = (py, pm, _days_in_month py pm).
Proof.
  destruct ymd as [[y' m'] d']. unfold is_last_day_of.
  intros [[Hy%Z.eqb_eq Hm%Z.eqb_eq]%andb_prop Hd%Z.eqb_eq]%andb_prop.
  by rewrite Hy, Hm, Hd.
Qed.

Lemma last_day_before_period :
  forallb (λ y, forallb (last_day_before y) (seqZ 1 12)) (seqZ 2 400) = true.
Proof. vm_compute. reflexivity. Qed.

Lemma last_day_before_first_year :
  forallb (last_day_before 1) (seqZ 2 11) = true.
Proof. vm_compute. reflexivity. Qed.

Lemma is_last_day_of_shift py pm y' m' d' k :
  is_last_day_of (py + 400 * k, pm) (y' + 400 * k, m', d')
  = is_last_day_of (py, pm) (y', m', d').
Proof.
  unfold is_last_day_of. rewrite days_in_month_shift.
  replace (y' + 400 * k =? py + 400 * k) with (y' =? py); [done|].
  destruct (Z.eqb_spec y' py), (Z.eqb_spec (y' + 400 * k) (py + 400 * k)); lia.
Qed.

Lemma previous_month_shift y m k :
  previous_month (y + 400 * k) m
  = let '(py, pm) := previous_month y m in (py + 400 * k, pm).
Proof. unfold previous_month. destruct (m =? 1); f_equal; lia. Qed.

Lemma last_day_before_shift y m k :
  last_day_before (y + 400 * k) m = last_day_before y m.
Proof.
  unfold last_day_before.
  rewrite ymd2ord_shift, previous_month_shift.
  replace (_ymd2ord y m 1 + 146097 * k - 1) with (_ymd2ord y m 1 - 1 + 146097 * k) by lia.
  rewrite ord2ymd_shift.
  generalize (_ord2ymd (_ymd2ord y m 1 - 1)). generalize (previous_month y m).
  intros [py pm] [[y' m'] d']. apply is_last_day_of_shift.
Qed.

Lemma last_day_before_all y m :
  1 ≤ y → 1 ≤ m ≤ 12 → ¬ (y = 1 ∧ m = 1) → last_day_before y m = true.
Proof.
  intros Hy Hm Hfirst.
  destruct (decide (y = 1)) as [-> | Hy1].
  - apply (range_check (last_day_before 1) 2 11 m last_day_before_first_year). lia.
  - replace y with ((y - 2) mod 400 + 2 + 400 * ((y - 2) / 400))
      by (pose proof (Z.div_mod (y - 2) 400); lia).
    rewrite last_day_before_shift.
    pose proof (Z.mod_pos_bound (y - 2) 400).
    pose proof (range_check _ 2 400 ((y - 2) mod 400 + 2) last_day_before_period) as H1.
    cbv beta in H1.
    apply (range_check _ 1 12 m); [apply H1|]; lia.
Qed.

Lemma days_before_year_bounds y :
  1 ≤ y ≤ 9999 → 0 ≤ _days_before_year y ≤ 3651694.
Proof.
  intros Hy. unfold _days_before_year.
  pose proof (Z.div_mod (y - 1) 4). pose proof (Z.mod_pos_bound (y - 1) 4).
  pose proof (Z.div_mod (y - 1) 100). pose proof (Z.mod_pos_bound (y - 1) 100).
  pose proof (Z.div_mod (y - 1) 400). pose proof (Z.mod_pos_bound (y - 1) 400).
  lia.
Qed.

Lemma days_before_year_first y : 2 ≤ y → 365 ≤ _days_before_year y.
Proof.
  intros Hy. unfold _days_before_year.
  pose proof (Z.div_mod (y - 1) 4). pose proof (Z.mod_pos_bound (y - 1) 4).
  pose proof (Z.div_mod (y - 1) 100). pose proof (Z.mod_pos_bound (y - 1) 100).
  pose proof (Z.div_mod (y - 1) 400). pose proof (Z.mod_pos_bound (y - 1) 400).
  lia.
Qed.

Lemma month_cases m :
  1 ≤ m ≤ 12 →
  m = 1 ∨ m = 2 ∨ m = 3 ∨ m = 4 ∨ m = 5 ∨ m = 6 ∨ m = 7 ∨ m = 8 ∨ m = 9
  ∨ m = 10 ∨ m = 11 ∨ m = 12.
Proof. lia. Qed.

Lemma days_before_month_bounds y m :
  1 ≤ m ≤ 12 →
  0 ≤ _days_before_month y m ≤ 335 ∧ (2 ≤ m → 31 ≤ _days_before_month y m).
Proof.
  intros Hm. unfold _days_before_month.
  destruct (_is_leap y);
    destruct (month_cases m Hm) as [-> | [-> | [-> | [-> | [-> | [-> | [-> | [-> | [->
      | [-> | [-> | ->]]]]]]]]]]]; unfold tbl, _DAYS_BEFORE_MONTH; simpl; lia.
Qed.

Lemma ordinal_in_range y m :
  1 ≤ y ≤ 9999 → 1 ≤ m ≤ 12 → ¬ (y = 1 ∧ m = 1) →
  0 < _ymd2ord y m 1 - 1 ≤ _MAXORDINAL.
Proof.
  intros Hy Hm Hfirst. unfold _ymd2ord, _MAXORDINAL.
  pose proof (days_before_year_bounds y Hy).
  pose proof (days_before_month_bounds y m Hm) as [? ?].
  destruct (decide (y = 1)).
  - lia.
  - pose proof (days_before_year_first y). lia.
Qed.

Lemma sub_days_ordinal d o ymd :
  toordinal d - 1 = o → 0 < o ≤ _MAXORDINAL → _ord2ymd o = ymd →
  sub_days d 1 = Ok (let '(y, m, d) := ymd in {| year := y; month := m; day := d |}).
Proof.
  intros Ho [Hlo%Z.ltb_lt Hhi%Z.leb_le] Hymd. unfold sub_days.
  replace (toordinal d + - (1)) with o by lia.
  rewrite Hlo, Hhi. unfold fromordinal. by rewrite Hymd.
Qed.

Lemma sub_days_first y m :
  1 ≤ y ≤ 9999 → 1 ≤ m ≤ 12 → ¬ (y = 1 ∧ m = 1) →
  sub_days {| year := y; month := m; day := 1 |} 1
  = Ok (let '(py, pm) := previous_month y m in
        {| year := py; month := pm; day := _days_in_month py pm |}).
Proof.
  intros Hy Hm Hfirst.
  pose proof (last_day_before_all y m ltac:(lia) Hm Hfirst) as Hlast.
  rewrite (sub_days_ordinal {| year := y; month := m; day := 1 |}
             (_ymd2ord y m 1 - 1) _ eq_refl
             (ordinal_in_range y m Hy Hm Hfirst) eq_refl).
  revert Hlast. unfold last_day_before.
  generalize (_ord2ymd (_ymd2ord y m 1 - 1)). generalize (previous_month y m).
  intros [py pm] ymd ->%is_last_day_of_true. done.
Qed.

(** The first of the month minus one day is the last day of the month
    before. *)
Lemma first_of_month_minus_one today :
  valid today → ¬ (year today = MINYEAR ∧ month today = 1) →
  ∃ first_of_month,
    replace_day today 1 = Ok first_of_month
    ∧ sub_days first_of_month 1
      = Ok (let '(py, pm) := previous_month (year today) (month today) in
            {| year := py; month := pm; day := _days_in_month py pm |}).
Proof.
  unfold valid, MINYEAR, MAXYEAR. intros (Hy & Hm & Hd) Hfirst.
  exists {| year := year today; month := month today; day := 1 |}. split.
  - unfold replace_day.
    assert ((1 <=? _days_in_month (year today) (month today)) = true) as ->
      by (apply Z.leb_le; lia).
    done.
  - by apply sub_days_first.
Qed.

Lemma lower_strftime_b d :
  1 ≤ month d ≤ 12 → Text.lower (strftime_b d) = month_abbrev (month d).
Proof.
  intros Hm. unfold strftime_b, month_abbrev.
  destruct (month_cases _ Hm) as [-> | [-> | [-> | [-> | [-> | [-> | [-> | [-> | [->
    | [-> | [-> | ->]]]]]]]]]]]; reflexivity.
Qed.

Lemma strftime_y_two_digits d : strftime_y d = two_digit_year (year d).
Proof.
  unfold strftime_y, two_digit_year.
  pose proof (Z.mod_pos_bound (year d) 100 ltac:(lia)) as Hyy.
  set (yy := year d mod 100) in *.
  apply String.eqb_eq.
  apply (range_check
           (λ yy, String.eqb (String (digit (yy / 10)) (String (digit (yy mod 10)) ""))
                    (if yy <? 10 then "0" +:+ str yy else str yy)) 0 100);
    [vm_compute; reflexivity|lia].
Qed.

(** In January of the first year there is no day before the first. *)
Lemma first_year_overflow d :
  1 ≤ d ≤ 31 →
  get_previous_period_url {| year := 1; month := 1; day := d |} = Raise OverflowError.
Proof.
  intros Hd. unfold get_previous_period_url, replace_day. simpl.
  change (_days_in_month 1 1) with 31.
  destruct (Z.leb_spec 1 31); [|lia]. reflexivity.
Qed.

Lemma previous_period_url_returns today :
  valid today → ¬ (year today = MINYEAR ∧ month today = 1) →
  ∃ url, get_previous_period_url today = Ok url.
Proof.
  intros Hvalid Hfirst.
  destruct (first_of_month_minus_one today Hvalid Hfirst) as (first & Hrep & Hsub).
  unfold get_previous_period_url. rewrite Hrep. simpl. rewrite Hsub. simpl. eauto.
Qed.

Lemma first_year_overflow_valid today :
  valid today → year today = MINYEAR → month today = 1 →
  get_previous_period_url today = Raise OverflowError.
Proof.
  destruct today as [y m d]. unfold valid, MINYEAR. simpl.
  intros (_ & _ & Hd) -> ->. apply first_year_overflow.
  by change (_days_in_month 1 1) with 31 in Hd.
Qed.

End DateFacts.

(** ** The loop body as a whole *)

Module Flow.
Import Spec.
Import Run Reconcile.

Lemma grows_ret {A} (a : A) : grows (mret a).
Proof. by intros b p k. Qed.

Lemma grows_lift {A} (r : result A) : grows (lift r).
Proof. by intros b p k. Qed.

Lemma grows_getitem key : grows (getitem key).
Proof. by intros b p k. Qed.

Lemma grows_import : grows import_re.
Proof. by intros b p k. Qed.

Lemma grows_load : grows load_re.
Proof. by intros b p k. Qed.

Lemma grows_setitem key v : grows (setitem key v).
Proof.
  intros b p k Hk. unfold exec, setitem. simpl.
  rewrite lookup_insert_is_Some. destruct (decide (key = k)); auto.
Qed.

Lemma grows_bind {A B} (m : M A) (f : A → M B) :
  grows m → (∀ a, grows (f a)) → grows (m ≫= f).
Proof.
  intros Hm Hf b p k Hk. specialize (Hm b p k Hk).
  unfold exec, mbind, M_bind in *.
  destruct (m (Locals b p)) as [[a|e] [b' p']]; simpl in *.
  - by apply (Hf a b' p').
  - done.
Qed.

Lemma grows_try {A} (m : M A) (h : exn → M A) :
  grows m → (∀ e, grows (h e)) → grows (try_except_M m h).
Proof.
  intros Hm Hh b p k Hk. specialize (Hm b p k Hk).
  unfold exec, try_except_M in *.
  destruct (m (Locals b p)) as [[a|e] [b' p']]; simpl in *.
  - done.
  - by apply (Hh e b' p').
Qed.

Lemma grows_pass : grows pass.
Proof. apply grows_ret. Qed.

(** Walks through a block, as [frame] does. *)
Ltac grow :=
  repeat first
    [ apply grows_bind; [|intros ?]
    | apply grows_try; [|intros ?]
    | apply grows_setitem
    | apply grows_getitem
    | apply grows_import
    | apply grows_load
    | apply grows_lift
    | apply grows_pass
    | apply grows_ret
    | case_match ].

Lemma grows_process_player current_fide prev_fide pages :
  grows (process_player current_fide prev_fide pages).
Proof.
  unfold process_player, knsb_stats, games_block, calc_block, fide_match,
    change_block, backfill.
  grow.
Qed.

Lemma modifies_process_player current_fide prev_fide pages :
  modifies written_keys (process_player current_fide prev_fide pages).
Proof.
  unfold process_player, knsb_stats, games_block, calc_block, fide_match,
    change_block, backfill, written_keys, knsb_keys, fide_keys.
  cbn [app]. frame.
Qed.

Lemma agree_refl K p : agree K p p.
Proof. by intros k _. Qed.

Lemma agree_insert K p p' key v :
  agree K p p' → agree K (<[key := v]> p) (<[key := v]> p').
Proof.
  intros H k Hk. destruct (decide (key = k)) as [-> | Hne].
  - by rewrite !lookup_insert_eq.
  - rewrite !lookup_insert_ne by done. by apply H.
Qed.

Lemma ignores_ret {A} K (a : A) : ignores K (mret a).
Proof. by intros b p p' H. Qed.

Lemma ignores_lift {A} K (r : result A) : ignores K (lift r).
Proof. by intros b p p' H. Qed.

Lemma ignores_pass K : ignores K pass.
Proof. apply ignores_ret. Qed.

Lemma ignores_load K : ignores K load_re.
Proof. by intros b p p' H. Qed.

Lemma ignores_getitem K key : key ∉ K → ignores K (getitem key).
Proof.
  intros Hkey b p p' H. unfold exec, getitem. simpl. by rewrite (H key Hkey).
Qed.

Lemma ignores_setitem K key v : ignores K (setitem key v).
Proof.
  intros b p p' H. unfold exec, setitem. simpl. split_and!; [done..|].
  by apply agree_insert.
Qed.

Lemma ignores_bind {A B} K (m : M A) (f : A → M B) :
  ignores K m → (∀ a, ignores K (f a)) → ignores K (m ≫= f).
Proof.
  intros Hm Hf b p p' H. destruct (Hm b p p' H) as (Hres & Hb & Hst).
  unfold exec, mbind, M_bind in *.
  destruct (m (Locals b p)) as [[a|e] [b1 q]],
    (m (Locals b p')) as [[a'|e'] [b1' q']]; simpl in *; simplify_eq.
  - by apply (Hf a' b1' q q').
  - done.
Qed.

Lemma ignores_try {A} K (m : M A) (h : exn → M A) :
  ignores K m → (∀ e, ignores K (h e)) → ignores K (try_except_M m h).
Proof.
  intros Hm Hh b p p' H. destruct (Hm b p p' H) as (Hres & Hb & Hst).
  unfold exec, try_except_M in *.
  destruct (m (Locals b p)) as [[a|e] [b1 q]],
    (m (Locals b p')) as [[a'|e'] [b1' q']]; simpl in *; simplify_eq.
  - done.
  - by apply (Hh e' b1' q q').
Qed.

(** Steps 2 and 3 read and write nothing that step 1 writes. *)
Lemma ignores_fide_match current_fide prev_fide pg :
  ignores knsb_keys (fide_match current_fide prev_fide pg).
Proof.
  unfold fide_match, change_block, backfill.
  repeat first
    [ apply ignores_bind; [|intros ?]
    | apply ignores_setitem
    | apply ignores_getitem; compute_done
    | apply ignores_load
    | apply ignores_lift
    | apply ignores_pass
    | case_match ].
Qed.

(** Steps 2 and 3 use the page through its federation link only. *)
Lemma fide_match_link current_fide prev_fide pg pg' :
  fide_link pg = fide_link pg' →
  fide_match current_fide prev_fide pg = fide_match current_fide prev_fide pg'.
Proof. intros H. unfold fide_match. by rewrite H. Qed.

(** Steps 2 and 3 in closed form. *)
Lemma fide_match_outcome current_fide prev_fide pg b p :
  is_Some (p !! "title") → is_Some (p !! "country") → is_Some (p !! "birthday") →
  exec (fide_match current_fide prev_fide pg) b p
  = fide_outcome current_fide prev_fide pg b p.
Proof.
  intros Ht Hc Hb.
  destruct (fide_match_run current_fide prev_fide pg b p Ht Hc Hb) as [r E].
  unfold exec. by rewrite E.
Qed.

Lemma knsb_outcome_frame pg p k :
  k ∉ knsb_keys → knsb_outcome pg p !! k = p !! k.
Proof.
  intros Hk. unfold knsb_outcome.
  apply (modifies_try knsb_keys); [apply modifies_knsb_stats|intros; apply modifies_pass|done].
Qed.

(** The two blocks of step 1 return, and what they write does not depend
    on the binding of [re]; the calculation block leaves it bound. *)
Lemma games_block_returns cell p :
  ∃ p1, ∀ b, games_block cell (Locals b p) = (Ok (), Locals b p1).
Proof.
  destruct cell as [text|]; [|by exists p]. unfold games_block.
  destruct (Text.contains Char.newline text); [|by exists p].
  destruct (last (Text.split Char.newline text)) as [v|] eqn:E.
  - exists (<["games_played" := Text.strip v]> p). intros b.
    unfold mbind, M_bind, lift, last_item. by rewrite E.
  - apply last_None in E. by apply TextFacts.split_not_nil in E.
Qed.

Lemma calc_block_returns cell p :
  ∃ p1, ∀ b, calc_block cell (Locals b p)
             = (Ok (), Locals (match cell with Some _ => true | None => b end) p1).
Proof.
  destruct cell as [text|]; [|by exists p].
  destruct (Re.search_change (Text.strip text)) as [[sign val]|] eqn:E.
  - destruct (String.eqb sign "+") eqn:Hs.
    + exists (<["rating_change" := val]> (<["rating_change" := val]> p)).
      intros b. rewrite Profile.calc_block_import, E, Hs. done.
    + exists (<["rating_change" := "-" +:+ val]> p).
      intros b. rewrite Profile.calc_block_import, E, Hs. done.
  - exists p. intros b. by rewrite Profile.calc_block_import, E.
Qed.

(** Step 1 with its [try], in closed form. *)
Lemma knsb_try_returns pg p :
  ∃ p1, ∀ b, try_except_M (knsb_stats pg) (λ _, pass) (Locals b p)
             = (Ok (), Locals (b || imports pg) p1).
Proof.
  unfold try_except_M, knsb_stats, imports.
  destruct (wait_for_table pg) as [[]|e].
  2:{ exists p. intros b. by rewrite orb_false_r. }
  destruct (games_cell pg) as [cell|e].
  2:{ exists p. intros b. by rewrite orb_false_r. }
  destruct (games_block_returns cell p) as [p1 H1].
  destruct (calc_cell pg) as [cell'|e].
  2:{ exists p1. intros b. rewrite orb_false_r.
      unfold mbind at 1, M_bind at 1, lift at 1.
      unfold mbind at 1, M_bind at 1, lift at 1.
      erewrite bind_ok by apply H1. done. }
  destruct (calc_block_returns cell' p1) as [p2 H2].
  exists p2. intros b.
  unfold mbind at 1, M_bind at 1, lift at 1.
  unfold mbind at 1, M_bind at 1, lift at 1.
  erewrite bind_ok by apply H1.
  unfold mbind at 1, M_bind at 1, lift at 1.
  rewrite H2. destruct cell'; [by rewrite orb_true_r|by rewrite orb_false_r].
Qed.

Lemma knsb_run pg b p :
  try_except_M (knsb_stats pg) (λ _, pass) (Locals b p)
  = (Ok (), Locals (b || imports pg) (knsb_outcome pg p)).
Proof.
  destruct (knsb_try_returns pg p) as [p1 H].
  unfold knsb_outcome, exec. by rewrite (H false), (H b).
Qed.

(** The loop body in closed form: it returns, whatever the page does. *)
Lemma process_player_outcome current_fide prev_fide pages b player url :
  has_roster_keys player → player !! "_full_profile_url" = Some url →
  process_player current_fide prev_fide pages (Locals b player)
  = (Ok (), Locals (b || binds (pages url))
              (body_outcome current_fide prev_fide (pages url) b player)).
Proof.
  intros ([n Hn] & _ & Ht & Hc & Hb) Hurl. unfold process_player, body_outcome, binds.
  erewrite bind_ok by (by apply getitem_ok). unfold try_except_M at 1.
  erewrite bind_ok by (by apply getitem_ok).
  destruct (goto (pages url)) as [[]|e] eqn:Hgoto; unfold lift at 1.
  2:{ erewrite bind_raise by done. erewrite bind_ok by (by apply getitem_ok).
      by rewrite orb_false_r. }
  erewrite bind_ok by done.
  erewrite bind_ok by apply knsb_run.
  set (p1 := knsb_outcome (pages url) player).
  set (b1 := b || imports (pages url)).
  assert (∀ k, k ∉ knsb_keys → is_Some (player !! k) → is_Some (p1 !! k)) as Hsome.
  { intros k Hk. unfold p1. by rewrite knsb_outcome_frame. }
  destruct (fide_match_run current_fide prev_fide (pages url) b1 p1) as [r E2];
    [apply Hsome; [compute_done|done]..|].
  rewrite E2. destruct r as [[]|e]; [done|].
  erewrite bind_ok; [done|]. apply getitem_ok. simpl.
  pose proof (matched_frame_name current_fide prev_fide p1 _
                (fide_outcome_matched current_fide prev_fide (pages url) b1 p1)) as ->.
  unfold p1. by rewrite knsb_outcome_frame by compute_done.
Qed.

Lemma roster_entry_url row player :
  roster_entry row = Some player →
  ∃ url, player !! "_full_profile_url" = Some url
         ∧ player !! "profile_url" = Some url.
Proof.
  unfold roster_entry. destruct (name_el row) as [[name href]|]; [|done].
  destruct (rating_el row); [|done]. intros [= <-]. eexists. by simplify_map_eq.
Qed.

Lemma roster_entry_kept row : is_Some (roster_entry row) ↔ kept row = true.
Proof.
  unfold roster_entry, kept. destruct (name_el row) as [[name href]|];
    [destruct (rating_el row)|]; split; (done || by intros [? ?] || eauto).
Qed.

(** The loop body on a roster entry, and the whole loop. *)
Lemma process_player_enriched current_fide prev_fide pages b player :
  has_roster_keys player →
  process_player current_fide prev_fide pages (Locals b player)
  = (Ok (), Locals (b || entry_binds pages player)
              (enriched current_fide prev_fide pages b player)).
Proof.
  intros Hkeys. pose proof Hkeys as (_ & [url Hurl] & _). unfold enriched, entry_binds.
  rewrite Hurl. by apply process_player_outcome.
Qed.

Lemma process_players_enriched current_fide prev_fide pages players b :
  Forall has_roster_keys players →
  process_players current_fide prev_fide pages players b
  = Ok (enriched_all current_fide prev_fide pages b players).
Proof.
  intros H. revert b. induction H as [|p players Hp _ IH]; intros b; simpl; [done|].
  rewrite process_player_enriched by done. simpl. by rewrite IH.
Qed.

(** The binding of [re] with which the loop body starts on each entry. *)
Lemma enriched_all_lookup current_fide prev_fide pages b players i p :
  players !! i = Some p →
  enriched_all current_fide prev_fide pages b players !! i
  = Some (enriched current_fide prev_fide pages
            (bound_after pages b (take i players)) p).
Proof.
  revert b i. induction players as [|q players IH]; intros b i; [done|].
  destruct i as [|i]; simpl.
  - intros [= ->]. unfold bound_after. simpl. by rewrite orb_false_r.
  - intros Hp. rewrite (IH _ _ Hp). unfold bound_after. simpl.
    by rewrite orb_assoc.
Qed.

Lemma enriched_all_length current_fide prev_fide pages b players :
  length (enriched_all current_fide prev_fide pages b players) = length players.
Proof. revert b. induction players as [|q players IH]; intros b; simpl; auto. Qed.

Lemma roster_entries_keys rows : Forall has_roster_keys (omap roster_entry rows).
Proof.
  apply Forall_forall. intros p (row & _ & Hrow)%list_elem_of_omap.
  by apply roster_entry_keys in Hrow as [? _].
Qed.

Lemma preserves_ret {A} P (a : A) : preserves P (mret a).
Proof. by intros b p. Qed.

Lemma preserves_lift {A} P (r : result A) : preserves P (lift r).
Proof. by intros b p. Qed.

Lemma preserves_pass P : preserves P pass.
Proof. apply preserves_ret. Qed.

Lemma preserves_getitem P key : preserves P (getitem key).
Proof. by intros b p. Qed.

Lemma preserves_import P : preserves P import_re.
Proof. by intros b p. Qed.

Lemma preserves_load P : preserves P load_re.
Proof. by intros b p. Qed.

Lemma preserves_bind {A B} P (m : M A) (f : A → M B) :
  preserves P m → (∀ a, preserves P (f a)) → preserves P (m ≫= f).
Proof.
  intros Hm Hf b p Hp. specialize (Hm b p Hp).
  unfold exec, mbind, M_bind in *.
  destruct (m (Locals b p)) as [[a|e] [b' p']]; simpl in *.
  - by apply (Hf a b' p').
  - done.
Qed.

Lemma preserves_try {A} P (m : M A) (h : exn → M A) :
  preserves P m → (∀ e, preserves P (h e)) → preserves P (try_except_M m h).
Proof.
  intros Hm Hh b p Hp. specialize (Hm b p Hp).
  unfold exec, try_except_M in *.
  destruct (m (Locals b p)) as [[a|e] [b' p']]; simpl in *.
  - done.
  - by apply (Hh e b' p').
Qed.

(** A write under another key keeps what holds at [key]; a write under
    [key] of a value that satisfies [Q] establishes it. *)
Lemma preserves_setitem_ne key Q k v :
  k ≠ key → preserves (holds_at key Q) (setitem k v).
Proof.
  intros Hk b p (x & Hx & HQ). exists x. split; [|done].
  unfold exec, setitem. simpl. by rewrite lookup_insert_ne.
Qed.

Lemma preserves_setitem_eq key Q v :
  Q v → preserves (holds_at key Q) (setitem key v).
Proof.
  intros HQ b p _. exists v. split; [|done].
  unfold exec, setitem. simpl. by rewrite lookup_insert_eq.
Qed.

Lemma roster_entry_dom row player k :
  roster_entry row = Some player →
  is_Some (player !! k) ↔ k ∈ "_full_profile_url" :: roster_keys.
Proof.
  unfold roster_entry, roster_keys.
  destruct (name_el row) as [[name url]|]; [|done].
  destruct (rating_el row); [|done]. intros [= <-].
  rewrite !lookup_insert_is_Some', lookup_empty, !elem_of_cons, elem_of_nil.
  split.
  - intros [<-|[<-|[<-|[<-|[<-|[<-|[<-|[<-|[<-|[<-|[? [=]]]]]]]]]]]]; tauto.
  - intros [->|[->|[->|[->|[->|[->|[->|[->|[->|[->|[]]]]]]]]]]]; tauto.
Qed.

Lemma written_keys_emitted k :
  k ∈ written_keys → k ∈ roster_keys ++ federation_keys.
Proof.
  unfold written_keys, knsb_keys, fide_keys. cbn [app]. intros Hk.
  repeat (apply elem_of_cons in Hk as [-> | Hk]; [compute_done|]).
  by apply elem_of_nil in Hk.
Qed.

Lemma lookup_reconciled_frame curr_rec prev_fide fide_id p k :
  k ∉ fide_keys → reconciled curr_rec prev_fide fide_id p !! k = p !! k.
Proof.
  unfold fide_keys. rewrite !not_elem_of_cons. intros (? & ? & ? & ? & ? & ? & ? & _).
  unfold reconciled.
  rewrite !lookup_backfilled_ne, lookup_changed_ne, !lookup_insert_ne by done. done.
Qed.

Lemma lookup_fide_outcome_frame current_fide prev_fide pg b p k :
  k ∉ fide_keys → fide_outcome current_fide prev_fide pg b p !! k = p !! k.
Proof.
  intros Hk. unfold fide_outcome. repeat case_match; try done.
  - by apply lookup_reconciled_frame.
  - apply lookup_insert_ne. intros <-. apply Hk. compute_done.
Qed.

Lemma roster_entries_kept rows :
  Forall2 (λ row p, roster_entry row = Some p)
    (filter (λ row, kept row = true) rows) (omap roster_entry rows).
Proof.
  induction rows as [|row rows IH]; [constructor|].
  rewrite filter_cons. cbn [omap list_omap].
  pose proof (roster_entry_kept row) as Hk.
  destruct (roster_entry row) as [p|] eqn:E.
  - rewrite decide_True by (apply Hk; eauto). by constructor.
  - rewrite decide_False; [done|]. intros [? ?]%Hk. done.
Qed.

Lemma enriched_frame current_fide prev_fide pages b player k :
  has_roster_keys player → k ∉ written_keys →
  enriched current_fide prev_fide pages b player !! k = player !! k.
Proof.
  intros Hkeys Hk.
  pose proof (modifies_process_player current_fide prev_fide pages b player k Hk) as H.
  unfold exec in H. by rewrite process_player_enriched in H.
Qed.

Lemma knsb_outcome_agree pg pg' p :
  agree knsb_keys (knsb_outcome pg p) (knsb_outcome pg' p).
Proof. intros k Hk. by rewrite !knsb_outcome_frame. Qed.

Lemma fide_outcome_agree current_fide prev_fide pg pg' b p p' :
  fide_link pg = fide_link pg' → agree knsb_keys p p' →
  is_Some (p !! "title") → is_Some (p !! "country") → is_Some (p !! "birthday") →
  agree knsb_keys (fide_outcome current_fide prev_fide pg b p)
    (fide_outcome current_fide prev_fide pg' b p').
Proof.
  intros Hlink Hagree Ht Hc Hb.
  rewrite <- !fide_match_outcome;
    [|by rewrite <- Hagree by compute_done..|done|done|done].
  rewrite (fide_match_link _ _ _ _ Hlink).
  by apply ignores_fide_match.
Qed.

(** Where the identifier of the outcome comes from. *)
Lemma fide_outcome_id current_fide prev_fide pg b p fide_id :
  p !! "fide_id" = None →
  fide_outcome current_fide prev_fide pg b p !! "fide_id" = Some fide_id →
  b = true
  ∧ ∃ fide_url, fide_link pg = Ok (Some fide_url)
                ∧ Re.search_profile fide_url = Some fide_id.
Proof.
  intros Hnone. unfold fide_outcome.
  destruct (fide_link pg) as [[fide_url|]|]; [|congruence..].
  destruct b; [|congruence].
  destruct (Re.search_profile fide_url) as [id|] eqn:Hs; [|congruence].
  destruct (current_fide !! id).
  - rewrite lookup_reconciled_id. intros [= <-]. eauto.
  - rewrite lookup_insert_eq. intros [= <-]. eauto.
Qed.

(** With [re] unbound, steps 2 and 3 write nothing. *)
Lemma fide_outcome_unbound current_fide prev_fide pg p :
  fide_outcome current_fide prev_fide pg false p = p.
Proof. unfold fide_outcome. by repeat case_match. Qed.

(** The run as a whole, in closed form. *)
Lemma scrape_ratings_enriched today get rows pages out :
  scrape_ratings today get rows pages = Ok out →
  ∃ current_fide prev_fide,
    out = map cleanup (enriched_all current_fide prev_fide pages false
                         (omap roster_entry rows)).
Proof.
  unfold scrape_ratings. intros E.
  destruct (download_and_parse_fide_xml get FIDE_XML_URL) as [cur|]; [|done].
  destruct (get_previous_period_url today) as [url|]; [|done]. simpl in E.
  destruct (download_and_parse_fide_xml get url) as [prev|]; [|done]. simpl in E.
  rewrite (process_players_enriched _ _ _ _ _ (roster_entries_keys rows)) in E.
  simpl in E. injection E as <-. by exists cur, prev.
Qed.

Lemma bound_after_snoc pages b earlier p :
  bound_after pages b (earlier ++ [p])
  = bound_after pages b earlier || entry_binds pages p.
Proof.
  unfold bound_after. rewrite existsb_app. simpl.
  by rewrite orb_false_r, orb_assoc.
Qed.

End Flow.

(** ** The identifier pattern *)

Module IdFacts.
Import Spec.
Import Text TextFacts ReFacts.

#[local] Arguments String.append !_ _ / : simpl nomatch.

Lemma drop_prefix_Some p s r : drop_prefix p s = Some r ↔ s = p +:+ r.
Proof.
  revert s. induction p as [|a p IH]; intros s; simpl.
  - split; congruence.
  - destruct s as [|b s]; [split; [done|by intros [=]]|].
    destruct (Ascii.eqb_spec a b) as [-> | Hne].
    + rewrite IH. split; [by intros ->|by intros [= ->]].
    + split; [done|]. intros [= ? _]. congruence.
Qed.

Lemma match_profile_sound s id :
  Re.match_profile s = Some id →
  is_numeral id = true
  ∧ ∃ post, s = "profile/" +:+ id +:+ post
            ∧ ∀ c, first_char post = Some c → Char.is_decimal c = false.
Proof.
  unfold Re.match_profile.
  destruct (drop_prefix "profile/" s) as [rest|] eqn:E; [|done].
  apply drop_prefix_Some in E as ->.
  destruct (span Char.is_decimal rest) as [digits post] eqn:Hspan.
  apply span_sound in Hspan as (-> & Hd & Hpost).
  destruct (truthy digits) eqn:Hne; [|done]. intros [= <-].
  split; [by apply numeral_intro|]. by exists post.
Qed.

Lemma match_profile_digit d rest :
  Char.is_decimal d = true →
  is_Some (Re.match_profile ("profile/" +:+ String d rest)).
Proof.
  intros Hd. unfold Re.match_profile.
  assert (drop_prefix "profile/" ("profile/" +:+ String d rest) = Some (String d rest)) as ->
    by (by apply drop_prefix_Some).
  cbn [span]. rewrite Hd. destruct (span Char.is_decimal rest). simpl. eauto.
Qed.

Lemma has_profile_id_cons c s :
  has_profile_id (String c s) →
  is_Some (Re.match_profile (String c s)) ∨ has_profile_id s.
Proof.
  intros (pre & d & rest & E & Hd). destruct pre as [|c' pre].
  - left. simpl in E. rewrite E. by apply match_profile_digit.
  - right. simpl in E. injection E as _ ->. by exists pre, d, rest.
Qed.

Lemma search_profile_complete s :
  has_profile_id s → is_Some (Re.search_profile s).
Proof.
  induction s as [|c s IH]; intros H.
  - destruct H as (pre & d & rest & E & _). by destruct pre.
  - cbn [Re.search_profile].
    destruct (Re.match_profile (String c s)) eqn:E; [eauto|].
    apply has_profile_id_cons in H as [[? H]|H]; [congruence|by apply IH].
Qed.

(** The search finds the first place where the pattern matches. *)
Lemma search_profile_sound s id :
  Re.search_profile s = Some id →
  is_numeral id = true
  ∧ ∃ pre post, s = pre +:+ "profile/" +:+ id +:+ post
                ∧ (∀ c, first_char post = Some c → Char.is_decimal c = false)
                ∧ ¬ has_profile_id pre.
Proof.
  induction s as [|c s IH]; cbn [Re.search_profile].
  - done.
  - destruct (Re.match_profile (String c s)) as [g|] eqn:E.
    + intros [= <-]. apply match_profile_sound in E as (Hid & post & -> & Hpost).
      split; [done|]. exists "", post. split_and!; [done..|].
      intros (pre & ? & ? & ? & _). by destruct pre.
    + intros (Hid & pre & post & -> & Hpost & Hpre)%IH. split; [done|].
      exists (String c pre), post. split_and!; [done..|].
      intros [[x Hx] | H]%has_profile_id_cons; [|done].
      apply match_profile_sound in Hx as (Hx & post' & Hpre' & _).
      destruct (numeral_inv _ Hx) as [Hne Hdec].
      destruct x as [|d x]; [done|]. simpl in Hdec. apply andb_prop in Hdec as [Hd _].
      assert (is_Some (Re.match_profile
                         (String c (pre +:+ "profile/" +:+ id +:+ post)))) as [? ?];
        [|congruence].
      change (String c (pre +:+ "profile/" +:+ id +:+ post))
        with (String c pre +:+ "profile/" +:+ id +:+ post).
      rewrite Hpre'.
      change ("profile/" +:+ String d x +:+ post')
        with ("profile/" +:+ String d (x +:+ post')).
      rewrite app_assoc.
      change (("profile/" +:+ String d (x +:+ post')) +:+ "profile/" +:+ id +:+ post)
        with ("profile/" +:+ String d ((x +:+ post') +:+ "profile/" +:+ id +:+ post)).
      by apply match_profile_digit.
Qed.

Lemma search_profile_spec_None s : ¬ has_profile_id s → Re.search_profile s = None.
Proof.
  intros Hno. destruct (Re.search_profile s) as [id|] eqn:E; [|done].
  exfalso. apply Hno.
  apply search_profile_sound in E as (Hid & pre & post & -> & _).
  destruct (numeral_inv _ Hid) as [_ Hdec].
  destruct id as [|d id]; [done|]. simpl in Hdec. apply andb_prop in Hdec as [Hd _].
  by exists pre, d, (id +:+ post).
Qed.

End IdFacts.

(** ** Decimal rendering *)

Module NumFacts.
Import Spec.
Import Text TextFacts.

#[local] Arguments String.append !_ _ / : simpl nomatch.

Lemma decimal_value_app acc a b :
  decimal_value acc (a +:+ b) = decimal_value (decimal_value acc a) b.
Proof. revert acc. induction a as [|c a IH]; intros acc; simpl; [done|apply IH]. Qed.

Lemma pretty_N_go_app x s : pretty_N_go x s = pretty_N_go x "" +:+ s.
Proof.
  revert s. induction (N.lt_wf_0 x) as [x _ IH]; intros s.
  destruct (decide (x = 0%N)) as [-> | Hx]; [by rewrite !pretty_N_go_0|].
  rewrite (pretty_N_go_step x s), (pretty_N_go_step x "") by lia.
  assert (x `div` 10 < x)%N as Hlt by (apply N.div_lt; lia).
  rewrite (IH _ Hlt (String (pretty_N_char (x `mod` 10)) s)).
  rewrite (IH _ Hlt (String (pretty_N_char (x `mod` 10)) "")).
  by rewrite app_assoc.
Qed.

Lemma pretty_N_char_digit d :
  (d < 10)%N →
  Char.is_decimal (pretty_N_char d) = true
  ∧ Char.digit_value (pretty_N_char d) = Z.of_N d.
Proof.
  intros Hd.
  assert (d = 0 ∨ d = 1 ∨ d = 2 ∨ d = 3 ∨ d = 4 ∨ d = 5 ∨ d = 6 ∨ d = 7 ∨ d = 8
          ∨ d = 9)%N as [->|[->|[->|[->|[->|[->|[->|[->|[->| ->]]]]]]]]] by lia;
    by vm_compute.
Qed.

(** The digits of [x], most significant first, read back as [x]. *)
Lemma pretty_N_go_value x :
  all Char.is_decimal (pretty_N_go x "") = true
  ∧ decimal_value 0 (pretty_N_go x "") = Z.of_N x
  ∧ ((0 < x)%N → truthy (pretty_N_go x "") = true).
Proof.
  induction (N.lt_wf_0 x) as [x _ IH].
  destruct (decide (x = 0%N)) as [-> | Hx].
  { rewrite pretty_N_go_0. split_and!; [done..|lia]. }
  rewrite pretty_N_go_step, pretty_N_go_app by lia.
  destruct (IH (x `div` 10)%N) as (Hall & Hval & _); [apply N.div_lt; lia|].
  destruct (pretty_N_char_digit (x `mod` 10)%N) as [Hd Hv]; [by apply N.mod_lt|].
  split_and!.
  - rewrite all_app, Hall. simpl. by rewrite Hd.
  - rewrite decimal_value_app, Hval. simpl. rewrite Hv.
    rewrite (N.div_mod x 10) at 3 by done. lia.
  - intros _. by destruct (pretty_N_go (x `div` 10) "").
Qed.

(** [str] of a natural number is a decimal numeral with that value. *)
Lemma str_numeral n :
  0 ≤ n → is_numeral (str n) = true ∧ decimal_value 0 (str n) = n.
Proof.
  intros Hn. destruct n as [|x|x]; [done| |lia].
  unfold str, pretty, pretty_Z, pretty, pretty_positive, pretty, pretty_N.
  rewrite decide_False by done.
  destruct (pretty_N_go_value (N.pos x)) as (Hall & Hval & Hne).
  split; [|by rewrite Hval]. apply ReFacts.numeral_intro; [|done]. apply Hne. lia.
Qed.

Lemma str_negative x : str (Z.neg x) = "-" +:+ str (Z.pos x).
Proof. done. Qed.

Lemma str_first_char n c :
  0 ≤ n → first_char (str n) = Some c → Char.is_decimal c = true.
Proof.
  intros Hn Hc. destruct (str_numeral n Hn) as [Hnum _].
  destruct (str n) as [|d s]; [done|]. simpl in *. injection Hc as <-.
  by apply andb_prop in Hnum as [? _].
Qed.

(** A decimal digit is the rendering of its value. *)
Lemma pretty_N_char_decimal c :
  Char.is_decimal c = true →
  pretty_N_char (Z.to_N (Char.digit_value c)) = c ∧ 0 ≤ Char.digit_value c ≤ 9.
Proof.
  destruct c as [[] [] [] [] [] [] [] []]; intros Hc; try discriminate Hc;
    (split; [reflexivity|by vm_compute]).
Qed.

Lemma pretty_N_go_snoc x d :
  (d < 10)%N → (0 < 10 * x + d)%N →
  pretty_N_go (10 * x + d) "" = pretty_N_go x "" +:+ String (pretty_N_char d) "".
Proof.
  intros Hd Hpos. rewrite pretty_N_go_step by done.
  rewrite <- (N.div_unique (10 * x + d) 10 x d) by done.
  rewrite <- (N.mod_unique (10 * x + d) 10 x d) by done.
  apply pretty_N_go_app.
Qed.

(** Reading digits after the digits of [acc] gives the digits of the
    value, up to zeros in front when [acc] is zero. *)
Lemma digits_denote s :
  all Char.is_decimal s = true → ∀ acc, 0 ≤ acc →
  ∃ z, zeros z = true ∧ (0 < acc → z = "")
       ∧ pretty_N_go (Z.to_N acc) "" +:+ s
         = z +:+ pretty_N_go (Z.to_N (decimal_value acc s)) "".
Proof.
  induction s as [|c s IH]; intros Hs acc Hacc.
  { exists "". simpl. by rewrite app_nil_r. }
  simpl in Hs. apply andb_prop in Hs as [Hc Hs].
  destruct (pretty_N_char_decimal c Hc) as [Hchar Hd].
  destruct (IH Hs (10 * acc + Char.digit_value c)) as (z & Hz & Hpos & E); [lia|].
  cbn [decimal_value].
  destruct (decide (10 * acc + Char.digit_value c = 0)) as [E0 | Hne].
  - assert (acc = 0 ∧ Char.digit_value c = 0) as [-> Hc0] by lia.
    rewrite Hc0 in Hchar. simpl in Hchar. subst c.
    exists (String "0" z). split_and!; [done|lia|].
    change (10 * 0 + Char.digit_value "0") with 0 in E |- *.
    change (pretty_N_go (Z.to_N 0) "") with "" in E |- *.
    simpl in E |- *. by rewrite <- E.
  - exists "". split_and!; [done..|].
    rewrite (Hpos ltac:(lia)) in E. rewrite <- E.
    replace (Z.to_N (10 * acc + Char.digit_value c))
      with (10 * Z.to_N acc + Z.to_N (Char.digit_value c))%N by lia.
    rewrite pretty_N_go_snoc, Hchar by lia. by rewrite app_assoc.
Qed.

Lemma zeros_snoc z : zeros z = true → String "0" z = z +:+ "0".
Proof.
  induction z as [|c z IH]; simpl; [done|].
  intros [Hc Hz]%andb_prop. apply Ascii.eqb_eq in Hc as ->. by rewrite <- IH.
Qed.

Lemma zeros_decimal z : zeros z = true → all Char.is_decimal z = true.
Proof.
  induction z as [|c z IH]; simpl; [done|].
  intros [Hc Hz]%andb_prop. apply Ascii.eqb_eq in Hc as ->. by rewrite IH.
Qed.

Lemma str_pos_digits n : 0 < n → str n = pretty_N_go (Z.to_N n) "".
Proof.
  intros Hn. destruct n as [|x|x]; [lia| |lia].
  unfold str, pretty, pretty_Z, pretty, pretty_positive, pretty, pretty_N.
  by rewrite decide_False.
Qed.

(** A decimal numeral denotes the value that the conversion computes,
    and only decimal numerals denote a number. *)
Lemma numeral_denotes s : is_numeral s = true → denotes s (decimal_value 0 s).
Proof.
  intros [Hne Hall]%ReFacts.numeral_inv.
  destruct (digits_denote s Hall 0) as (z & Hz & _ & E); [done|].
  simpl in E.
  pose proof (Snapshot.decimal_value_nonneg s 0 Hall) as Hv.
  split; [lia|].
  destruct (decide (decimal_value 0 s = 0)) as [E0 | Hpos].
  - rewrite E0 in *. simpl in E. rewrite app_nil_r in E. subst s.
    destruct z as [|c z]; [done|]. simpl in Hz.
    apply andb_prop in Hz as [Hc Hz]. apply Ascii.eqb_eq in Hc as ->.
    exists z. split; [done|]. by apply zeros_snoc.
  - exists z. split; [done|]. by rewrite str_pos_digits by lia.
Qed.

Lemma denotes_numeral s m : denotes s m → is_numeral s = true.
Proof.
  intros (Hm & z & Hz & ->).
  destruct (str_numeral m Hm) as [[Hne Hall]%ReFacts.numeral_inv _].
  apply ReFacts.numeral_intro.
  - destruct z; [done|done].
  - by rewrite all_app, Hall, zeros_decimal.
Qed.

(** The stored integer is what the text denotes. *)
Lemma coerce_int_stored x : stored_as x (coerce_int x).
Proof.
  destruct x as [s|]; [|done]. unfold coerce_int, stored_as.
  destruct (is_numeral s) eqn:E.
  - left. by apply numeral_denotes.
  - right. split; [done|]. intros m Hm%denotes_numeral. congruence.
Qed.

(** A rendering with a plus sign is not the rendering of a number. *)
Lemma plus_str_ne x y : 0 < x → y ≤ 0 → "+" +:+ str x ≠ str y.
Proof.
  intros Hx Hy. destruct y as [|y|y]; [done|lia|]. by rewrite str_negative.
Qed.

(** Only the zero change renders as ["0"]. *)
Lemma fmt_change_zero d : fmt_change d = "0" → d = 0.
Proof.
  unfold fmt_change. destruct (Z.ltb_spec 0 d); intros E.
  - by apply (plus_str_ne d 0) in E.
  - change "0" with (str 0) in E. by apply (inj pretty) in E.
Qed.

End NumFacts.

(** ** The two text fields *)

Module TextFields.
Import Spec.
Import Text TextFacts ReFacts Run Flow.

#[local] Arguments String.append !_ _ / : simpl nomatch.

Lemma last_split_no_sep sep s v :
  last (split sep s) = Some v → contains sep v = false.
Proof.
  destruct (contains sep s) eqn:Hs.
  - apply contains_true_split in Hs as (a & b & -> & Hb).
    rewrite last_split by done. by intros [= <-].
  - rewrite split_no_sep by done. by intros [= <-].
Qed.

Lemma contains_lstrip c s : contains c s = false → contains c (lstrip s) = false.
Proof.
  induction s as [|d s IH]; simpl; [done|].
  intros [Hd Hs]%orb_false_elim. destruct (Char.isspace d); [by apply IH|].
  simpl. by rewrite Hd, Hs.
Qed.

Lemma contains_rstrip c s : contains c s = false → contains c (rstrip s) = false.
Proof.
  induction s as [|d s IH]; simpl; [done|].
  intros [Hd Hs]%orb_false_elim. specialize (IH Hs).
  destruct (rstrip s) as [|e r].
  - destruct (Char.isspace d); simpl; [done|]. by rewrite Hd.
  - simpl in *. by rewrite Hd, IH.
Qed.

Lemma strip_one_trimmed_line v :
  contains Char.newline v = false → one_trimmed_line (strip v).
Proof.
  intros Hv. split; [apply strip_is_trimmed|].
  by apply contains_lstrip, contains_rstrip.
Qed.

Lemma numeral_signed val : is_numeral val = true → signed_numeral val.
Proof. by left. Qed.

Lemma preserves_games_block_rc cell :
  preserves (holds_at "rating_change" signed_numeral) (games_block cell).
Proof.
  unfold games_block.
  repeat first
    [ apply preserves_bind; [|intros ?]
    | apply preserves_setitem_ne; done
    | apply preserves_lift
    | apply preserves_pass
    | case_match ].
Qed.

Lemma preserves_calc_block_rc cell :
  preserves (holds_at "rating_change" signed_numeral) (calc_block cell).
Proof.
  unfold calc_block. destruct cell as [text|]; [|apply preserves_pass].
  apply preserves_bind; [apply preserves_import|intros _].
  apply preserves_bind; [apply preserves_load|intros _].
  destruct (Re.search_change (strip text)) as [[sign val]|] eqn:E.
  - apply search_change_sound in E as (_ & _ & _ & _ & _ & _ & _ & _ & Hval & _).
    destruct (String.eqb sign "+").
    + apply preserves_bind; [|intros ?];
        apply preserves_setitem_eq; by left.
    + apply preserves_setitem_eq. right. by exists val.
  - destruct (contains Char.equals text); apply preserves_pass.
Qed.

Lemma preserves_games_block_gp cell :
  preserves (holds_at "games_played" one_trimmed_line) (games_block cell).
Proof.
  intros bound p Hp. destruct cell as [text|]; [|done].
  destruct (contains Char.newline text) eqn:Hnl.
  - apply contains_true_split in Hnl as (a & b & -> & Hb).
    unfold exec. rewrite Profile.games_block_newline by done. simpl.
    exists (strip b). split; [apply lookup_insert_eq|by apply strip_one_trimmed_line].
  - unfold exec, games_block. by rewrite Hnl.
Qed.

Lemma preserves_calc_block_gp cell :
  preserves (holds_at "games_played" one_trimmed_line) (calc_block cell).
Proof.
  unfold calc_block.
  repeat first
    [ apply preserves_bind; [|intros ?]
    | apply preserves_setitem_ne; done
    | apply preserves_import
    | apply preserves_load
    | apply preserves_lift
    | apply preserves_pass
    | case_match ].
Qed.

(** Step 1 of the loop body keeps the shape of the two text fields. *)
Lemma knsb_outcome_fields pg p :
  holds_at "rating_change" signed_numeral p →
  holds_at "games_played" one_trimmed_line p →
  holds_at "rating_change" signed_numeral (knsb_outcome pg p)
  ∧ holds_at "games_played" one_trimmed_line (knsb_outcome pg p).
Proof.
  intros Hrc Hgp. unfold knsb_outcome, knsb_stats. split.
  - apply (preserves_try (holds_at "rating_change" signed_numeral));
      [|intros; apply preserves_pass|done].
    repeat (apply preserves_bind; [|intros ?]);
      auto using preserves_lift, preserves_games_block_rc, preserves_calc_block_rc.
  - apply (preserves_try (holds_at "games_played" one_trimmed_line));
      [|intros; apply preserves_pass|done].
    repeat (apply preserves_bind; [|intros ?]);
      auto using preserves_lift, preserves_games_block_gp, preserves_calc_block_gp.
Qed.

End TextFields.

(** * The claims *)

Import Spec Text TextFacts ReFacts Profile Run Reconcile Emitted.

(** ** Reconciliation engine *)

(** What [scrape_ratings] emits for a player whose identifier is found in
    the current snapshot, per state of the previous snapshot. *)
Lemma emitted_fide_change today get rows pages out rec current_fide prev_url prev_fide :
  scrape_ratings today get rows pages = Ok out → rec ∈ out →
  download_and_parse_fide_xml get FIDE_XML_URL = Ok current_fide →
  get_previous_period_url today = Ok prev_url →
  download_and_parse_fide_xml get prev_url = Ok prev_fide →
  ∀ fide_id curr_rec,
    rec !! "fide_id" = Some fide_id → current_fide !! fide_id = Some curr_rec →
    rec !! "fide_rating" = Some (str (Fide.rating curr_rec))
    ∧ rec !! "fide_games" = Some (str (Fide.games curr_rec))
    ∧ rec !! "fide_change"
      = match prev_fide !! fide_id with
        | Some prev_rec =>
            if 0 <? Fide.rating prev_rec
            then Some (fmt_change (Fide.rating curr_rec - Fide.rating prev_rec))
            else None
        | None => Some "0"
        end.
Proof.
  intros Hout Hrec Hcur Hurl Hprev fide_id curr_rec Hid Hcurr.
  destruct (scrape_ratings_emitted _ _ _ _ _ _ Hout Hrec)
    as (cur & url & prev & row & player & b & b' & p' & Ecur & Eurl & Eprev & _ & Hrow
        & Hrun & ->).
  rewrite Ecur in Hcur. rewrite Eurl in Hurl. simplify_eq.
  rewrite Eprev in Hprev. simplify_eq.
  destruct (process_player_roster current_fide prev_fide pages row b player Hrow)
    as (p1 & b'' & p'' & Hrun' & _ & Hnoid & Hnoch & Hm).
  rewrite Hrun in Hrun'. simplify_eq.
  rewrite lookup_cleanup in Hid by done.
  rewrite (matched_in_list _ _ _ _ _ _ Hm Hnoid Hid Hcurr).
  rewrite !lookup_cleanup by done.
  rewrite lookup_reconciled_rating, lookup_reconciled_games, lookup_reconciled_change.
  split_and!; [done..|]. rewrite Hnoch. done.
Qed.

(** C1 (the code departs from the claim).  Identifier 123 is rated 2000 in
    the current list and 0 in the previous one: the emitted record carries
    the federation rating and games but no [fide_change] at all, where the
    claim expects ["0"]. *)
Theorem fide_change_unset_on_zero_previous_rating :
  Sample.emitted_record
    (scrape_ratings Sample.today
       (Sample.get "2000" [Sample.xml_player (Some "123") (Some "0") (Some "0") None])
       [Sample.row "FM"] Sample.pages)
  = Some [("gender", "M"); ("games_played", "5"); ("country", "NED");
          ("current_rating", "1800"); ("name", "Jan Doe"); ("fide_games", "3");
          ("fide_id", "123"); ("fide_rating", "2000"); ("rating_change", "10");
          ("birthday", "1990"); ("title", "FM");
          ("profile_url", "https://ratingviewer.nl/players/8000001")].
Proof. vm_compute. reflexivity. Qed.

(** The parts of C1 that hold: the delta rendering when the previous rating
    is positive, and ["0"] when the identifier is not in the previous
    snapshot; and, in general, no [fide_change] when the previous rating is
    not positive. *)
Lemma emitted_fide_change_cases today get rows pages out rec current_fide prev_url prev_fide
    fide_id curr_rec :
  scrape_ratings today get rows pages = Ok out → rec ∈ out →
  download_and_parse_fide_xml get FIDE_XML_URL = Ok current_fide →
  get_previous_period_url today = Ok prev_url →
  download_and_parse_fide_xml get prev_url = Ok prev_fide →
  rec !! "fide_id" = Some fide_id → current_fide !! fide_id = Some curr_rec →
  (∀ prev_rec, prev_fide !! fide_id = Some prev_rec → 0 < Fide.rating prev_rec →
     let delta := Fide.rating curr_rec - Fide.rating prev_rec in
     rec !! "fide_change" = Some (if 0 <? delta then "+" +:+ str delta else str delta))
  ∧ (prev_fide !! fide_id = None → rec !! "fide_change" = Some "0")
  ∧ (∀ prev_rec, prev_fide !! fide_id = Some prev_rec → Fide.rating prev_rec ≤ 0 →
     rec !! "fide_change" = None).
Proof.
  intros Hout Hrec Hcur Hurl Hprev Hid Hcurr.
  destruct (emitted_fide_change _ _ _ _ _ _ _ _ _ Hout Hrec Hcur Hurl Hprev _ _ Hid Hcurr)
    as (_ & _ & ->).
  split_and!.
  - intros prev_rec -> Hpos. apply Z.ltb_lt in Hpos. by rewrite Hpos.
  - by intros ->.
  - intros prev_rec -> Hle. apply Z.ltb_ge in Hle. by rewrite Hle.
Qed.

(** The three renderings of a change. *)
Lemma fmt_change_examples :
  fmt_change 20 = "+20" ∧ fmt_change 0 = "0" ∧ fmt_change (-5) = "-5".
Proof. by vm_compute. Qed.

(** C2, as amended.  For every emitted record whose [fide_id] is found in
    the current snapshot, [fide_rating] and [fide_games] are the strings of
    the current federation record's rating and games; [fide_change] is
    populated when the identifier is found in the previous snapshot with a
    positive rating and also, as ["0"], when the identifier is not in the
    previous snapshot; and a record carries [fide_change] only if its
    identifier is found in the current snapshot. *)
Theorem federation_fields_populated today get rows pages out rec
    current_fide prev_url prev_fide :
  scrape_ratings today get rows pages = Ok out → rec ∈ out →
  download_and_parse_fide_xml get FIDE_XML_URL = Ok current_fide →
  get_previous_period_url today = Ok prev_url →
  download_and_parse_fide_xml get prev_url = Ok prev_fide →
  (∀ fide_id curr_rec,
     rec !! "fide_id" = Some fide_id → current_fide !! fide_id = Some curr_rec →
     rec !! "fide_rating" = Some (str (Fide.rating curr_rec))
     ∧ rec !! "fide_games" = Some (str (Fide.games curr_rec))
     ∧ (∀ prev_rec, prev_fide !! fide_id = Some prev_rec → 0 < Fide.rating prev_rec →
        is_Some (rec !! "fide_change"))
     ∧ (prev_fide !! fide_id = None → rec !! "fide_change" = Some "0"))
  ∧ (is_Some (rec !! "fide_change") →
     ∃ fide_id, rec !! "fide_id" = Some fide_id ∧ is_Some (current_fide !! fide_id)).
Proof.
  intros Hout Hrec Hcur Hurl Hprev. split.
  - intros fide_id curr_rec Hid Hcurr.
    destruct (emitted_fide_change _ _ _ _ _ _ _ _ _ Hout Hrec Hcur Hurl Hprev _ _ Hid Hcurr)
      as (-> & -> & ->).
    split_and!; [done..| |].
    + intros prev_rec -> Hpos. apply Z.ltb_lt in Hpos. by rewrite Hpos.
    + by intros ->.
  - destruct (scrape_ratings_emitted _ _ _ _ _ _ Hout Hrec)
      as (cur & url & prev & row & player & b & b' & p' & Ecur & Eurl & Eprev & _ & Hrow
          & Hrun & ->).
    rewrite Ecur in Hcur. simplify_eq.
    destruct (process_player_roster current_fide prev pages row b player Hrow)
      as (p1 & b'' & p'' & Hrun' & _ & Hnoid & Hnoch & Hm).
    rewrite Hrun in Hrun'. simplify_eq.
    rewrite !lookup_cleanup by done.
    by eapply matched_change.
Qed.

Lemma federation_fields_populated_witness :
  let get := Sample.get "2000" [Sample.xml_player (Some "123") (Some "1980") (Some "0") None] in
  let out := Sample.get_ok [] (scrape_ratings Sample.today get [Sample.row "FM"] Sample.pages) in
  let rec := Sample.first_record out in
  rec !! "fide_rating" = Some "2000" ∧ rec !! "fide_games" = Some "3"
  ∧ is_Some (rec !! "fide_change").
Proof.
  intros get out rec.
  destruct (federation_fields_populated Sample.today get [Sample.row "FM"] Sample.pages
              out rec
              (Sample.get_ok ∅ (download_and_parse_fide_xml get FIDE_XML_URL))
              Sample.prev_url
              (Sample.get_ok ∅ (download_and_parse_fide_xml get Sample.prev_url)))
    as [H _].
  - apply get_ok_eq. vm_compute. reflexivity.
  - apply first_record_elem. vm_compute. lia.
  - apply get_ok_eq. vm_compute. reflexivity.
  - vm_compute. reflexivity.
  - apply get_ok_eq. vm_compute. reflexivity.
  - destruct (H "123" {| Fide.rating := 2000; Fide.games := 3; Fide.title := "IM";
                        Fide.country := "NED"; Fide.birthday := "1990" |})
      as (Hr & Hg & Hc & _); [vm_compute; reflexivity..|].
    split_and!; [exact Hr|exact Hg|].
    apply (Hc {| Fide.rating := 1980; Fide.games := 0; Fide.title := "";
                 Fide.country := "NED"; Fide.birthday := "1990" |});
      [vm_compute; reflexivity|vm_compute; reflexivity].
Defined.

(** C2 as stated fails: with identifier 123 in the current list and an
    empty previous list, the emitted record carries [fide_change] (it is
    ["0"]), although the identifier is not found in the previous snapshot. *)
Lemma fide_change_populated_without_previous_record :
  ¬ (∀ today get rows pages out rec current_fide prev_url prev_fide fide_id,
       scrape_ratings today get rows pages = Ok out → rec ∈ out →
       download_and_parse_fide_xml get FIDE_XML_URL = Ok current_fide →
       get_previous_period_url today = Ok prev_url →
       download_and_parse_fide_xml get prev_url = Ok prev_fide →
       rec !! "fide_id" = Some fide_id → is_Some (current_fide !! fide_id) →
       is_Some (rec !! "fide_change") →
       ∃ prev_rec, prev_fide !! fide_id = Some prev_rec ∧ 0 < Fide.rating prev_rec).
Proof.
  intros H.
  set (get := Sample.get "2000" []).
  set (out := Sample.get_ok [] (scrape_ratings Sample.today get [Sample.row "FM"] Sample.pages)).
  destruct (H Sample.today get [Sample.row "FM"] Sample.pages out (Sample.first_record out)
              (Sample.get_ok ∅ (download_and_parse_fide_xml get FIDE_XML_URL))
              Sample.prev_url
              (Sample.get_ok ∅ (download_and_parse_fide_xml get Sample.prev_url))
              "123")
    as (prev_rec & Hprev & _).
  - apply get_ok_eq. vm_compute. reflexivity.
  - apply first_record_elem. vm_compute. lia.
  - apply get_ok_eq. vm_compute. reflexivity.
  - vm_compute. reflexivity.
  - apply get_ok_eq. vm_compute. reflexivity.
  - vm_compute. reflexivity.
  - vm_compute. eauto.
  - vm_compute. eauto.
  - vm_compute in Hprev. discriminate.
Qed.

(** C7.  For each of the keys [title], [country] and [birthday] of a roster
    entry, after the loop body: a non-empty roster value is still there;
    when the identifier is found in the current snapshot the value is the
    roster value if that is non-empty and the federation value otherwise;
    and the value differs from the roster value only when the roster value
    was empty, the federation value is non-empty, and it is that federation
    value.  This holds with [re] bound or not when the body starts. *)
Theorem backfill_keeps_roster_values current_fide prev_fide pages row bound player key v :
  roster_entry row = Some player → key ∈ backfill_keys → player !! key = Some v →
  ∃ bound' p',
    process_player current_fide prev_fide pages (Locals bound player)
    = (Ok (), Locals bound' p')
    ∧ (v ≠ "" → p' !! key = Some v)
    ∧ (∀ fide_id curr_rec,
         p' !! "fide_id" = Some fide_id → current_fide !! fide_id = Some curr_rec →
         p' !! key = Some (if Text.truthy v then v else fide_field key curr_rec))
    ∧ (p' !! key ≠ Some v →
       v = ""
       ∧ ∃ fide_id curr_rec,
           p' !! "fide_id" = Some fide_id ∧ current_fide !! fide_id = Some curr_rec
           ∧ fide_field key curr_rec ≠ ""
           ∧ p' !! key = Some (fide_field key curr_rec)).
Proof.
  intros Hrow Hkey Hv.
  destruct (process_player_roster current_fide prev_fide pages row bound player Hrow)
    as (p1 & bound' & p' & Hrun & Hp1 & Hnoid & _ & Hm).
  assert ((key ∉ knsb_keys) ∧ key ≠ "fide_id") as [Hk1 Hk2].
  { unfold backfill_keys in Hkey. split; [intros Hk|intros ->]; revert Hkey.
    - unfold knsb_keys in Hk.
      apply elem_of_cons in Hk as [-> | Hk];
        [|apply elem_of_cons in Hk as [-> | Hk]; [|by apply elem_of_nil in Hk]];
        compute_done.
    - compute_done. }
  assert (p1 !! key = Some v) as Hv1 by (by rewrite Hp1).
  exists bound', p'. split; [done|].
  destruct Hm as [|fid Hfid|fid rec Hfid].
  - split_and!; [done|congruence|done].
  - rewrite !lookup_insert_ne by done. rewrite lookup_insert_eq.
    split_and!; [done|congruence|done].
  - rewrite lookup_reconciled_id, (lookup_reconciled_backfill _ _ _ _ _ _ Hkey Hv1).
    split_and!.
    + by destruct v.
    + intros fide_id curr_rec [= <-] Hc. rewrite Hfid in Hc. by simplify_eq.
    + destruct v as [|c v]; [|done]. simpl. intros Hne. split; [done|].
      exists fid, rec. split_and!; [done..| |done]. congruence.
Qed.

Lemma backfill_keeps_roster_values_witness :
  let current_fide : gmap string Fide.record :=
    {["123" := {| Fide.rating := 2000; Fide.games := 3; Fide.title := "IM";
                  Fide.country := "NED"; Fide.birthday := "1990" |}]} in
  let player := default ∅ (roster_entry (Sample.row "FM")) in
  ∃ bound' p',
    process_player current_fide ∅ Sample.pages (Locals false player)
    = (Ok (), Locals bound' p')
    ∧ p' !! "title" = Some "FM".
Proof.
  intros current_fide player.
  destruct (backfill_keeps_roster_values current_fide ∅ Sample.pages
              (Sample.row "FM") false player "title" "FM")
    as (bound' & p' & Hrun & Hkeep & _);
    [reflexivity|compute_done|vm_compute; reflexivity|].
  exists bound', p'. split; [exact Hrun|by apply Hkeep].
Defined.

(** ** Profile text parser *)

(** C4.  A games text with a line break sets [games_played] to the text
    after the last line break without the whitespace at its two ends: for
    every way to write the text as [a], a line break and a [b] without line
    break, and for the [v] that has no whitespace at either end and sits in
    [b] between two runs of whitespace, the value written is [v]; and such
    [a], [b] and [v] exist.  A text without line break leaves the
    dictionary as it was, which for a roster entry means ["0"]. *)
Theorem games_block_games_played text bound player :
  (∀ a b v,
     text = a +:+ String Char.newline b → Text.contains Char.newline b = false →
     trim_of b v →
     games_block (Some text) (Locals bound player)
     = (Ok (), Locals bound (<["games_played" := v]> player)))
  ∧ (Text.contains Char.newline text = true →
     ∃ a b v, text = a +:+ String Char.newline b
              ∧ Text.contains Char.newline b = false ∧ trim_of b v)
  ∧ (Text.contains Char.newline text = false →
     games_block (Some text) (Locals bound player) = (Ok (), Locals bound player)
     ∧ ∀ row, roster_entry row = Some player → player !! "games_played" = Some "0")
  ∧ games_block (Some ("#Gespeeld" +:+ nl +:+ "5")) (Locals bound player)
    = (Ok (), Locals bound (<["games_played" := "5"]> player)).
Proof.
  split_and!.
  - intros a b v -> Hb (Hv & l & r & -> & Hl & Hr).
    rewrite games_block_newline by done. by rewrite strip_spec.
  - intros (a & b & -> & Hb)%contains_true_split.
    exists a, b, (Text.strip b). split_and!; [done..|].
    split; [apply strip_is_trimmed|apply strip_decompose].
  - intros Hno. split.
    + unfold games_block. by rewrite Hno.
    + intros row Hrow. by apply roster_entry_defaults in Hrow as [_ ?].
  - by rewrite (games_block_newline "#Gespeeld" "5").
Qed.

Lemma games_block_games_played_witness :
  games_block (Some ("Partijen" +:+ nl +:+ "#Gespeeld" +:+ nl +:+ " 12 "))
    (Locals false ∅)
  = (Ok (), Locals false (<["games_played" := "12"]> ∅)).
Proof.
  apply (games_block_games_played
           ("Partijen" +:+ nl +:+ "#Gespeeld" +:+ nl +:+ " 12 ") false ∅)
    with (a := "Partijen" +:+ nl +:+ "#Gespeeld") (b := " 12 ").
  - reflexivity.
  - reflexivity.
  - split.
    + split; intros c [= <-]; reflexivity.
    + exists " ", " ". split_and!; reflexivity.
Defined.

(** C10.  The text after the last line break is not checked to be a
    number: when it is only whitespace, or empty, [games_played] becomes
    the empty string; when it carries no whitespace at its ends it is
    stored as it is, whatever its characters.  The binding of [re] stays
    as it is. *)
Theorem games_block_not_validated a b bound player :
  Text.contains Char.newline b = false →
  (Text.all Char.isspace b = true →
   games_block (Some (a +:+ String Char.newline b)) (Locals bound player)
   = (Ok (), Locals bound (<["games_played" := ""]> player)))
  ∧ (trimmed b →
     games_block (Some (a +:+ String Char.newline b)) (Locals bound player)
     = (Ok (), Locals bound (<["games_played" := b]> player))).
Proof.
  intros Hb. rewrite games_block_newline by done. split.
  - intros Hsp. by rewrite strip_spaces.
  - intros Htr. by rewrite strip_trimmed.
Qed.

Lemma games_block_not_validated_witness :
  games_block (Some ("#Gespeeld" +:+ nl +:+ "  "))
    (Locals false (<["games_played" := "0"]> ∅))
  = (Ok (), Locals false (<["games_played" := ""]> (<["games_played" := "0"]> ∅)))
  ∧ games_block (Some ("#Gespeeld" +:+ nl +:+ "n.v.t.")) (Locals false ∅)
    = (Ok (), Locals false (<["games_played" := "n.v.t."]> ∅)).
Proof.
  split.
  - apply (games_block_not_validated "#Gespeeld" "  "); reflexivity.
  - apply (games_block_not_validated "#Gespeeld" "n.v.t."); [reflexivity|].
    split; intros c [= <-]; reflexivity.
Defined.

(** C3.  When the stripped calculation text ends with a sign, nothing or
    one whitespace character, and one or more digits, [rating_change]
    becomes the digits for a plus sign and the digits behind a minus for a
    minus sign; otherwise nothing is written and nothing is raised, so a
    roster entry keeps its ["0"], also for a text with an equals sign and
    no signed number behind it.  In each case the block has run line 185
    and leaves [re] bound. *)
Theorem calc_block_rating_change text bound player :
  (∀ val, ends_with_delta (Text.strip text) Char.plus val →
     calc_block (Some text) (Locals bound player)
     = (Ok (), Locals true (<["rating_change" := val]> player)))
  ∧ (∀ val, ends_with_delta (Text.strip text) Char.minus val →
       calc_block (Some text) (Locals bound player)
       = (Ok (), Locals true (<["rating_change" := "-" +:+ val]> player)))
  ∧ ((∀ sg val, is_sign sg → ¬ ends_with_delta (Text.strip text) sg val) →
     calc_block (Some text) (Locals bound player) = (Ok (), Locals true player)
     ∧ ∀ row, roster_entry row = Some player → player !! "rating_change" = Some "0").
Proof.
  split_and!.
  - intros val H. by rewrite (calc_block_match text bound player Char.plus val); [|left|].
  - intros val H. by rewrite (calc_block_match text bound player Char.minus val); [|right|].
  - intros Hno. split; [by apply calc_block_no_match|].
    intros row Hrow. by apply roster_entry_defaults in Hrow as [? _].
Qed.

Lemma calc_block_rating_change_witness :
  calc_block (Some ("Berekening" +:+ nl +:+ nl +:+ "2702=2692 + 10")) (Locals false ∅)
  = (Ok (), Locals true (<["rating_change" := "10"]> ∅))
  ∧ calc_block (Some ("Berekening" +:+ nl +:+ nl +:+ "2687=2692 - 5" +:+ nl))
      (Locals false ∅)
    = (Ok (), Locals true (<["rating_change" := "-5"]> ∅)).
Proof.
  split.
  - apply (calc_block_rating_change ("Berekening" +:+ nl +:+ nl +:+ "2702=2692 + 10")
             false ∅).
    exists ("Berekening" +:+ nl +:+ nl +:+ "2702=2692 "), " ".
    split_and!; [reflexivity| |reflexivity]. right. by exists " "%char.
  - apply (calc_block_rating_change
             ("Berekening" +:+ nl +:+ nl +:+ "2687=2692 - 5" +:+ nl) false ∅).
    exists ("Berekening" +:+ nl +:+ nl +:+ "2687=2692 "), " ".
    split_and!; [reflexivity| |reflexivity]. right. by exists " "%char.
Defined.

(** The three calculation texts of the specification, on a dictionary
    that holds the default. *)
Lemma calc_block_examples :
  let player : gmap string string := {["rating_change" := "0"]} in
  exec (calc_block (Some ("Berekening" +:+ nl +:+ nl +:+ "2702=2692 + 10"))) false player
  !! "rating_change" = Some "10"
  ∧ exec (calc_block (Some "2687=2692 - 5")) false player !! "rating_change" = Some "-5"
  ∧ exec (calc_block (Some ("Berekening" +:+ nl +:+ nl +:+ "2692="))) false player
    !! "rating_change" = Some "0".
Proof. vm_compute. auto. Qed.

(** The whitespace between sign and digits may be any one character of
    [\s], a tab for instance; two of them are one too many. *)
Lemma calc_block_whitespace :
  let player : gmap string string := {["rating_change" := "0"]} in
  exec (calc_block (Some ("2702=2692 +" +:+ String "009"%char "10"))) false player
  !! "rating_change" = Some "10"
  ∧ exec (calc_block (Some "2702=2692 +  10")) false player
    !! "rating_change" = Some "0".
Proof. vm_compute. auto. Qed.

(** ** Federation snapshot parser *)

Import Snapshot.



(** C6.  Every record of a parsed snapshot comes from a player element of
    the feed with that identifier.  Its rating and games are never
    negative: each is the number that the element's text denotes when that
    text is a decimal numeral (the rendering of the number, behind any
    number of zeros), and zero when the text denotes no number or is
    absent.  Its title, country and birthday are the element's texts, or
    empty when absent. *)
Theorem snapshot_records_coerced get url snap id rec :
  download_and_parse_fide_xml get url = Ok snap → snap !! id = Some rec →
  0 ≤ Fide.rating rec ∧ 0 ≤ Fide.games rec
  ∧ ∃ response z xml_filename root player,
      get url = Ok response ∧ content response = Ok z
      ∧ parse_member z xml_filename = Ok root
      ∧ player ∈ ET.findall "player" root
      ∧ field_text "fideid" player = Some id
      ∧ stored_as (field_text "rating" player) (Fide.rating rec)
      ∧ stored_as (field_text "games" player) (Fide.games rec)
      ∧ Fide.title rec = default "" (field_text "title" player)
      ∧ Fide.country rec = default "" (field_text "country" player)
      ∧ Fide.birthday rec = default "" (field_text "birthday" player).
Proof.
  intros Hsnap Hrec.
  destruct (download_cases get url)
    as [E | (response & z & name & root & snap' & Hget & _ & Hz & _ & Hroot & Hparse & E)];
    rewrite E in Hsnap; injection Hsnap as <-.
  { by rewrite lookup_empty in Hrec. }
  destruct (parse_players_entries _ _ _ _ _ Hparse Hrec)
    as [Hempty | (q & Hq & _ & Hid & _ & ->)].
  { by rewrite lookup_empty in Hempty. }
  simpl. split_and!; [apply coerce_int_nonneg..|].
  exists response, z, name, root, q.
  split_and!; try done; apply NumFacts.coerce_int_stored.
Qed.

Lemma snapshot_records_coerced_witness :
  let get := Sample.get "2000"
               [Sample.xml_player (Some "123") (Some "01980") (Some "n/a") None] in
  let snap := Sample.get_ok ∅ (download_and_parse_fide_xml get Sample.prev_url) in
  ∃ rec, snap !! "123" = Some rec
         ∧ Fide.rating rec = 1980 ∧ Fide.games rec = 0 ∧ Fide.title rec = ""
         ∧ 0 ≤ Fide.rating rec ∧ 0 ≤ Fide.games rec.
Proof.
  intros get snap.
  exists {| Fide.rating := 1980; Fide.games := 0; Fide.title := "";
            Fide.country := "NED"; Fide.birthday := "1990" |}.
  assert (snap !! "123"
          = Some {| Fide.rating := 1980; Fide.games := 0; Fide.title := "";
                    Fide.country := "NED"; Fide.birthday := "1990" |}) as Hrec
    by (vm_compute; reflexivity).
  assert (download_and_parse_fide_xml get Sample.prev_url = Ok snap) as Hsnap
    by (apply get_ok_eq; vm_compute; reflexivity).
  destruct (snapshot_records_coerced get Sample.prev_url snap "123" _ Hsnap Hrec)
    as (Hr & Hg & _).
  split_and!; [exact Hrec|reflexivity|reflexivity|reflexivity|exact Hr|exact Hg].
Defined.

(** C8.  [download_and_parse_fide_xml] always returns a snapshot, and the
    empty one when the request raises, the status is not 200, the content
    is not an archive, the archive has no XML member, the XML does not
    parse or the loop over the players raises; against an empty current
    snapshot no roster entry gets federation fields, with [re] bound or
    not. *)
Theorem download_never_raises get url :
  (∃ snap, download_and_parse_fide_xml get url = Ok snap)
  ∧ (∀ e, get url = Raise e → download_and_parse_fide_xml get url = Ok ∅)
  ∧ (∀ response, get url = Ok response →
       (status_code response ≠ 200 → download_and_parse_fide_xml get url = Ok ∅)
       ∧ (∀ e, content response = Raise e →
               download_and_parse_fide_xml get url = Ok ∅)
       ∧ (∀ z, content response = Ok z →
            (∀ e, first_item (filter (λ name, Text.endswith ".xml" name = true)
                                (namelist z)) = Raise e →
                  download_and_parse_fide_xml get url = Ok ∅)
            ∧ (∀ xml_filename,
                 first_item (filter (λ name, Text.endswith ".xml" name = true)
                               (namelist z)) = Ok xml_filename →
                 (∀ e, parse_member z xml_filename = Raise e →
                       download_and_parse_fide_xml get url = Ok ∅)
                 ∧ (∀ root e,
                      parse_member z xml_filename = Ok root →
                      parse_players (ET.findall "player" root) ∅ = Raise e →
                      download_and_parse_fide_xml get url = Ok ∅))))
  ∧ (∀ prev_fide pages row bound player,
       roster_entry row = Some player →
       ∃ bound' p',
         process_player ∅ prev_fide pages (Locals bound player)
         = (Ok (), Locals bound' p')
         ∧ p' !! "fide_rating" = None ∧ p' !! "fide_games" = None
         ∧ p' !! "fide_change" = None).
Proof.
  split_and!.
  - apply download_returns.
  - intros e E. unfold download_and_parse_fide_xml. by rewrite E.
  - intros response Hget. unfold download_and_parse_fide_xml. rewrite Hget. simpl.
    split_and!.
    + intros Hst. apply Z.eqb_neq in Hst. by rewrite Hst.
    + intros e E. rewrite E. by destruct (status_code response =? 200).
    + intros z Hz. rewrite Hz. simpl. split.
      * intros e E. rewrite E. by destruct (status_code response =? 200).
      * intros name Hname. rewrite Hname. simpl. split.
        -- intros e E. rewrite E. by destruct (status_code response =? 200).
        -- intros root e Hroot E. rewrite Hroot. simpl. rewrite E.
           by destruct (status_code response =? 200).
  - intros prev_fide pages row bound player Hrow.
    destruct (process_player_roster ∅ prev_fide pages row bound player Hrow)
      as (p1 & bound' & p' & Hrun & Hp1 & _ & Hch & Hm).
    apply roster_entry_keys in Hrow as (_ & _ & Hr & Hg & _).
    assert (p1 !! "fide_rating" = None) as Hr1 by (rewrite Hp1; [done|compute_done]).
    assert (p1 !! "fide_games" = None) as Hg1 by (rewrite Hp1; [done|compute_done]).
    exists bound', p'. split; [done|].
    destruct Hm as [|fid Hfid|fid rec Hfid].
    + done.
    + by rewrite !lookup_insert_ne.
    + by rewrite lookup_empty in Hfid.
Qed.

Lemma download_never_raises_witness :
  download_and_parse_fide_xml (Sample.get "2000" [])
    "https://ratings.fide.com/download/standard_xyz00frl_xml.zip" = Ok ∅.
Proof.
  apply (download_never_raises (Sample.get "2000" [])
           "https://ratings.fide.com/download/standard_xyz00frl_xml.zip")
    with (e := RequestException).
  reflexivity.
Defined.

(** ** Period URL derivation *)

Import DateFacts.

(** C9.  For every date but those of January of the first year, which has
    no previous month: the first of the month minus one day is the last day
    of the previous month, of the previous year when the month is January,
    and [get_previous_period_url] returns the URL template filled with the
    lower-case abbreviation of that month and the two digits of that year;
    in January of year Y this is the December list of year Y - 1. *)
Theorem previous_period_url today :
  datetime.valid today →
  ¬ (datetime.year today = datetime.MINYEAR ∧ datetime.month today = 1) →
  let '(py, pm) := previous_month (datetime.year today) (datetime.month today) in
  (∃ first_of_month,
     datetime.replace_day today 1 = Ok first_of_month
     ∧ datetime.sub_days first_of_month 1
       = Ok {| datetime.year := py; datetime.month := pm;
               datetime.day := datetime._days_in_month py pm |})
  ∧ get_previous_period_url today
    = Ok ("https://ratings.fide.com/download/standard_"
          +:+ month_abbrev pm +:+ two_digit_year py +:+ "frl_xml.zip")
  ∧ (datetime.month today = 1 →
     get_previous_period_url today
     = Ok ("https://ratings.fide.com/download/standard_dec"
           +:+ two_digit_year (datetime.year today - 1) +:+ "frl_xml.zip")).
Proof.
  intros Hvalid Hfirst.
  destruct (first_of_month_minus_one today Hvalid Hfirst) as (first & Hrep & Hsub).
  assert (1 ≤ (previous_month (datetime.year today) (datetime.month today)).2 ≤ 12) as Hpm.
  { destruct Hvalid as (_ & Hm & _). unfold previous_month.
    destruct (Z.eqb_spec (datetime.month today) 1); simpl; lia. }
  destruct (previous_month (datetime.year today) (datetime.month today)) as [py pm] eqn:Hprev.
  assert (get_previous_period_url today
          = Ok ("https://ratings.fide.com/download/standard_"
                +:+ month_abbrev pm +:+ two_digit_year py +:+ "frl_xml.zip")) as Hurl.
  { unfold get_previous_period_url. rewrite Hrep. simpl. rewrite Hsub. simpl.
    by rewrite lower_strftime_b, strftime_y_two_digits. }
  split_and!; [by exists first|done|].
  intros Hjan. rewrite Hurl. unfold previous_month in Hprev. rewrite Hjan in Hprev.
  simpl in Hprev. by simplify_eq.
Qed.

Lemma previous_period_url_witness :
  get_previous_period_url Sample.today
  = Ok "https://ratings.fide.com/download/standard_dec25frl_xml.zip".
Proof.
  assert (datetime.valid Sample.today) as Hvalid by (vm_compute; intuition discriminate).
  assert (¬ (datetime.year Sample.today = datetime.MINYEAR
             ∧ datetime.month Sample.today = 1)) as Hfirst
    by (intros [? _]; discriminate).
  exact (proj2 (proj2 (previous_period_url Sample.today Hvalid Hfirst)) eq_refl).
Defined.

(** * Further properties *)

Import Flow.

(** ** The roster and the run as a whole *)

(** X1.  The rows that lack the name link or the rating give no entry;
    the others give one entry each, in the order of the rows. *)
Theorem roster_rows_kept rows :
  Forall2 (λ row p, roster_entry row = Some p)
    (filter (λ row, kept row = true) rows) (omap roster_entry rows)
  ∧ length (omap roster_entry rows) = length (filter (λ row, kept row = true) rows)
  ∧ Forall (λ row, kept row = false → roster_entry row = None) rows.
Proof.
  pose proof (roster_entries_kept rows) as H.
  split_and!; [done|by apply Forall2_length in H|].
  apply Forall_forall. intros row _ Hk.
  destruct (roster_entry row) eqn:E; [|done].
  assert (kept row = true) by (apply roster_entry_kept; eauto). congruence.
Qed.

(** X2.  Once the URL of the previous period is derived, [scrape_ratings]
    returns, whatever the feeds and the profile pages do: both downloads
    return, and the list holds one record per roster entry, in order: the
    cleaned-up dictionary after the loop body, run on that entry with [re]
    bound exactly when the page of an earlier entry has got as far as
    line 185. *)
Theorem scrape_ratings_returns today get rows pages prev_url :
  get_previous_period_url today = Ok prev_url →
  ∃ current_fide prev_fide out,
    download_and_parse_fide_xml get FIDE_XML_URL = Ok current_fide
    ∧ download_and_parse_fide_xml get prev_url = Ok prev_fide
    ∧ scrape_ratings today get rows pages = Ok out
    ∧ length out = length (filter (λ row, kept row = true) rows)
    ∧ ∀ i player,
        omap roster_entry rows !! i = Some player →
        ∃ bound' p',
          process_player current_fide prev_fide pages
            (Locals (bound_after pages false (take i (omap roster_entry rows))) player)
          = (Ok (), Locals bound' p')
          ∧ out !! i = Some (cleanup p').
Proof.
  intros Hurl.
  destruct (download_returns get FIDE_XML_URL) as [cur Hcur].
  destruct (download_returns get prev_url) as [prev Hprev].
  exists cur, prev,
    (map cleanup (enriched_all cur prev pages false (omap roster_entry rows))).
  split_and!; [done..| | |].
  - unfold scrape_ratings. rewrite Hcur, Hurl. simpl. rewrite Hprev. simpl.
    by rewrite (process_players_enriched _ _ _ _ _ (roster_entries_keys rows)).
  - rewrite length_map, enriched_all_length.
    pose proof (roster_entries_kept rows) as H. by apply Forall2_length in H.
  - intros i player Hi.
    pose proof (Forall_lookup_1 _ _ _ _ (roster_entries_keys rows) Hi) as Hkeys.
    eexists _, _. split; [by apply process_player_enriched|].
    by rewrite list_lookup_fmap, (enriched_all_lookup _ _ _ _ _ _ _ Hi).
Qed.

Lemma scrape_ratings_returns_witness :
  ∃ current_fide prev_fide out,
    download_and_parse_fide_xml (Sample.get "2000" []) FIDE_XML_URL = Ok current_fide
    ∧ download_and_parse_fide_xml (Sample.get "2000" []) Sample.prev_url = Ok prev_fide
    ∧ scrape_ratings Sample.today (Sample.get "2000" []) [Sample.row "FM"] Sample.pages
      = Ok out
    ∧ length out = length (filter (λ row, kept row = true) [Sample.row "FM"])
    ∧ ∀ i player,
        omap roster_entry [Sample.row "FM"] !! i = Some player →
        ∃ bound' p',
          process_player current_fide prev_fide Sample.pages
            (Locals (bound_after Sample.pages false
                       (take i (omap roster_entry [Sample.row "FM"]))) player)
          = (Ok (), Locals bound' p')
          ∧ out !! i = Some (cleanup p').
Proof.
  apply (scrape_ratings_returns Sample.today (Sample.get "2000" []) [Sample.row "FM"]
           Sample.pages Sample.prev_url).
  vm_compute. reflexivity.
Defined.

(** X3.  Every emitted record has the nine roster keys, has no
    [_full_profile_url], and has no key beyond the nine and the four
    federation keys. *)
Theorem emitted_record_keys today get rows pages out rec :
  scrape_ratings today get rows pages = Ok out → rec ∈ out →
  (∀ k, k ∈ roster_keys → is_Some (rec !! k))
  ∧ rec !! "_full_profile_url" = None
  ∧ (∀ k, is_Some (rec !! k) → k ∈ roster_keys ++ federation_keys).
Proof.
  intros Hout Hrec.
  destruct (scrape_ratings_emitted _ _ _ _ _ _ Hout Hrec)
    as (cur & url & prev & row & player & b & b' & p' & _ & _ & _ & _ & Hrow & Hrun & ->).
  pose proof (grows_process_player cur prev pages b player) as Hgrow.
  pose proof (modifies_process_player cur prev pages b player) as Hframe.
  unfold exec in Hgrow, Hframe. rewrite Hrun in Hgrow, Hframe. simpl in Hgrow, Hframe.
  split_and!.
  - intros k Hk. rewrite lookup_cleanup by (intros ->; revert Hk; compute_done).
    apply Hgrow, (roster_entry_dom row); [done|]. by apply list_elem_of_further.
  - apply lookup_delete_eq.
  - intros k Hk. destruct (decide (k = "_full_profile_url")) as [-> | Hne].
    { unfold cleanup in Hk. rewrite lookup_delete_eq in Hk. by destruct Hk. }
    rewrite lookup_cleanup in Hk by done.
    destruct (decide (k ∈ written_keys)) as [Hw | Hw].
    + by apply written_keys_emitted.
    + rewrite Hframe in Hk by done.
      apply (roster_entry_dom row) in Hk; [|done].
      apply elem_of_cons in Hk as [-> | Hk]; [done|].
      apply elem_of_app. by left.
Qed.

Lemma emitted_record_keys_witness :
  let out := Sample.get_ok [] (scrape_ratings Sample.today (Sample.get "2000" [])
                                 [Sample.row "FM"] Sample.pages) in
  Sample.first_record out !! "_full_profile_url" = None.
Proof.
  intros out.
  apply (emitted_record_keys Sample.today (Sample.get "2000" []) [Sample.row "FM"]
           Sample.pages out (Sample.first_record out)).
  - apply get_ok_eq. vm_compute. reflexivity.
  - apply first_record_elem. vm_compute. lia.
Defined.

(** X4.  The name, the profile URL, the displayed rating and the gender of
    a row reach the emitted record as the roster extractor set them: the
    link text, the site address followed by the link target, and the
    stripped cell texts; with [re] bound or not when the body starts. *)
Theorem identity_fields_pass_through current_fide prev_fide pages row bound
    name href rating :
  name_el row = Some (name, href) → rating_el row = Some rating →
  ∃ player bound' p',
    roster_entry row = Some player
    ∧ process_player current_fide prev_fide pages (Locals bound player)
      = (Ok (), Locals bound' p')
    ∧ cleanup p' !! "name" = Some name
    ∧ cleanup p' !! "profile_url" = Some ("https://ratingviewer.nl" +:+ fmt_opt href)
    ∧ cleanup p' !! "current_rating" = Some (Text.strip rating)
    ∧ cleanup p' !! "gender" = Some (text_or_empty (sex_el row)).
Proof.
  intros Hname Hrating.
  destruct (roster_entry row) as [player|] eqn:Hrow;
    [|unfold roster_entry in Hrow; by rewrite Hname, Hrating in Hrow].
  pose proof Hrow as (Hkeys & _)%roster_entry_keys.
  eexists player, _, (enriched current_fide prev_fide pages bound player).
  split_and!; [done|by apply process_player_enriched|..];
    rewrite lookup_cleanup by done;
    rewrite enriched_frame by (done || compute_done);
    unfold roster_entry in Hrow; rewrite Hname, Hrating in Hrow;
    injection Hrow as <-; by simplify_map_eq.
Qed.

Lemma identity_fields_pass_through_witness :
  ∃ player bound' p',
    roster_entry (Sample.row "FM") = Some player
    ∧ process_player ∅ ∅ Sample.pages (Locals false player) = (Ok (), Locals bound' p')
    ∧ cleanup p' !! "name" = Some "Jan Doe"
    ∧ cleanup p' !! "profile_url" = Some "https://ratingviewer.nl/players/8000001"
    ∧ cleanup p' !! "current_rating" = Some "1800"
    ∧ cleanup p' !! "gender" = Some "M".
Proof.
  exact (identity_fields_pass_through ∅ ∅ Sample.pages (Sample.row "FM") false
           "Jan Doe" (Some "/players/8000001") " 1800 " eq_refl eq_refl).
Defined.

(** X5.  When the profile page cannot be opened the loop body still
    returns and leaves the roster entry as it was: the defaults ["0"] and no
    federation key; the binding of [re] stays as it is. *)
Theorem failed_profile_fetch_keeps_entry current_fide prev_fide pages row bound
    player url e :
  roster_entry row = Some player → player !! "_full_profile_url" = Some url →
  goto (pages url) = Raise e →
  process_player current_fide prev_fide pages (Locals bound player)
  = (Ok (), Locals bound player)
  ∧ player !! "rating_change" = Some "0" ∧ player !! "games_played" = Some "0"
  ∧ Forall (λ k, player !! k = None) federation_keys.
Proof.
  intros Hrow Hurl Hgoto.
  pose proof Hrow as (Hkeys & Hid & Hr & Hg & Hc)%roster_entry_keys.
  pose proof Hrow as [? ?]%roster_entry_defaults.
  rewrite (process_player_outcome _ _ _ _ _ url Hkeys Hurl).
  unfold body_outcome, binds. rewrite Hgoto, orb_false_r. split_and!; [done..|].
  unfold federation_keys. by repeat constructor.
Qed.

Lemma failed_profile_fetch_keeps_entry_witness :
  let player := default ∅ (roster_entry (Sample.row "FM")) in
  process_player ∅ ∅ (λ _, {| goto := Raise PlaywrightError; wait_for_table := Ok ();
                               games_cell := Ok None; calc_cell := Ok None;
                               fide_link := Ok None |}) (Locals false player)
  = (Ok (), Locals false player).
Proof.
  intros player.
  apply (failed_profile_fetch_keeps_entry ∅ ∅ _ (Sample.row "FM") false player
           "https://ratingviewer.nl/players/8000001" PlaywrightError);
    [reflexivity|vm_compute; reflexivity|reflexivity].
Defined.

(** X6.  The federation fields and the backfilled fields of a roster entry
    depend on the text cells of the profile page through the binding of
    [re] only: two pages that open alike, carry the same federation link
    and agree on whether [re] is bound after step 1 (it was bound before,
    or both get as far as line 185, or neither does) give dictionaries
    that differ at most in [games_played] and [rating_change]. *)
Theorem federation_fields_ignore_text_cells current_fide prev_fide pages pages' row
    bound player :
  roster_entry row = Some player →
  (∀ url, goto (pages url) = goto (pages' url)
          ∧ fide_link (pages url) = fide_link (pages' url)
          ∧ bound || imports (pages url) = bound || imports (pages' url)) →
  ∃ b1 p1 b2 p2,
    process_player current_fide prev_fide pages (Locals bound player)
    = (Ok (), Locals b1 p1)
    ∧ process_player current_fide prev_fide pages' (Locals bound player)
      = (Ok (), Locals b2 p2)
    ∧ ∀ k, k ∉ knsb_keys → p1 !! k = p2 !! k.
Proof.
  intros Hrow Hpages.
  pose proof Hrow as (Hkeys & _)%roster_entry_keys.
  pose proof Hkeys as (_ & [url Hurl] & Ht & Hc & Hb).
  rewrite !(process_player_outcome _ _ _ _ _ url Hkeys Hurl).
  eexists _, _, _, _. split_and!; [done..|].
  destruct (Hpages url) as (Hgoto & Hlink & Hre). unfold body_outcome.
  rewrite <- Hgoto, <- Hre.
  destruct (goto (pages url)); [|done].
  apply fide_outcome_agree; [done|apply knsb_outcome_agree|..];
    by rewrite knsb_outcome_frame by compute_done.
Qed.

Lemma federation_fields_ignore_text_cells_witness :
  let player := default ∅ (roster_entry (Sample.row "")) in
  ∃ b1 p1 b2 p2,
    process_player ∅ ∅ Sample.pages (Locals false player) = (Ok (), Locals b1 p1)
    ∧ process_player ∅ ∅ (λ _, Sample.page "" "") (Locals false player)
      = (Ok (), Locals b2 p2)
    ∧ p1 !! "fide_id" = p2 !! "fide_id".
Proof.
  intros player.
  destruct (federation_fields_ignore_text_cells ∅ ∅ Sample.pages (λ _, Sample.page "" "")
              (Sample.row "") false player eq_refl)
    as (b1 & p1 & b2 & p2 & H1 & H2 & H).
  - intros url. split_and!; reflexivity.
  - exists b1, p1, b2, p2. split_and!; [done..|]. apply H. compute_done.
Defined.

(** X7.  Conversely [games_played] and [rating_change] do not depend on
    the federation snapshots, and neither does the binding of [re] that
    the loop body leaves. *)
Theorem text_fields_ignore_snapshots current_fide prev_fide current_fide' prev_fide'
    pages row bound player :
  roster_entry row = Some player →
  ∃ bound' p1 p2,
    process_player current_fide prev_fide pages (Locals bound player)
    = (Ok (), Locals bound' p1)
    ∧ process_player current_fide' prev_fide' pages (Locals bound player)
      = (Ok (), Locals bound' p2)
    ∧ p1 !! "games_played" = p2 !! "games_played"
    ∧ p1 !! "rating_change" = p2 !! "rating_change".
Proof.
  intros Hrow.
  pose proof Hrow as (Hkeys & _)%roster_entry_keys.
  pose proof Hkeys as (_ & [url Hurl] & _).
  rewrite !(process_player_outcome _ _ _ _ _ url Hkeys Hurl).
  eexists _, _, _. split_and!; [done..| |]; unfold body_outcome;
    destruct (goto (pages url)); try done;
    by rewrite !lookup_fide_outcome_frame by compute_done.
Qed.

Lemma text_fields_ignore_snapshots_witness :
  let player := default ∅ (roster_entry (Sample.row "")) in
  ∃ bound' p1 p2,
    process_player ∅ ∅ Sample.pages (Locals false player) = (Ok (), Locals bound' p1)
    ∧ process_player
        {["123" := {| Fide.rating := 2000; Fide.games := 3; Fide.title := "IM";
                      Fide.country := "NED"; Fide.birthday := "1990" |}]}
        ∅ Sample.pages (Locals false player) = (Ok (), Locals bound' p2)
    ∧ p1 !! "games_played" = p2 !! "games_played"
    ∧ p1 !! "rating_change" = p2 !! "rating_change".
Proof.
  intros player.
  exact (text_fields_ignore_snapshots ∅ ∅ _ ∅ Sample.pages (Sample.row "") false player
           eq_refl).
Defined.

(** ** The identity matcher *)

Import IdFacts.

(** X8.  The identifier search returns the digits of the first place where
    ["profile/"] is followed by a decimal digit, all of them up to the next
    character that is not one, and returns nothing exactly when the text
    has no such place. *)
Theorem search_profile_spec s :
  (∀ id, Re.search_profile s = Some id →
     is_numeral id = true
     ∧ ∃ pre post, s = pre +:+ "profile/" +:+ id +:+ post
                   ∧ (∀ c, first_char post = Some c → Char.is_decimal c = false)
                   ∧ ¬ has_profile_id pre)
  ∧ (Re.search_profile s = None ↔ ¬ has_profile_id s).
Proof.
  split; [intros id; apply search_profile_sound|]. split.
  - intros Hnone [id Hid]%search_profile_complete. congruence.
  - apply search_profile_spec_None.
Qed.

Lemma search_profile_spec_witness :
  is_numeral "2805677" = true
  ∧ ∃ pre post,
      "https://ratings.fide.com/profile/2805677/chart"
      = pre +:+ "profile/" +:+ "2805677" +:+ post
      ∧ (∀ c, first_char post = Some c → Char.is_decimal c = false)
      ∧ ¬ has_profile_id pre.
Proof.
  apply (search_profile_spec "https://ratings.fide.com/profile/2805677/chart").
  reflexivity.
Defined.

(** X9.  The [fide_id] of an emitted record is a non-empty string of
    decimal digits. *)
Theorem emitted_fide_id_numeral today get rows pages out rec fide_id :
  scrape_ratings today get rows pages = Ok out → rec ∈ out →
  rec !! "fide_id" = Some fide_id → is_numeral fide_id = true.
Proof.
  intros Hout Hrec Hid.
  destruct (scrape_ratings_emitted _ _ _ _ _ _ Hout Hrec)
    as (cur & url0 & prev & row & player & b & b' & p' & _ & _ & _ & _ & Hrow & Hrun & ->).
  pose proof Hrow as (Hkeys & Hnoid & _)%roster_entry_keys.
  pose proof Hkeys as (_ & [url Hurl] & _).
  rewrite (process_player_outcome _ _ _ _ _ url Hkeys Hurl) in Hrun.
  injection Hrun as _ <-. rewrite lookup_cleanup in Hid by done.
  unfold body_outcome in Hid. destruct (goto (pages url)); [|congruence].
  apply fide_outcome_id in Hid as (_ & link & _ & Hsearch);
    [|by rewrite knsb_outcome_frame by compute_done].
  by apply search_profile_sound in Hsearch as [? _].
Qed.

Lemma emitted_fide_id_numeral_witness :
  let out := Sample.get_ok [] (scrape_ratings Sample.today (Sample.get "2000" [])
                                 [Sample.row "FM"] Sample.pages) in
  Sample.first_record out !! "fide_id" = Some "123" ∧ is_numeral "123" = true.
Proof.
  intros out.
  assert (Sample.first_record out !! "fide_id" = Some "123") as Hid
    by (vm_compute; reflexivity).
  split; [exact Hid|].
  apply (emitted_fide_id_numeral Sample.today (Sample.get "2000" []) [Sample.row "FM"]
           Sample.pages out (Sample.first_record out) "123"); [| |exact Hid].
  - apply get_ok_eq. vm_compute. reflexivity.
  - apply first_record_elem. vm_compute. lia.
Defined.

(** X10.  With [re] bound when the link is searched (it was bound before
    the body, or step 1 has got as far as line 185), an identifier that is
    extracted but not found in the current snapshot is recorded under
    [fide_id] and nothing else follows: no rating, games or change, and
    title, country and birthday stay as the roster has them. *)
Theorem identifier_not_in_current_list current_fide prev_fide pages row bound player url
    fide_url fide_id :
  roster_entry row = Some player → player !! "_full_profile_url" = Some url →
  goto (pages url) = Ok () → fide_link (pages url) = Ok (Some fide_url) →
  bound = true ∨ imports (pages url) = true →
  Re.search_profile fide_url = Some fide_id → current_fide !! fide_id = None →
  ∃ p',
    process_player current_fide prev_fide pages (Locals bound player)
    = (Ok (), Locals true p')
    ∧ p' !! "fide_id" = Some fide_id
    ∧ p' !! "fide_rating" = None ∧ p' !! "fide_games" = None
    ∧ p' !! "fide_change" = None
    ∧ Forall (λ k, p' !! k = player !! k) backfill_keys.
Proof.
  intros Hrow Hurl Hgoto Hlink Hre Hsearch Hcur.
  pose proof Hrow as (Hkeys & Hid & Hr & Hg & Hc)%roster_entry_keys.
  rewrite (process_player_outcome _ _ _ _ _ url Hkeys Hurl).
  assert (bound || imports (pages url) = true) as Hb
    by (destruct Hre as [-> | ->]; [done|apply orb_true_r]).
  unfold binds. rewrite Hgoto, Hb.
  eexists. split; [done|].
  unfold body_outcome, fide_outcome. rewrite Hgoto, Hlink, Hb, Hsearch, Hcur.
  rewrite lookup_insert_eq, !lookup_insert_ne by done.
  rewrite !knsb_outcome_frame by compute_done.
  split_and!; [done..|]. unfold backfill_keys.
  repeat constructor; rewrite lookup_insert_ne by done;
    by rewrite knsb_outcome_frame by compute_done.
Qed.

Lemma identifier_not_in_current_list_witness :
  let player := default ∅ (roster_entry (Sample.row "FM")) in
  ∃ p', process_player ∅ ∅ Sample.pages (Locals false player) = (Ok (), Locals true p')
        ∧ p' !! "fide_id" = Some "123" ∧ p' !! "fide_rating" = None.
Proof.
  intros player.
  destruct (identifier_not_in_current_list ∅ ∅ Sample.pages (Sample.row "FM") false player
              "https://ratingviewer.nl/players/8000001"
              "https://ratings.fide.com/profile/123" "123")
    as (p' & H & Hid & Hr & _);
    [reflexivity|vm_compute; reflexivity|reflexivity|reflexivity
    |right; reflexivity|reflexivity|reflexivity|].
  by exists p'.
Defined.

(** X11.  Without a federation link, with a link that cannot be read, or
    with a link in which ["profile/"] is nowhere followed by a digit, the
    record gets none of the federation keys and its title, country and
    birthday stay as the roster has them, with [re] bound or not. *)
Theorem no_identifier_no_federation_fields current_fide prev_fide pages row bound
    player url :
  roster_entry row = Some player → player !! "_full_profile_url" = Some url →
  (fide_link (pages url) = Ok None
   ∨ (∃ e, fide_link (pages url) = Raise e)
   ∨ (∃ fide_url, fide_link (pages url) = Ok (Some fide_url)
                  ∧ ¬ has_profile_id fide_url)) →
  ∃ bound' p',
    process_player current_fide prev_fide pages (Locals bound player)
    = (Ok (), Locals bound' p')
    ∧ Forall (λ k, p' !! k = None) federation_keys
    ∧ Forall (λ k, p' !! k = player !! k) backfill_keys.
Proof.
  intros Hrow Hurl Hlink.
  pose proof Hrow as (Hkeys & Hid & Hr & Hg & Hc)%roster_entry_keys.
  rewrite (process_player_outcome _ _ _ _ _ url Hkeys Hurl).
  eexists _, _. split; [done|].
  assert (body_outcome current_fide prev_fide (pages url) bound player = player
          ∨ body_outcome current_fide prev_fide (pages url) bound player
            = knsb_outcome (pages url) player) as [-> | ->].
  { unfold body_outcome, fide_outcome. destruct (goto (pages url)); [|by left]. right.
    destruct Hlink as [-> | [[e ->] | (fide_url & -> & Hno)]]; [done..|].
    assert (Re.search_profile fide_url = None) as -> by (by apply search_profile_spec_None).
    by destruct (bound || imports (pages url)). }
  - unfold federation_keys, backfill_keys. split; by repeat constructor.
  - unfold federation_keys, backfill_keys.
    split; repeat constructor; by rewrite knsb_outcome_frame by compute_done.
Qed.

Lemma no_identifier_no_federation_fields_witness :
  let player := default ∅ (roster_entry (Sample.row "FM")) in
  let pages := λ _ : string,
    {| goto := Ok (); wait_for_table := Ok (); games_cell := Ok None;
       calc_cell := Ok None;
       fide_link := Ok (Some "https://ratings.fide.com/profile/") |} in
  ∃ bound' p', process_player ∅ ∅ pages (Locals false player) = (Ok (), Locals bound' p')
               ∧ Forall (λ k, p' !! k = None) federation_keys.
Proof.
  intros player pages.
  destruct (no_identifier_no_federation_fields ∅ ∅ pages (Sample.row "FM") false player
              "https://ratingviewer.nl/players/8000001")
    as (bound' & p' & H & Hnone & _);
    [reflexivity|vm_compute; reflexivity| |by exists bound', p'].
  right. right. exists "https://ratings.fide.com/profile/". split; [reflexivity|].
  intros [id Hid]%search_profile_complete. vm_compute in Hid. discriminate.
Defined.

(** ** The snapshot parser *)

(** X12.  When the loop over the player elements returns, the
    identifiers of the snapshot are exactly the non-empty identifier texts
    of the elements; the empty string is never a key. *)
Theorem snapshot_identifiers players snap :
  parse_players players ∅ = Ok snap →
  (∀ id, is_Some (snap !! id)
         ↔ ∃ q, q ∈ players ∧ field_text "fideid" q = Some id ∧ id ≠ "")
  ∧ snap !! "" = None.
Proof.
  intros Hsnap.
  assert (∀ id, is_Some (snap !! id)
                → ∃ q, q ∈ players ∧ field_text "fideid" q = Some id ∧ id ≠ "") as Hdom.
  { intros id [rec Hrec].
    destruct (parse_players_entries _ _ _ _ _ Hsnap Hrec)
      as [Hempty | (q & Hq & _ & Hid & Hne & _)].
    - by rewrite lookup_empty in Hempty.
    - by exists q. }
  split.
  - intros id. split; [apply Hdom|].
    intros (q & Hq & Hid & Hne). by eapply parse_players_stores.
  - destruct (snap !! "") eqn:E; [|done].
    destruct (Hdom "") as (q & _ & _ & Hne); [eauto|done].
Qed.

Lemma snapshot_identifiers_witness :
  let players := [Sample.xml_player None (Some "1500") (Some "2") None;
                  Sample.xml_player (Some "123") (Some "1980") (Some "0") None] in
  Sample.get_ok ∅ (parse_players players ∅) !! "" = None.
Proof.
  intros players.
  apply (snapshot_identifiers players (Sample.get_ok ∅ (parse_players players ∅))).
  apply get_ok_eq. vm_compute. reflexivity.
Defined.

(** X13.  When two player elements carry the same identifier, the
    snapshot holds the record of the later one. *)
Theorem snapshot_last_record_wins before q after snap id :
  parse_players (before ++ q :: after) ∅ = Ok snap →
  field_text "fideid" q = Some id → id ≠ "" →
  Forall (λ q', field_text "fideid" q' ≠ Some id) after →
  snap !! id = Some (record_of q).
Proof.
  rewrite parse_players_app. intros Hsnap Hid Hne Hl2.
  destruct (parse_players before ∅) as [d|]; [|done]. simpl in Hsnap.
  destruct (parse_player q d) as [d'|] eqn:Hq; [|done]. simpl in Hsnap.
  apply parse_player_Ok in Hq as [_ [[[Hu | Hu] _]|(i & Hi & _ & ->)]];
    [congruence..|].
  rewrite Hid in Hi. injection Hi as <-.
  assert (<[id := record_of q]> d !! id = Some (record_of q)) as Hd
    by apply lookup_insert_eq.
  revert Hsnap Hd. generalize (<[id := record_of q]> d). clear d.
  induction Hl2 as [|q' after Hq' _ IH]; intros d; simpl.
  - by intros [= <-].
  - destruct (parse_player q' d) as [d'|] eqn:E; [|done]. simpl.
    intros Hsnap Hd. apply (IH d' Hsnap).
    apply parse_player_Ok in E as [_ [[_ ->]|(i & Hi & _ & ->)]]; [done|].
    rewrite lookup_insert_ne; [done|]. congruence.
Qed.

Lemma snapshot_last_record_wins_witness :
  let first := Sample.xml_player (Some "123") (Some "1900") (Some "1") None in
  let last := Sample.xml_player (Some "123") (Some "1980") (Some "0") (Some "FM") in
  Sample.get_ok ∅ (parse_players [first; last] ∅) !! "123"
  = Some {| Fide.rating := 1980; Fide.games := 0; Fide.title := "FM";
            Fide.country := "NED"; Fide.birthday := "1990" |}.
Proof.
  intros first last.
  apply (snapshot_last_record_wins [first] last []
           (Sample.get_ok ∅ (parse_players [first; last] ∅)) "123").
  - apply get_ok_eq. vm_compute. reflexivity.
  - reflexivity.
  - done.
  - constructor.
Defined.

(** X14.  One player element that lacks one of the six child elements
    empties the whole snapshot, whatever the other elements hold. *)
Theorem missing_child_empties_snapshot get url root q t :
  feed_of get url root → q ∈ ET.findall "player" root →
  t ∈ field_tags → ET.find t q = None →
  download_and_parse_fide_xml get url = Ok ∅.
Proof.
  intros Hfeed Hq Ht Hnone. rewrite (download_feed _ _ _ Hfeed).
  destruct (parse_players_raises (ET.findall "player" root) ∅ q Hq) as [e ->]; [|done].
  intros d. by apply (parse_player_missing_child q d t).
Qed.

Lemma missing_child_empties_snapshot_witness :
  download_and_parse_fide_xml
    (Sample.get "2000" [Sample.xml_player (Some "123") (Some "1980") (Some "0") None;
                        ET.Element "player" None [Sample.field "fideid" (Some "456")]])
    Sample.prev_url = Ok ∅.
Proof.
  eapply (missing_child_empties_snapshot _ _ _
            (ET.Element "player" None [Sample.field "fideid" (Some "456")]) "rating").
  - eexists _, _, _. split_and!; reflexivity.
  - apply list_elem_of_further, list_elem_of_here.
  - compute_done.
  - reflexivity.
Defined.

(** X15.  A rating or games text that passes [isdigit] without being a
    decimal numeral, a superscript two for instance, does not coerce to
    zero: on an element with an identifier the conversion raises and the
    whole snapshot comes out empty. *)
Theorem digit_like_text_empties_snapshot get url root q id :
  feed_of get url root → q ∈ ET.findall "player" root → complete q →
  field_text "fideid" q = Some id → id ≠ "" →
  digit_like (field_text "rating" q) ∨ digit_like (field_text "games" q) →
  download_and_parse_fide_xml get url = Ok ∅.
Proof.
  intros Hfeed Hq Hc Hid Hne Hbad. rewrite (download_feed _ _ _ Hfeed).
  destruct (parse_players_raises (ET.findall "player" root) ∅ q Hq) as [e ->]; [|done].
  intros d. exists ValueError. by eapply parse_player_digit_like.
Qed.

Lemma digit_like_text_empties_snapshot_witness :
  download_and_parse_fide_xml
    (Sample.get "2000" [Sample.xml_player (Some "123")
                          (Some (String (ascii_of_N 178) "")) (Some "0") None])
    Sample.prev_url = Ok ∅.
Proof.
  eapply (digit_like_text_empties_snapshot _ _ _
            (Sample.xml_player (Some "123") (Some (String (ascii_of_N 178) ""))
               (Some "0") None) "123").
  - eexists _, _, _. split_and!; reflexivity.
  - apply list_elem_of_here.
  - intros t Ht. unfold field_tags in Ht.
    repeat (apply elem_of_cons in Ht as [-> | Ht]; [vm_compute; eauto|]).
    by apply elem_of_nil in Ht.
  - reflexivity.
  - done.
  - left. eexists. split_and!; reflexivity.
Defined.

(** ** Renderings *)

Import NumFacts TextFields.

(** X16.  The string that [str] gives for a rating or a games count that
    is not negative reads back as that number under the conversion of the
    snapshot parser. *)
Theorem rating_string_round_trip n :
  0 ≤ n → Text.isdigit (str n) = true ∧ int_if_digits (Some (str n)) = Ok n.
Proof.
  intros Hn. destruct (str_numeral n Hn) as [Hnum Hval].
  pose proof (numeral_isdigit _ Hnum) as [_ Hd]%andb_prop.
  split; [done|]. unfold int_if_digits, int.
  by rewrite (numeral_isdigit _ Hnum), Hnum, Hval.
Qed.

Lemma rating_string_round_trip_witness :
  Text.isdigit (str 2702) = true ∧ int_if_digits (Some (str 2702)) = Ok 2702.
Proof. apply (rating_string_round_trip 2702). lia. Defined.

(** X17.  The URL derivation raises, for a valid date, exactly in January
    of the first year, with [OverflowError]; and as it runs outside any
    [try], when it raises the whole run raises the same exception. *)
Theorem url_failure_aborts_run today get rows pages :
  datetime.valid today →
  ((∃ e, get_previous_period_url today = Raise e)
   ↔ datetime.year today = datetime.MINYEAR ∧ datetime.month today = 1)
  ∧ (∀ e, get_previous_period_url today = Raise e →
          e = OverflowError ∧ scrape_ratings today get rows pages = Raise e).
Proof.
  intros Hvalid.
  assert ((∃ e, get_previous_period_url today = Raise e)
          → datetime.year today = datetime.MINYEAR ∧ datetime.month today = 1) as Honly.
  { intros [e He].
    destruct (decide (datetime.year today = datetime.MINYEAR
                      ∧ datetime.month today = 1)) as [?|Hno]; [done|].
    destruct (previous_period_url_returns today Hvalid Hno) as [url Hurl]. congruence. }
  split.
  - split; [done|]. intros [Hy Hm]. exists OverflowError.
    by apply first_year_overflow_valid.
  - intros e He. destruct Honly as [Hy Hm]; [eauto|].
    rewrite (first_year_overflow_valid today Hvalid Hy Hm) in He. injection He as <-.
    split; [done|]. unfold scrape_ratings.
    destruct (download_returns get FIDE_XML_URL) as [cur ->].
    cbv [mbind result_bind]. by rewrite (first_year_overflow_valid today Hvalid Hy Hm).
Qed.

Lemma url_failure_aborts_run_witness :
  scrape_ratings {| datetime.year := 1; datetime.month := 1; datetime.day := 15 |}
    (Sample.get "2000" []) [Sample.row "FM"] Sample.pages
  = Raise OverflowError.
Proof.
  apply (url_failure_aborts_run
           {| datetime.year := 1; datetime.month := 1; datetime.day := 15 |}
           (Sample.get "2000" []) [Sample.row "FM"] Sample.pages).
  - vm_compute. intuition discriminate.
  - reflexivity.
Defined.

(** X18.  After the loop body the [rating_change] of a roster entry is a
    decimal numeral, possibly behind a minus sign, and never carries a plus
    sign, with [re] bound or not when the body starts. *)
Theorem rating_change_signed_numeral current_fide prev_fide pages row bound player :
  roster_entry row = Some player →
  ∃ bound' p' v,
    process_player current_fide prev_fide pages (Locals bound player)
    = (Ok (), Locals bound' p')
    ∧ p' !! "rating_change" = Some v ∧ signed_numeral v.
Proof.
  intros Hrow.
  pose proof Hrow as (Hkeys & _)%roster_entry_keys.
  pose proof Hkeys as (_ & [url Hurl] & _).
  pose proof Hrow as [Hrc Hgp]%Profile.roster_entry_defaults.
  rewrite (process_player_outcome _ _ _ _ _ url Hkeys Hurl).
  assert (holds_at "rating_change" signed_numeral player) as H0
    by (exists "0"; split; [done|by left]).
  assert (holds_at "games_played" one_trimmed_line player) as H1.
  { exists "0". split; [done|]. split; [|done]. by split; intros c [= <-]. }
  destruct (knsb_outcome_fields (pages url) player H0 H1) as [(v & Hv & HQ) _].
  unfold body_outcome. destruct (goto (pages url)).
  - eexists _, _, v. split_and!; [done| |done].
    by rewrite lookup_fide_outcome_frame by compute_done.
  - destruct H0 as (v0 & ? & ?). by eexists _, player, v0.
Qed.

Lemma rating_change_signed_numeral_witness :
  let player := default ∅ (roster_entry (Sample.row "FM")) in
  ∃ bound' p' v,
    process_player ∅ ∅ Sample.pages (Locals false player) = (Ok (), Locals bound' p')
    ∧ p' !! "rating_change" = Some v ∧ signed_numeral v.
Proof.
  intros player.
  exact (rating_change_signed_numeral ∅ ∅ Sample.pages (Sample.row "FM") false player
           eq_refl).
Defined.

(** X19.  After the loop body the [games_played] of a roster entry has no
    line break and no whitespace at its ends, with [re] bound or not when
    the body starts. *)
Theorem games_played_one_trimmed_line current_fide prev_fide pages row bound player :
  roster_entry row = Some player →
  ∃ bound' p' v,
    process_player current_fide prev_fide pages (Locals bound player)
    = (Ok (), Locals bound' p')
    ∧ p' !! "games_played" = Some v ∧ one_trimmed_line v.
Proof.
  intros Hrow.
  pose proof Hrow as (Hkeys & _)%roster_entry_keys.
  pose proof Hkeys as (_ & [url Hurl] & _).
  pose proof Hrow as [Hrc Hgp]%Profile.roster_entry_defaults.
  rewrite (process_player_outcome _ _ _ _ _ url Hkeys Hurl).
  assert (holds_at "rating_change" signed_numeral player) as H0
    by (exists "0"; split; [done|by left]).
  assert (holds_at "games_played" one_trimmed_line player) as H1.
  { exists "0". split; [done|]. split; [|done]. by split; intros c [= <-]. }
  destruct (knsb_outcome_fields (pages url) player H0 H1) as [_ (v & Hv & HQ)].
  unfold body_outcome. destruct (goto (pages url)).
  - eexists _, _, v. split_and!; [done| |done].
    by rewrite lookup_fide_outcome_frame by compute_done.
  - destruct H1 as (v0 & ? & ?). by eexists _, player, v0.
Qed.

Lemma games_played_one_trimmed_line_witness :
  let player := default ∅ (roster_entry (Sample.row "FM")) in
  ∃ bound' p' v,
    process_player ∅ ∅ Sample.pages (Locals false player) = (Ok (), Locals bound' p')
    ∧ p' !! "games_played" = Some v ∧ one_trimmed_line v.
Proof.
  intros player.
  exact (games_played_one_trimmed_line ∅ ∅ Sample.pages (Sample.row "FM") false player
           eq_refl).
Defined.

(** X20.  For an emitted record whose identifier is in the current
    snapshot, [fide_change] is ["0"] in two cases and no other: the
    identifier is not in the previous snapshot, or it is there with a
    positive rating equal to the current one. *)
Theorem fide_change_zero_cases today get rows pages out rec current_fide prev_url prev_fide
    fide_id curr_rec :
  scrape_ratings today get rows pages = Ok out → rec ∈ out →
  download_and_parse_fide_xml get FIDE_XML_URL = Ok current_fide →
  get_previous_period_url today = Ok prev_url →
  download_and_parse_fide_xml get prev_url = Ok prev_fide →
  rec !! "fide_id" = Some fide_id → current_fide !! fide_id = Some curr_rec →
  rec !! "fide_change" = Some "0"
  ↔ prev_fide !! fide_id = None
    ∨ ∃ prev_rec, prev_fide !! fide_id = Some prev_rec
                  ∧ 0 < Fide.rating prev_rec
                  ∧ Fide.rating curr_rec = Fide.rating prev_rec.
Proof.
  intros Hout Hrec Hcur Hurl Hprev Hid Hcurr.
  destruct (emitted_fide_change _ _ _ _ _ _ _ _ _ Hout Hrec Hcur Hurl Hprev _ _ Hid Hcurr)
    as (_ & _ & ->).
  destruct (prev_fide !! fide_id) as [prev_rec|]; [|by split; [left|]].
  destruct (Z.ltb_spec 0 (Fide.rating prev_rec)).
  - split.
    + intros [= E]. right. exists prev_rec. split_and!; [done..|].
      apply fmt_change_zero in E. lia.
    + intros [? | (r & [= <-] & _ & ->)]; [done|]. by rewrite Z.sub_diag.
  - split; [done|]. intros [? | (r & [= <-] & ? & _)]; [done|lia].
Qed.

Lemma fide_change_zero_cases_witness :
  let get := Sample.get "2000" [] in
  let out := Sample.get_ok [] (scrape_ratings Sample.today get [Sample.row "FM"]
                                 Sample.pages) in
  Sample.first_record out !! "fide_change" = Some "0".
Proof.
  intros get out.
  apply (fide_change_zero_cases Sample.today get [Sample.row "FM"] Sample.pages out
           (Sample.first_record out)
           (Sample.get_ok ∅ (download_and_parse_fide_xml get FIDE_XML_URL))
           Sample.prev_url
           (Sample.get_ok ∅ (download_and_parse_fide_xml get Sample.prev_url))
           "123" {| Fide.rating := 2000; Fide.games := 3; Fide.title := "IM";
                    Fide.country := "NED"; Fide.birthday := "1990" |}).
  - apply get_ok_eq. vm_compute. reflexivity.
  - apply first_record_elem. vm_compute. lia.
  - apply get_ok_eq. vm_compute. reflexivity.
  - vm_compute. reflexivity.
  - apply get_ok_eq. vm_compute. reflexivity.
  - vm_compute. reflexivity.
  - vm_compute. reflexivity.
  - left. vm_compute. reflexivity.
Defined.

(** X21.  The rendering of the change loses nothing: two changes with the
    same rendering are equal. *)
Theorem change_rendering_injective a b :
  fmt_change a = fmt_change b → a = b.
Proof.
  unfold fmt_change.
  destruct (Z.ltb_spec 0 a), (Z.ltb_spec 0 b); intros E.
  - change (String "+" (str a) = String "+" (str b)) in E.
    injection E as E. by apply (inj pretty) in E.
  - by apply plus_str_ne in E.
  - symmetry in E. by apply plus_str_ne in E.
  - by apply (inj pretty) in E.
Qed.

Lemma change_rendering_injective_witness : (2000 - 1980 : Z) = 20.
Proof. apply (change_rendering_injective (2000 - 1980) 20). reflexivity. Defined.

(** X22.  Backfilling a key twice is backfilling it once: the second
    pass finds the key filled, or the federation value empty, and writes
    nothing; the same value is returned, or the same [KeyError] raised. *)
Theorem backfill_idempotent key v bound player :
  (backfill key v ≫= λ _, backfill key v) (Locals bound player)
  = backfill key v (Locals bound player).
Proof.
  destruct (player !! key) as [old|] eqn:Hold.
  - rewrite (bind_ok _ _ _ _ _ (backfill_run key v bound player old Hold)).
    pose proof (lookup_backfilled key v player old Hold) as Hnew.
    rewrite (backfill_run key v _ _ _ Hnew), (backfill_run key v _ _ _ Hold).
    do 2 f_equal. unfold backfilled at 1. rewrite Hnew.
    destruct old as [|c old]; simpl; [|done]. by destruct v.
  - assert (backfill key v (Locals bound player)
            = (Raise (KeyError key), Locals bound player)) as E.
    { unfold backfill.
      by rewrite (bind_raise _ _ _ _ _ (getitem_raise key (Locals bound player) Hold)). }
    by rewrite (bind_raise _ _ _ _ _ E).
Qed.

(** ** Failures inside step 1 *)

(** X23.  When waiting for the table or reading the games cell raises,
    the calculation cell is not read either, so line 185 does not run: a
    roster entry keeps both defaults and [re] is left as it was.  The body
    then goes on to the federation link: with [re] bound the match
    proceeds as on any page, and with [re] unbound nothing is written, so
    the entry leaves the body as it entered. *)
Theorem knsb_failure_keeps_defaults current_fide prev_fide pages row bound player url :
  roster_entry row = Some player → player !! "_full_profile_url" = Some url →
  (∃ e, wait_for_table (pages url) = Raise e)
  ∨ (∃ e, games_cell (pages url) = Raise e) →
  ∃ p',
    process_player current_fide prev_fide pages (Locals bound player)
    = (Ok (), Locals bound p')
    ∧ p' !! "games_played" = Some "0" ∧ p' !! "rating_change" = Some "0"
    ∧ (goto (pages url) = Ok () →
       p' = fide_outcome current_fide prev_fide (pages url) bound player)
    ∧ (bound = false → p' = player).
Proof.
  intros Hrow Hurl Hfail.
  pose proof Hrow as (Hkeys & _)%roster_entry_keys.
  pose proof Hrow as [Hrc Hgp]%Profile.roster_entry_defaults.
  rewrite (process_player_outcome _ _ _ _ _ url Hkeys Hurl).
  assert (imports (pages url) = false) as Himp.
  { unfold imports. destruct Hfail as [[e ->] | [e ->]]; [done|].
    by destruct (wait_for_table (pages url)). }
  assert (knsb_outcome (pages url) player = player) as Hknsb.
  { unfold knsb_outcome, exec, try_except_M, knsb_stats.
    destruct (wait_for_table (pages url)) as [[]|e] eqn:Hw.
    - destruct Hfail as [[e ?] | [e He]]; [congruence|].
      rewrite He. by unfold mbind, M_bind, lift.
    - by unfold mbind, M_bind, lift. }
  assert (bound || binds (pages url) = bound) as ->.
  { unfold binds. rewrite Himp. destruct (goto (pages url)); apply orb_false_r. }
  eexists. split; [done|].
  unfold body_outcome. rewrite Himp, orb_false_r, Hknsb.
  split_and!.
  - destruct (goto (pages url)); [|done].
    by rewrite lookup_fide_outcome_frame by compute_done.
  - destruct (goto (pages url)); [|done].
    by rewrite lookup_fide_outcome_frame by compute_done.
  - by intros ->.
  - intros ->. destruct (goto (pages url)); [|done]. apply fide_outcome_unbound.
Qed.

Lemma knsb_failure_keeps_defaults_witness :
  let player := default ∅ (roster_entry (Sample.row "FM")) in
  let pages := λ _ : string,
    {| goto := Ok (); wait_for_table := Raise PlaywrightError;
       games_cell := Ok (Some ("#Gespeeld" +:+ nl +:+ "5"));
       calc_cell := Ok (Some "2702=2692 + 10");
       fide_link := Ok (Some "https://ratings.fide.com/profile/123") |} in
  process_player ∅ ∅ pages (Locals false player) = (Ok (), Locals false player)
  ∧ player !! "games_played" = Some "0" ∧ player !! "rating_change" = Some "0".
Proof.
  intros player pages.
  destruct (knsb_failure_keeps_defaults ∅ ∅ pages (Sample.row "FM") false player
              "https://ratingviewer.nl/players/8000001")
    as (p' & Hrun & Hgp & Hrc & _ & Hsame);
    [reflexivity|vm_compute; reflexivity|left; by exists PlaywrightError|].
  rewrite (Hsame eq_refl) in Hrun, Hgp, Hrc. by split_and!.
Defined.

(** ** The binding of [re] *)

(** X24.  The [import re] of line 185 makes [re] a local variable of
    [scrape_ratings], so the search of line 210 raises as long as no
    calculation cell has been read.  When the loop body starts with [re]
    unbound on a page where step 1 does not get as far as line 185, it
    still returns, [re] stays unbound, no federation key is written and
    title, country and birthday stay as the roster has them, whatever the
    federation link and the snapshots; with a link on the page, steps 2
    and 3 end in [UnboundLocalError], which the outer handler takes. *)
Theorem unbound_re_skips_federation_match current_fide prev_fide pages row player url :
  roster_entry row = Some player → player !! "_full_profile_url" = Some url →
  imports (pages url) = false →
  (∃ p',
     process_player current_fide prev_fide pages (Locals false player)
     = (Ok (), Locals false p')
     ∧ Forall (λ k, p' !! k = None) federation_keys
     ∧ Forall (λ k, p' !! k = player !! k) backfill_keys)
  ∧ ∀ fide_url p,
      fide_link (pages url) = Ok (Some fide_url) →
      fide_match current_fide prev_fide (pages url) (Locals false p)
      = (Raise UnboundLocalError, Locals false p).
Proof.
  intros Hrow Hurl Himp.
  pose proof Hrow as (Hkeys & Hid & Hr & Hg & Hc)%roster_entry_keys.
  split.
  - rewrite (process_player_outcome _ _ _ _ _ url Hkeys Hurl).
    assert (binds (pages url) = false) as ->
      by (unfold binds; rewrite Himp; by destruct (goto (pages url))).
    eexists. split; [done|].
    assert (body_outcome current_fide prev_fide (pages url) false player = player
            ∨ body_outcome current_fide prev_fide (pages url) false player
              = knsb_outcome (pages url) player) as [-> | ->].
    { unfold body_outcome. destruct (goto (pages url)); [|by left]. right.
      rewrite Himp. apply fide_outcome_unbound. }
    + unfold federation_keys, backfill_keys. split; by repeat constructor.
    + unfold federation_keys, backfill_keys.
      split; repeat constructor; by rewrite knsb_outcome_frame by compute_done.
  - intros fide_url p Hlink. unfold fide_match. rewrite Hlink.
    by unfold mbind, M_bind, lift, load_re.
Qed.

Lemma unbound_re_skips_federation_match_witness :
  let current_fide : gmap string Fide.record :=
    {["123" := {| Fide.rating := 2000; Fide.games := 3; Fide.title := "IM";
                  Fide.country := "NED"; Fide.birthday := "1990" |}]} in
  let player := default ∅ (roster_entry (Sample.row "")) in
  let pages := λ _ : string,
    {| goto := Ok (); wait_for_table := Ok ();
       games_cell := Ok (Some ("#Gespeeld" +:+ nl +:+ "5")); calc_cell := Ok None;
       fide_link := Ok (Some "https://ratings.fide.com/profile/123") |} in
  ∃ p', process_player current_fide ∅ pages (Locals false player)
        = (Ok (), Locals false p')
        ∧ Forall (λ k, p' !! k = None) federation_keys
        ∧ Forall (λ k, p' !! k = player !! k) backfill_keys.
Proof.
  intros current_fide player pages.
  apply (unbound_re_skips_federation_match current_fide ∅ pages (Sample.row "") player
           "https://ratingviewer.nl/players/8000001");
    [reflexivity|vm_compute; reflexivity|reflexivity].
Defined.

(** X25.  In the run as a whole: as long as no page of the entries up to
    and including the [i]-th has got as far as line 185, the [i]-th record
    has none of the federation keys. *)
Theorem no_federation_fields_before_first_import today get rows pages out i rec :
  scrape_ratings today get rows pages = Ok out → out !! i = Some rec →
  bound_after pages false (take (S i) (omap roster_entry rows)) = false →
  Forall (λ k, rec !! k = None) federation_keys.
Proof.
  intros Hout Hi Hb.
  apply scrape_ratings_enriched in Hout as (cur & prev & ->).
  rewrite list_lookup_fmap in Hi.
  destruct (enriched_all cur prev pages false (omap roster_entry rows) !! i)
    as [p'|] eqn:Hp'; [|done].
  injection Hi as <-.
  assert (is_Some (omap roster_entry rows !! i)) as [player Hplayer].
  { apply lookup_lt_is_Some. apply lookup_lt_Some in Hp'.
    by rewrite enriched_all_length in Hp'. }
  rewrite (enriched_all_lookup _ _ _ _ _ _ _ Hplayer) in Hp'. injection Hp' as <-.
  rewrite (take_S_r _ _ _ Hplayer), bound_after_snoc in Hb.
  apply orb_false_elim in Hb as [Hb Hbinds].
  unfold bound_after in Hb. simpl in Hb. rewrite Hb.
  pose proof (list_elem_of_lookup_2 _ _ _ Hplayer) as (row & _ & Hrow)%list_elem_of_omap.
  pose proof Hrow as (Hkeys & Hid & Hr & Hg & Hc)%roster_entry_keys.
  pose proof Hkeys as (_ & [url Hurl] & _).
  unfold entry_binds in Hbinds. rewrite Hurl in Hbinds.
  unfold enriched. rewrite Hurl. unfold body_outcome, binds in *.
  destruct (goto (pages url)).
  - rewrite Hbinds, fide_outcome_unbound. unfold federation_keys.
    repeat constructor; rewrite lookup_cleanup by done;
      by rewrite knsb_outcome_frame by compute_done.
  - unfold federation_keys. repeat constructor; by rewrite lookup_cleanup by done.
Qed.

Lemma no_federation_fields_before_first_import_witness :
  let pages := λ _ : string,
    {| goto := Ok (); wait_for_table := Ok ();
       games_cell := Ok (Some ("#Gespeeld" +:+ nl +:+ "5")); calc_cell := Ok None;
       fide_link := Ok (Some "https://ratings.fide.com/profile/123") |} in
  let out := Sample.get_ok [] (scrape_ratings Sample.today (Sample.get "2000" [])
                                 [Sample.row "FM"] pages) in
  Forall (λ k, Sample.first_record out !! k = None) federation_keys.
Proof.
  intros pages out.
  apply (no_federation_fields_before_first_import Sample.today (Sample.get "2000" [])
           [Sample.row "FM"] pages out 0 (Sample.first_record out)).
  - apply get_ok_eq. vm_compute. reflexivity.
  - apply first_record_lookup. vm_compute. lia.
  - vm_compute. reflexivity.
Defined.

(** X26.  When the loop body records an identifier: the page opens, [re]
    is bound when the link is searched (it was bound before the body, or
    step 1 has got as far as line 185), and the page carries a federation
    link in which the search finds that identifier; and in no other
    case. *)
Theorem fide_id_recorded_iff current_fide prev_fide pages row bound player url fide_id :
  roster_entry row = Some player → player !! "_full_profile_url" = Some url →
  ∃ bound' p',
    process_player current_fide prev_fide pages (Locals bound player)
    = (Ok (), Locals bound' p')
    ∧ (p' !! "fide_id" = Some fide_id
       ↔ goto (pages url) = Ok ()
         ∧ (bound = true ∨ imports (pages url) = true)
         ∧ ∃ fide_url, fide_link (pages url) = Ok (Some fide_url)
                       ∧ Re.search_profile fide_url = Some fide_id).
Proof.
  intros Hrow Hurl.
  pose proof Hrow as (Hkeys & Hid & _)%roster_entry_keys.
  rewrite (process_player_outcome _ _ _ _ _ url Hkeys Hurl).
  eexists _, _. split; [done|]. unfold body_outcome. split.
  - destruct (goto (pages url)) as [[]|e]; [|congruence].
    intros (Hb & link & Hlink & Hsearch)%fide_outcome_id;
      [|by rewrite knsb_outcome_frame by compute_done].
    split_and!; [done| |by exists link].
    apply orb_prop in Hb as [-> | ->]; auto.
  - intros (-> & Hb & link & Hlink & Hsearch).
    assert (bound || imports (pages url) = true) as ->
      by (destruct Hb as [-> | ->]; [done|apply orb_true_r]).
    unfold fide_outcome. rewrite Hlink, Hsearch.
    destruct (current_fide !! fide_id).
    + apply lookup_reconciled_id.
    + apply lookup_insert_eq.
Qed.

Lemma fide_id_recorded_iff_witness :
  let player := default ∅ (roster_entry (Sample.row "FM")) in
  ∃ bound' p',
    process_player ∅ ∅ Sample.pages (Locals false player) = (Ok (), Locals bound' p')
    ∧ p' !! "fide_id" = Some "123".
Proof.
  intros player.
  destruct (fide_id_recorded_iff ∅ ∅ Sample.pages (Sample.row "FM") false player
              "https://ratingviewer.nl/players/8000001" "123")
    as (bound' & p' & Hrun & Hiff); [reflexivity|vm_compute; reflexivity|].
  exists bound', p'. split; [exact Hrun|]. apply Hiff.
  split_and!; [reflexivity|right; reflexivity|].
  by exists "https://ratings.fide.com/profile/123".
Defined.
